(** * amqp10 client core: sender link, link, connection and codec

    A shallow embedding of the parts of the amqp10 library that the
    AMQP transport of the IoT Hub nodes relies on:

    - [lib/sender_link.js]   (send queue, session-window bookkeeping,
                              fragmentation, disposition correlation),
    - [lib/link.js]          (link state machine, attach, detach and
                              the reattach timer),
    - [lib/connection.js]    (connection state machine, header and open
                              negotiation, inbound frame loop, table of
                              sessions),
    - [lib/codec.js]         (choice of encoder in [Codec.encode],
                              reading and decoding of values),
    - [lib/frames/disposition_frame.js] (constructor defaults).

    JavaScript numbers that count things (credits, windows, ids, sizes)
    are integers here ([Z]); buffers are lists of bytes; objects used as
    dictionaries are finite maps. *)

From Stdlib Require Import ZArith List String Ascii Bool Lia QArith Qabs.
From Stdlib Require Import HexadecimalString.
From Stdlib.Strings Require Import Byte.
From stdpp Require Import base option list list_numbers gmap strings pretty.

Local Open Scope string_scope.
Local Open Scope list_scope.
Local Open Scope Z_scope.

#[global] Instance byte_eq_dec : EqDecision byte := Byte.byte_eq_dec.

(** ** Errors and completions shared by the three components *)

(** The error classes of [lib/errors.js] that the modelled code raises,
    together with the built-in [Error] and [TypeError]. *)
Inductive ErrorClass :=
| JsErrorClass
| TypeErrorClass
| OverCapacityError
| ArgumentError
| EncodingError
| NotImplementedError
| MalformedPayloadError
| VersionError.

(** An error: its class and its message. [lib/errors.js] is not part of
    the sources: where [newError] below is not used, an error of one of
    its classes carries as its message the text it is constructed
    with, without what the class may put before it. *)
Record JsError := mkJsError { errorClass : ErrorClass; message : string }.

(** The AMQP error type carried by close, detach and rejected outcomes. *)
Record AMQPError := mkAMQPError { condition : string; description : option string }.

(** How a call ends: normally, by a throw, or not at all. *)
Inductive Completion (A : Type) : Type :=
| Normal (a : A)
| Throw (e : JsError)
| Diverge
| OutOfFuel.
Arguments Normal {A} a.
Arguments Throw {A} e.
Arguments Diverge {A}.
Arguments OutOfFuel {A}.

(** A method runs on an object of type [S], may change it, may make
    effects of type [E] visible and completes normally or by a throw.
    What was changed or emitted before a throw stays changed and
    emitted. [OutOfFuel] is the answer of a loop whose iteration bound
    was too small. *)
Definition Run (S E A : Type) : Type := S -> Completion A * S * list E.

#[global] Instance Run_ret {S E} : MRet (Run S E) := fun A a s => (Normal a, s, []).

#[global] Instance Run_bind {S E} : MBind (Run S E) := fun A B k m s =>
  match m s with
  | (Normal a, s1, e1) =>
      match k a s1 with (r, s2, e2) => (r, s2, e1 ++ e2) end
  | (Throw e, s1, e1) => (Throw e, s1, e1)
  | (Diverge, s1, e1) => (Diverge, s1, e1)
  | (OutOfFuel, s1, e1) => (OutOfFuel, s1, e1)
  end.

Definition throw {S E A} (e : JsError) : Run S E A := fun s => (Throw e, s, []).
Definition diverge {S E A} : Run S E A := fun s => (Diverge, s, []).
Definition outOfFuel {S E A} : Run S E A := fun s => (OutOfFuel, s, []).
Definition get {S E} : Run S E S := fun s => (Normal s, s, []).
Definition modify {S E} (f : S -> S) : Run S E unit := fun s => (Normal tt, f s, []).
Definition emit {S E} (es : list E) : Run S E unit := fun s => (Normal tt, s, es).

(** [try { m } catch (e) { h(e) }] *)
Definition try_catch {S E A} (m : Run S E A) (h : JsError -> Run S E A) : Run S E A :=
  fun s =>
  match m s with
  | (Throw e, s1, e1) =>
      match h e s1 with (r, s2, e2) => (r, s2, e1 ++ e2) end
  | r => r
  end.

(** Reading the answer of a run. *)
Definition completion {S E A} (r : Completion A * S * list E) : Completion A := r.1.1.
Definition after {S E A} (r : Completion A * S * list E) : S := r.1.2.
Definition effects {S E A} (r : Completion A * S * list E) : list E := r.2.

(** The call ended by throwing an error of class [OverCapacityError]. *)
Definition throwsOverCapacity {A} (r : Completion A) : Prop :=
  match r with
  | Throw e => errorClass e = OverCapacityError
  | _ => False
  end.

(** A method keeps a property of the object it runs on, however it
    completes. *)
Definition preserves {S E A} (P : S -> Prop) (m : Run S E A) : Prop :=
  forall s, P s -> P (after (m s)).

(** [hay] contains [needle] (chai's [include] on strings). *)
Fixpoint includes (needle hay : string) : bool :=
  String.prefix needle hay ||
  match hay with
  | EmptyString => false
  | String _ rest => includes needle rest
  end.

(** [a || d] for a number that may be absent: [undefined], [null] and
    [0] give [d]. *)
Definition number_or (a : option Z) (d : Z) : Z :=
  match a with
  | None => d
  | Some n => if n =? 0 then d else n
  end.

(** [Buffer.prototype.slice(start, end)] for [0 <= start]: the end is
    clamped to the length of the buffer. *)
Definition Buffer_slice (buf : list byte) (start end_ : Z) : list byte :=
  take (Z.to_nat (end_ - start)) (drop (Z.to_nat start) buf).

(** [new Buffer(s)] for an ASCII string. *)
Definition Buffer_from_string (s : string) : list byte := list_byte_of_string s.

(** The value of [Math.ceil(a / b)] for a length [a >= 0]. Division by
    zero gives [NaN] for [0 / 0] and [Infinity] otherwise. *)
Inductive JsCount :=
| Count (n : Z)
| CountNaN
| CountInfinity.

Definition Math_ceil_div (a b : Z) : JsCount :=
  if b =? 0 then (if a =? 0 then CountNaN else CountInfinity)
  else Count (- ((- a) / b)).

(** The call ended by throwing a [TypeError]. *)
Definition throwsTypeError {A} (r : Completion A) : Prop :=
  match r with
  | Throw e => errorClass e = TypeErrorClass
  | _ => False
  end.

(** What [lib/errors.js], which is not part of the sources, does with
    the text an error of one of its classes is constructed with: the
    message of the error. *)
Class ErrorsEnv := {
  errors_message : ErrorClass -> string -> string
}.

(** [new errors.SomeError(text)] *)
Definition newError `{!ErrorsEnv} (class : ErrorClass) (text : string) : JsError :=
  mkJsError class (errors_message class text).

(** [n.toString(16)] for a number that is a non-negative integer. *)
Definition Number_toString16 (n : Z) : string :=
  NilZero.string_of_uint (N.to_hex_uint (Z.to_N n)).

(** [buf[i]]: [undefined] outside the buffer. *)
Definition Buffer_at (buf : list byte) (i : Z) : option Z :=
  if i <? 0 then None
  else (fun b => Z.of_N (Byte.to_N b)) <$> (buf !! Z.to_nat i).

(** [buf.readUInt32BE(i)]; [None] where the four bytes are not all
    inside the buffer. *)
Definition Buffer_readUInt32BE (buf : list byte) (i : Z) : option Z :=
  b0 ← Buffer_at buf i;
  b1 ← Buffer_at buf (i + 1);
  b2 ← Buffer_at buf (i + 2);
  b3 ← Buffer_at buf (i + 3);
  Some (((b0 * 256 + b1) * 256 + b2) * 256 + b3).

(** ** Sender link ([lib/sender_link.js], [lib/link.js]) *)

Module SenderLink.

(** States of the link state machine of [lib/link.js]. *)
Inductive LinkState := DETACHED | ATTACHING | ATTACHED | DETACHING.

#[global] Instance LinkState_eq_dec : EqDecision LinkState.
Proof. solve_decision. Defined.

(** [putils.SenderCallbackPolicies]; any other value of [policy.callback]
    is kept as its printed form. *)
Inductive SenderCallbackPolicy :=
| OnSettle
| OnSent
| OtherCallbackPolicy (printed : string).

(** Modelled from the spec: the delivery outcomes of
    [lib/types/delivery_state.js], which is not part of the sources
    (accepted 0x24, rejected 0x25 carrying an error, released 0x26,
    modified 0x27). The error of a rejected outcome is read with
    [details.state.error] and may be [null]. *)
Inductive DeliveryState :=
| Accepted
| Rejected (error : option AMQPError)
| Released
| Modified.

(** What a promise can be rejected with by the sender. *)
Inductive Reason :=
| Thrown (e : JsError)
| Carried (e : AMQPError).

Inductive Settlement :=
| Resolved (value : option DeliveryState)
| RejectedWith (reason : Reason).

Definition PromiseId := nat.

(** A transfer performative as [_sendMessage] builds it. [tf_more] is
    [None] where [_sendMessage] leaves the field to the defaults of the
    [TransferFrame] constructor. *)
Record TransferFrame := mkTransferFrame {
  tf_channel : Z;
  tf_handle : Z;
  tf_deliveryId : Z;
  tf_settled : bool;
  tf_deliveryTag : list byte;
  tf_more : option bool;
  tf_message : list byte
}.

(** The closure [deferredSender] stored in [_unsettledSends]: it keeps
    the [resolve] and [reject] functions of one promise. *)
Record Resolver := mkResolver { rs_promise : PromiseId }.

(** The disposition details handed to [_dispositionReceived]. An absent
    or [null] field is [None]. *)
Record Disposition := mkDisposition {
  first : Z;
  last : option Z;
  settled : bool;
  state : option DeliveryState
}.

(** What a call makes visible outside the link. *)
Inductive Effect :=
| SendFrame (f : TransferFrame)
    (* this.session.connection.sendFrame(new TransferFrame(...)) *)
| Settle (p : PromiseId) (s : Settlement)
    (* resolve(...) or reject(...) called directly by send *)
| ResolverCalled (messageId : Z) (r : Resolver)
                 (err : option AMQPError) (st : option DeliveryState).
    (* this._unsettledSends[messageId](err, details.state) *)

(** The body of [deferredSender]. *)
Definition deferredSender (r : Resolver) (err : option AMQPError)
    (st : option DeliveryState) : PromiseId * Settlement :=
  match err with
  | Some e => (rs_promise r, RejectedWith (Carried e))
  | None => (rs_promise r, Resolved st)
  end.

(** The promise settlements an effect amounts to. *)
Definition settlements (eff : list Effect) : list (PromiseId * Settlement) :=
  omap (fun e => match e with
                 | SendFrame _ => None
                 | Settle p s => Some (p, s)
                 | ResolverCalled _ r err st => Some (deferredSender r err st)
                 end) eff.

Definition sentFrames (eff : list Effect) : list TransferFrame :=
  omap (fun e => match e with SendFrame f => Some f | _ => None end) eff.

(** The resolver calls made for one delivery id. *)
Definition callsFor (messageId : Z) (eff : list Effect)
    : list (Resolver * option AMQPError * option DeliveryState) :=
  omap (fun e => match e with
                 | ResolverCalled k r err st =>
                     if bool_decide (k = messageId) then Some (r, err, st) else None
                 | _ => None
                 end) eff.

(** What the sender needs from files that are not part of the sources:
    the message type and its construction ([lib/types/message.js] and the
    policy encoder, lines 67-82 of [send]), the message encoding of the
    codec, and two constants. *)
Class SenderEnv := {
  JsMsg : Type;
  SendOptions : Type;
  Message : Type;
  buildMessage : JsMsg -> SendOptions -> Message;
  codec_encode : Message -> list byte;
  FRAME_OVERHEAD : Z;                       (* TransferFrame.FRAME_OVERHEAD *)
  constants_senderSettleMode_settled : Z    (* constants.senderSettleMode.settled *)
}.

Section Model.
Context `{!SenderEnv}.

(** [session._sessionParams] *)
Record SessionParams := mkSessionParams {
  nextOutgoingId : Z;
  remoteIncomingWindow : Z;
  outgoingWindow : Z;
  senderSettleMode : option Z
}.

(** [session.connection]: only [_params.maxFrameSize] is read. *)
Record ConnectionRef := mkConnectionRef { maxFrameSize : Z }.

Record Session := mkSession {
  connection : option ConnectionRef;   (* null or undefined: None *)
  channel : Z;
  enableSessionFlowControl : bool;     (* session.policy.enableSessionFlowControl *)
  _sessionParams : SessionParams;
  _deliveryTag : Z
}.

(** The closure [sendMessage] that [send] builds: the message, the
    delivery tag number and the promise it settles. *)
Record PendingSend := mkPendingSend {
  ps_message : Message;
  ps_deliveryTag : Z;
  ps_promise : PromiseId
}.

Record SenderLink := mkSenderLink {
  session : Session;
  handle : Z;
  linkSM : LinkState;
  callback : SenderCallbackPolicy;     (* policy.callback *)
  linkCredit : Z;
  _pendingSends : list PendingSend;
  _unsettledSends : gmap Z Resolver;
  promiseCount : nat                   (* promises created so far *)
}.

(** Field updates. *)
Definition with_sessionParams (f : SessionParams -> SessionParams) (l : SenderLink) : SenderLink :=
  let s := session l in
  mkSenderLink
    (mkSession (connection s) (channel s) (enableSessionFlowControl s)
               (f (_sessionParams s)) (_deliveryTag s))
    (handle l) (linkSM l) (callback l) (linkCredit l)
    (_pendingSends l) (_unsettledSends l) (promiseCount l).

Definition with_deliveryTag (t : Z) (l : SenderLink) : SenderLink :=
  let s := session l in
  mkSenderLink
    (mkSession (connection s) (channel s) (enableSessionFlowControl s)
               (_sessionParams s) t)
    (handle l) (linkSM l) (callback l) (linkCredit l)
    (_pendingSends l) (_unsettledSends l) (promiseCount l).

Definition with_linkCredit (c : Z) (l : SenderLink) : SenderLink :=
  mkSenderLink (session l) (handle l) (linkSM l) (callback l) c
    (_pendingSends l) (_unsettledSends l) (promiseCount l).

Definition with_pendingSends (q : list PendingSend) (l : SenderLink) : SenderLink :=
  mkSenderLink (session l) (handle l) (linkSM l) (callback l) (linkCredit l)
    q (_unsettledSends l) (promiseCount l).

Definition with_unsettledSends (m : gmap Z Resolver) (l : SenderLink) : SenderLink :=
  mkSenderLink (session l) (handle l) (linkSM l) (callback l) (linkCredit l)
    (_pendingSends l) m (promiseCount l).

Definition with_promiseCount (n : nat) (l : SenderLink) : SenderLink :=
  mkSenderLink (session l) (handle l) (linkSM l) (callback l) (linkCredit l)
    (_pendingSends l) (_unsettledSends l) n.

(** Link methods run in [Run SenderLink Effect]. *)
#[local] Abbreviation M := (Run SenderLink Effect).

(** *** Public API *)

(** [Link.prototype.state] *)
Definition state_ (l : SenderLink) : LinkState := linkSM l.

(** [SenderLink.prototype.canSend] *)
Definition canSend (l : SenderLink) : bool :=
  if negb (bool_decide (state_ l = ATTACHED)) then false
  else
    let sendable :=
      (1 <=? linkCredit l) &&
      (negb (enableSessionFlowControl (session l))
       || (1 <=? remoteIncomingWindow (_sessionParams (session l)))) in
    sendable.

(** *** Private API *)

(** The loop of [_sendMessage] over the fragments, [n] iterations left,
    at loop counter [i] and offset [bufferIdx]. *)
Fixpoint sendFragments (n : nat) (i messageCount bufferIdx idealMessageSize : Z)
    (transferOptions : TransferFrame) (messageBuffer : list byte) : list TransferFrame :=
  match n with
  | O => []
  | S n' =>
      mkTransferFrame
        (tf_channel transferOptions) (tf_handle transferOptions)
        (tf_deliveryId transferOptions) (tf_settled transferOptions)
        (tf_deliveryTag transferOptions)
        (Some (negb (i =? messageCount - 1)))
        (Buffer_slice messageBuffer bufferIdx (bufferIdx + idealMessageSize))
      :: sendFragments n' (i + 1) messageCount (bufferIdx + idealMessageSize)
           idealMessageSize transferOptions messageBuffer
  end.

(** [SenderLink.prototype._sendMessage]; [deliveryTag] is
    [options.deliveryTag], the only option [send] passes. *)
Definition _sendMessage (message_ : Message) (deliveryTag : list byte) : M Z :=
  l ← get;
  (* preconditions *)
  if linkCredit l <=? 0 then
    throw (mkJsError OverCapacityError "Cannot send if no link credit.")
  else
  (* session bookkeeping *)
  let messageId := nextOutgoingId (_sessionParams (session l)) in
  modify (with_sessionParams (fun p =>
    mkSessionParams (nextOutgoingId p + 1) (remoteIncomingWindow p - 1)
                    (outgoingWindow p - 1) (senderSettleMode p)));;
  l ← get;
  (if remoteIncomingWindow (_sessionParams (session l)) <? 0 then
     if enableSessionFlowControl (session l) then
       throw (mkJsError OverCapacityError
         ("Cannot send message - over Session window capacity (" +:+
          pretty (remoteIncomingWindow (_sessionParams (session l))) +:+ " window)"))
     else
       modify (with_sessionParams (fun p =>
         mkSessionParams (nextOutgoingId p) 0 0 (senderSettleMode p)))
   else mret tt);;
  (* create frame(s) *)
  l ← get;
  let transferOptions :=
    mkTransferFrame (channel (session l)) (handle l) messageId
      (bool_decide (senderSettleMode (_sessionParams (session l))
                    = Some constants_senderSettleMode_settled))
      deliveryTag None [] in
  (* pre-encode message to determine if multiple frames are required *)
  let messageBuffer := codec_encode message_ in
  (* send the frame(s) *)
  match connection (session l) with
  | None =>
      throw (mkJsError TypeErrorClass "Cannot read property '_params' of undefined")
  | Some conn =>
      let maxFrameSize := maxFrameSize conn in
      let frameOverhead := FRAME_OVERHEAD + Z.of_nat (length deliveryTag) in
      let idealMessageSize := maxFrameSize - frameOverhead in
      let approximateFrameSize := Z.of_nat (length messageBuffer) + frameOverhead in
      (if maxFrameSize <=? approximateFrameSize then
         match Math_ceil_div (Z.of_nat (length messageBuffer)) idealMessageSize with
         | Count messageCount =>
             emit (SendFrame <$>
                     sendFragments (Z.to_nat messageCount) 0 messageCount 0
                       idealMessageSize transferOptions messageBuffer)
         | CountNaN => mret tt
         | CountInfinity => diverge           (* the loop never ends *)
         end
       else
         emit [SendFrame
                 (mkTransferFrame (tf_channel transferOptions) (tf_handle transferOptions)
                    (tf_deliveryId transferOptions) (tf_settled transferOptions)
                    (tf_deliveryTag transferOptions) (tf_more transferOptions)
                    messageBuffer)]);;
      modify (fun l => with_linkCredit (linkCredit l - 1) l);;
      mret messageId
  end.

(** The closure [sendMessage] of [send], applied to [err]. *)
Definition sendMessage (ps : PendingSend) (err : option AMQPError) : M unit :=
  match err with
  | Some e => emit [Settle (ps_promise ps) (RejectedWith (Carried e))]
  | None =>
      messageId ← _sendMessage (ps_message ps)
                     (Buffer_from_string (pretty (ps_deliveryTag ps)));
      l ← get;
      match callback l with
      | OnSettle =>
          modify (fun l => with_unsettledSends
                    (<[messageId := mkResolver (ps_promise ps)]> (_unsettledSends l)) l)
      | OnSent => emit [Settle (ps_promise ps) (Resolved None)]
      | OtherCallbackPolicy printed =>
          emit [Settle (ps_promise ps)
                  (RejectedWith (Thrown (mkJsError ArgumentError
                     ("Invalid sender callback policy: " +:+ printed))))]
      end
  end.

(** [SenderLink.prototype.send]. The promise executor runs at once; an
    exception thrown inside it rejects the promise. *)
Definition send (msg : JsMsg) (options : SendOptions) : M PromiseId :=
  l ← get;
  match connection (session l) with
  | None => throw (mkJsError JsErrorClass "Must connect before sending")
  | Some _ =>
      let p := promiseCount l in
      modify (with_promiseCount (S p));;
      let message_ := buildMessage msg options in
      let deliveryTag := _deliveryTag (session l) in
      modify (with_deliveryTag (deliveryTag + 1));;
      let ps := mkPendingSend message_ deliveryTag p in
      l ← get;
      (if negb (canSend l) then
         modify (fun l => with_pendingSends (_pendingSends l ++ [ps]) l)
       else
         (* otherwise send the message *)
         try_catch (sendMessage ps None)
           (fun e => emit [Settle p (RejectedWith (Thrown e))]));;
      mret p
  end.

(** The loop of [_dispatchPendingSends]; no closure in the queue adds to
    the queue, so the length of the queue bounds the iterations. *)
Fixpoint dispatchLoop (n : nat) (err : option AMQPError) : M unit :=
  match n with
  | O => mret tt
  | S n' =>
      l ← get;
      match _pendingSends l with
      | [] => mret tt
      | ps :: rest =>
          if canSend l then
            modify (with_pendingSends rest);;
            sendMessage ps err;;
            dispatchLoop n' err
          else mret tt
      end
  end.

(** [SenderLink.prototype._dispatchPendingSends] *)
Definition _dispatchPendingSends (err : option AMQPError) : M unit :=
  l ← get;
  dispatchLoop (length (_pendingSends l)) err.

(** [details.last || first] *)
Definition last_or_first (d : Disposition) : Z := number_or (last d) (first d).

(** The loop of [_dispositionReceived] from [messageId] on, [n]
    iterations left. *)
Fixpoint dispositionLoop (n : nat) (messageId : Z)
    (err : option AMQPError) (st : option DeliveryState) : M unit :=
  match n with
  | O => mret tt
  | S n' =>
      l ← get;
      match _unsettledSends l !! messageId with
      | None => mret tt
      | Some r =>
          emit [ResolverCalled messageId r err st];;
          modify (fun l => with_unsettledSends (delete messageId (_unsettledSends l)) l)
      end;;
      dispositionLoop n' (messageId + 1) err st
  end.

(** [SenderLink.prototype._dispositionReceived] *)
Definition _dispositionReceived (details : Disposition) : M unit :=
  if negb (settled details) then mret tt
  else
    let err :=
      match state details with
      | Some (Rejected e) => e
      | _ => None
      end in
    let first_ := first details in
    let last_ := last_or_first details in
    dispositionLoop (Z.to_nat (last_ - first_ + 1)) first_ err (state details).

(** The delivery ids a disposition speaks about, [first] to
    [last || first], and whether it settles a given one. *)
Definition covers (d : Disposition) (messageId : Z) : bool :=
  (first d <=? messageId) && (messageId <=? last_or_first d).

Definition settles (d : Disposition) (messageId : Z) : bool :=
  settled d && covers d messageId.

(** The range of a disposition in the words of the specification,
    without the [last || first] of the code: the delivery ids from
    [first] to [last], and [first] alone for a disposition whose [last]
    is absent, [null] or the 0 that the frame constructor writes for an
    absent one. *)
Definition rangeCovers (d : Disposition) (messageId : Z) : bool :=
  match last d with
  | Some last_ =>
      if last_ =? 0 then messageId =? first d
      else (first d <=? messageId) && (messageId <=? last_)
  | None => messageId =? first d
  end.

(** The [err] that [_dispositionReceived] hands to the resolvers. *)
Definition errorOf (d : Disposition) : option AMQPError :=
  match state d with
  | Some (Rejected e) => e
  | _ => None
  end.

(** How a promise ends for a disposition state: rejected with the error
    a rejected outcome carries, resolved with the state otherwise. *)
Definition outcomeOf (st : option DeliveryState) : Settlement :=
  match st with
  | Some (Rejected (Some e)) => RejectedWith (Carried e)
  | _ => Resolved st
  end.

(** Dispositions processed one after the other. *)
Fixpoint dispositionsReceived (ds : list Disposition) : M unit :=
  match ds with
  | [] => mret tt
  | d :: ds' => _dispositionReceived d;; dispositionsReceived ds'
  end.

End Model.

(** *** [DispositionFrame] ([lib/frames/disposition_frame.js]) *)

(** Link roles, [constants.linkRole]. *)
Inductive Role := RoleSender | RoleReceiver.

(** The options object given to the constructor; an absent property is
    [None]. *)
Record DispositionOptions := mkDispositionOptions {
  o_channel : option Z;
  o_role : option Role;
  o_first : option Z;
  o_last : option Z;
  o_settled : option bool;
  o_state : option (option DeliveryState);
  o_batchable : option bool
}.

Record DispositionFrame := mkDispositionFrame {
  df_channel : Z;
  df_role : Role;
  df_first : Z;
  df_last : Z;
  df_settled : bool;
  df_state : option DeliveryState;
  df_batchable : bool
}.

(** The constructor on a plain options object: [AMQPFrame] sets the
    channel ([channel || 0]), [u.assertArguments] demands [role] and
    [first], [u.defaults] fills what the options leave undefined
    ([lib/utilities.js] is not part of the sources). *)
Definition newDispositionFrame (options : DispositionOptions) : Completion DispositionFrame :=
  match o_role options, o_first options with
  | Some role, Some first_ =>
      Normal (mkDispositionFrame
                (default 0 (o_channel options))
                role first_
                (default 0 (o_last options))
                (default false (o_settled options))
                (default None (o_state options))
                (default false (o_batchable options)))
  | None, _ => Throw (mkJsError ArgumentError "role")
  | _, None => Throw (mkJsError ArgumentError "first")
  end.

(** The details a sender link sees for a received disposition frame. *)
Definition detailsOf (f : DispositionFrame) : Disposition :=
  mkDisposition (df_first f) (Some (df_last f)) (df_settled f) (df_state f).

End SenderLink.

(** ** Link ([lib/link.js]) and the methods of the sender link that call up to it *)

Module Link.
Import SenderLink.

(** The events of [linkSM]. *)
Inductive LinkEvent :=
| ev_sendAttach | ev_attachReceived | ev_sendDetach
| ev_detachReceived | ev_forceDetach | ev_detached.

(** What the callbacks of [_onAttach] are given as [err]. *)
Inductive AttachOutcome :=
| AttachOk                        (* null *)
| AttachError (e : AMQPError)     (* frame.error *)
| LinkClosed.                     (* 'link closed' *)

(** The fields of a detach frame that the link reads. *)
Record DetachInfo := mkDetachInfo {
  d_closed : bool;
  d_error : option AMQPError
}.

(** The fields of a flow frame that the sender link reads; a [null]
    handle is [None]. *)
Record FlowInfo := mkFlowInfo {
  f_handle : option Z;
  f_available : Z;
  f_deliveryCount : Z;
  f_linkCredit : Z
}.

(** The events of the link; errors are given as
    [errors.wrapProtocolError] is given them. *)
Inductive Event :=
| Attached
| Detached (closed : bool) (error : option AMQPError)
| ErrorReceived (e : AMQPError)
| CreditChange.

(** What the link needs from files that are not part of the sources:
    the attach frame made from [policy.attach]
    ([lib/frames/attach_frame.js]) and the timeouts of a reattach
    policy ([u.generateTimeouts]). *)
Class LinkEnv := {
  AttachPolicy : Type;
  AttachFrame : Type;
  newAttachFrame : AttachPolicy -> Completion AttachFrame;
  af_name : AttachFrame -> string;
  af_role : AttachFrame -> bool;
  initialDeliveryCountOf : AttachPolicy -> option Z;
  ReattachPolicy : Type;
  forever : ReattachPolicy -> bool;
  generateTimeouts : ReattachPolicy -> list Z
}.

Section Model.
Context `{!SenderEnv} `{!LinkEnv}.

(** What a call makes visible outside the link. *)
Inductive Effect :=
| Sender (e : SenderLink.Effect)          (* what the sender methods make visible *)
| Emit (ev : Event)                       (* this.emit(...) *)
| SendAttach (frame : AttachFrame) (channel : Z)
    (* this.session.connection.sendFrame(attachFrame) *)
| SendDetach (handle channel : Z) (closed : bool)
    (* this.session.connection.sendFrame(detachFrame) *)
| AttachCallback (callback : nat) (err : AttachOutcome) (withLink : bool)
    (* attachPromise(err, link) *)
| DetachPromise
    (* the promise of detach and its two listeners *)
| SetTimeout (ms : option Z).
    (* setTimeout(function() { self._attemptReattach(); }, ms) *)

(** A link that has been attached at least once: the fields of the
    sender link model and the ones [lib/link.js] adds. The table
    [session._linksByRemoteHandle] names a link by its handle. *)
Record Link := mkLink {
  sender : SenderLink;
  attachPolicy : AttachPolicy;                 (* policy.attach *)
  reattachPolicy : option ReattachPolicy;      (* policy.reattach *)
  remoteHandle : option Z;
  _linksByRemoteHandle : gmap Z Z;
  _onAttach : list nat;
  _timeouts : option (list Z);
  name : option string;
  role : option bool;
  totalCredits : Z;
  available : Z;
  drain : bool;
  deliveryCount : Z;
  initialDeliveryCount : option Z
}.

#[local] Abbreviation M := (Run Link Effect).

(** Field updates. *)
Definition with_sender (s : SenderLink) (l : Link) : Link :=
  mkLink s (attachPolicy l) (reattachPolicy l) (remoteHandle l) (_linksByRemoteHandle l)
    (_onAttach l) (_timeouts l) (name l) (role l) (totalCredits l) (available l)
    (drain l) (deliveryCount l) (initialDeliveryCount l).

Definition with_linkSM (st : LinkState) (l : Link) : Link :=
  let s := sender l in
  with_sender (mkSenderLink (session s) (handle s) st (callback s) (linkCredit s)
                 (_pendingSends s) (_unsettledSends s) (promiseCount s)) l.

Definition with_remoteHandle (h : option Z) (m : gmap Z Z) (l : Link) : Link :=
  mkLink (sender l) (attachPolicy l) (reattachPolicy l) h m
    (_onAttach l) (_timeouts l) (name l) (role l) (totalCredits l) (available l)
    (drain l) (deliveryCount l) (initialDeliveryCount l).

Definition with_onAttach (q : list nat) (l : Link) : Link :=
  mkLink (sender l) (attachPolicy l) (reattachPolicy l) (remoteHandle l)
    (_linksByRemoteHandle l) q (_timeouts l) (name l) (role l) (totalCredits l)
    (available l) (drain l) (deliveryCount l) (initialDeliveryCount l).

Definition with_timeouts (t : option (list Z)) (l : Link) : Link :=
  mkLink (sender l) (attachPolicy l) (reattachPolicy l) (remoteHandle l)
    (_linksByRemoteHandle l) (_onAttach l) t (name l) (role l) (totalCredits l)
    (available l) (drain l) (deliveryCount l) (initialDeliveryCount l).

(** A method of the sender link model, run on the link. *)
Definition liftSender {A} (m : Run SenderLink SenderLink.Effect A) : M A :=
  fun l =>
    match m (sender l) with
    | (r, s, eff) => (r, with_sender s l, Sender <$> eff)
    end.

(** [this.session.connection.sendFrame(frame)] *)
Definition sendFrame (frame : Effect) : M unit :=
  l ← get;
  match connection (session (sender l)) with
  | Some _ => emit [frame]
  | None => throw (mkJsError TypeErrorClass "Cannot read property 'sendFrame' of undefined")
  end.

(** [Link.prototype._sendDetach] *)
Definition _sendDetach : M unit :=
  l ← get;
  sendFrame (SendDetach (handle (sender l)) (channel (session (sender l))) true).

(** The transition table given to [StateMachine]. *)
Definition handler (st : LinkState) (ev : LinkEvent) : option (M unit * LinkState) :=
  match st, ev with
  | DETACHED, ev_sendAttach => Some (mret tt, ATTACHING)
  | ATTACHING, ev_attachReceived => Some (mret tt, ATTACHED)
  | ATTACHED, ev_sendDetach => Some (mret tt, DETACHING)
  | ATTACHED, ev_detachReceived => Some (_sendDetach, DETACHING)
  | ATTACHED, ev_forceDetach => Some (mret tt, DETACHED)
  | DETACHING, ev_detachReceived => Some (mret tt, DETACHED)
  | DETACHING, ev_detached => Some (mret tt, DETACHED)
  | _, _ => None
  end.

(** Firing an event on [linkSM]; the bound callback only writes to the
    debug log. *)
Definition fire (ev : LinkEvent) : M unit :=
  l ← get;
  match handler (linkSM (sender l)) ev with
  | None => mret tt
  | Some (action, next) => action;; modify (with_linkSM next)
  end.

(** [Link.prototype.attach] *)
Definition Link_attach : M unit :=
  fire ev_sendAttach;;
  l ← get;
  match newAttachFrame (attachPolicy l) with
  | Normal attachFrame =>
      modify (fun l =>
        let s := sender l in
        mkLink (mkSenderLink (session s) (handle s) (linkSM s) (callback s) 0
                  (_pendingSends s) (_unsettledSends s) (promiseCount s))
          (attachPolicy l) (reattachPolicy l) (remoteHandle l) (_linksByRemoteHandle l)
          (_onAttach l) (_timeouts l)
          (Some (af_name attachFrame)) (Some (af_role attachFrame)) 0 0 false
          (deliveryCount l) (initialDeliveryCount l));;
      l ← get;
      sendFrame (SendAttach attachFrame (channel (session (sender l))))
  | Throw e => throw e
  | Diverge => diverge
  | OutOfFuel => outOfFuel
  end.

(** [Link.prototype.detach] *)
Definition detach : M unit :=
  modify (with_timeouts None);;       (* Disable any re-attachment policy. *)
  emit [DetachPromise];;
  fire ev_sendDetach;;
  _sendDetach.

(** [Link.prototype.forceDetach] *)
Definition forceDetach : M unit := fire ev_forceDetach.

(** The loop of [_resolveAttachPromises], [n] iterations left. *)
Fixpoint resolveLoop (n : nat) (err : AttachOutcome) (withLink : bool) : M unit :=
  match n with
  | O => mret tt
  | S n' =>
      l ← get;
      match _onAttach l with
      | [] => mret tt
      | attachPromise :: rest =>
          modify (with_onAttach rest);;
          emit [AttachCallback attachPromise err withLink];;
          resolveLoop n' err withLink
      end
  end.

(** [Link.prototype._resolveAttachPromises] *)
Definition _resolveAttachPromises (err : AttachOutcome) (withLink : bool) : M unit :=
  l ← get;
  resolveLoop (length (_onAttach l)) err withLink.

(** [Link.prototype._checkCredit]: default implementation does nothing *)
Definition _checkCredit : M unit := mret tt.

(** [Link.prototype._attachReceived]; [remote] is [attachFrame.handle]. *)
Definition Link__attachReceived (remote : Z) : M unit :=
  fire ev_attachReceived;;
  (* process params. *)
  modify (fun l =>
    with_remoteHandle (Some remote)
      (<[remote := handle (sender l)]> (_linksByRemoteHandle l)) l);;
  emit [Emit Attached];;
  _resolveAttachPromises AttachOk true;;
  _checkCredit.

(** [Link.prototype.shouldReattach]; the session of a link of this
    model is always there. *)
Definition shouldReattach (l : Link) : Completion bool :=
  match _timeouts l with
  | None => Normal false
  | Some [] =>
      match reattachPolicy l with
      | Some policy => Normal (forever policy)
      | None =>
          Throw (mkJsError TypeErrorClass "Cannot read property 'forever' of undefined")
      end
  | Some _ => Normal true
  end.

(** [Link.prototype._detached]; an absent frame is [None]. *)
Definition Link__detached (frame : option DetachInfo) : M unit :=
  match frame with
  | Some (mkDetachInfo _ (Some e)) => emit [Emit (ErrorReceived e)]
  | _ => mret tt
  end;;
  l ← get;
  match remoteHandle l with
  | Some remote =>
      modify (fun l => with_remoteHandle None (delete remote (_linksByRemoteHandle l)) l)
  | None => mret tt
  end;;
  match frame with
  | None => throw (mkJsError TypeErrorClass "Cannot read property 'closed' of undefined")
  | Some info =>
      emit [Emit (Detached (d_closed info) (d_error info))];;
      _resolveAttachPromises
        (match d_error info with Some e => AttachError e | None => LinkClosed end) false;;
      l ← get;
      match shouldReattach l with
      | Normal true =>
          (match _timeouts l with
           | Some [] =>
               match reattachPolicy l with
               | Some policy => modify (with_timeouts (Some (generateTimeouts policy)))
               | None => mret tt
               end
           | _ => mret tt
           end);;
          l ← get;
          let timeouts := default [] (_timeouts l) in
          modify (with_timeouts (Some (tail timeouts)));;
          emit [SetTimeout (head timeouts)]
      | Normal false => mret tt
      | Throw e => throw e
      | Diverge => diverge
      | OutOfFuel => outOfFuel
      end
  end.

(** The timeouts [_detached] leaves and the timer it sets, read off the
    reattach policy. *)
Definition reattachment (l : Link) : option (list Z) * list Effect :=
  match _timeouts l with
  | None => (None, [])
  | Some (t :: ts) => (Some ts, [SetTimeout (Some t)])
  | Some [] =>
      match reattachPolicy l with
      | Some policy =>
          if forever policy
          then (Some (tail (generateTimeouts policy)),
                [SetTimeout (head (generateTimeouts policy))])
          else (Some [], [])
      | None => (Some [], [])
      end
  end.

(** [Link.prototype._detachReceived]; [_detached] is the method of that
    name of the object. *)
Definition _detachReceived (_detached : option DetachInfo -> M unit)
    (frame : option DetachInfo) : M unit :=
  fire ev_detachReceived;;
  l ← get;
  (if bool_decide (linkSM (sender l) = DETACHING) then fire ev_detached else mret tt);;
  _detached frame.

(** [Link.prototype._attemptReattach]; [attach] is the method of that
    name of the object. *)
Definition _attemptReattach (attach : M unit) : M unit := attach.

(** *** The methods of [lib/sender_link.js] that call up to the link *)

(** [SenderLink.prototype.attach] *)
Definition attach : M unit :=
  modify (fun l =>
    mkLink (sender l) (attachPolicy l) (reattachPolicy l) (remoteHandle l)
      (_linksByRemoteHandle l) (_onAttach l) (_timeouts l) (name l) (role l)
      (totalCredits l) (available l) (drain l) 0
      (initialDeliveryCountOf (attachPolicy l)));;
  (* call super method *)
  Link_attach.

(** [SenderLink.prototype._flowReceived] *)
Definition _flowReceived (flowFrame : FlowInfo) : M unit :=
  match f_handle flowFrame with
  | Some _ =>
      modify (fun l =>
        let s := sender l in
        mkLink (mkSenderLink (session s) (handle s) (linkSM s) (callback s)
                  (f_linkCredit flowFrame)
                  (_pendingSends s) (_unsettledSends s) (promiseCount s))
          (attachPolicy l) (reattachPolicy l) (remoteHandle l) (_linksByRemoteHandle l)
          (_onAttach l) (_timeouts l) (name l) (role l)
          (totalCredits l + f_linkCredit flowFrame) (f_available flowFrame) (drain l)
          (f_deliveryCount flowFrame) (initialDeliveryCount l))
  | None => mret tt
  end;;
  emit [Emit CreditChange];;
  liftSender (_dispatchPendingSends None).

(** [SenderLink.prototype._attachReceived] *)
Definition _attachReceived (remote : Z) : M unit :=
  Link__attachReceived remote;;
  liftSender (_dispatchPendingSends None).

(** [SenderLink.prototype._detached] *)
Definition _detached (frame : option DetachInfo) : M unit :=
  Link__detached frame;;
  (* has an error occurred? *)
  match frame with
  | Some (mkDetachInfo _ (Some e)) => liftSender (_dispatchPendingSends (Some e))
  | _ => mret tt
  end.

(** A message can be sent over the connection: its frames have room
    for payload beside the overhead and the delivery tag. *)
Definition fits (conn : ConnectionRef) (ps : PendingSend) : Prop :=
  0 < maxFrameSize conn
      - (FRAME_OVERHEAD
         + Z.of_nat (length (Buffer_from_string (pretty (ps_deliveryTag ps))))).

(** What reaches a sender link from its session and its owner. *)
Inductive Input :=
| CallAttach
| CallDetach
| CallForceDetach
| OnAttach (remote : Z)
| OnDetach (frame : DetachInfo)
| OnFlow (flowFrame : FlowInfo)
| OnReattachTimer.

(** The method an input calls on a sender link. *)
Definition react (i : Input) : M unit :=
  match i with
  | CallAttach => attach
  | CallDetach => detach
  | CallForceDetach => forceDetach
  | OnAttach remote => _attachReceived remote
  | OnDetach frame => _detachReceived _detached (Some frame)
  | OnFlow flowFrame => _flowReceived flowFrame
  | OnReattachTimer => _attemptReattach attach
  end.

(** The inputs one after the other; a throw ends the run. *)
Fixpoint reactAll (inputs : list Input) : M unit :=
  match inputs with
  | [] => mret tt
  | i :: rest => react i;; reactAll rest
  end.

End Model.

(** The delays of the timers that were set. *)
Definition timers {SE : SenderEnv} {LE : LinkEnv} (eff : list Effect) : list (option Z) :=
  omap (fun e => match e with SetTimeout ms => Some ms | _ => None end) eff.

(** What the methods of the sender link model made visible. *)
Definition senderEffects {SE : SenderEnv} {LE : LinkEnv} (eff : list Effect)
    : list SenderLink.Effect :=
  omap (fun e => match e with Sender e' => Some e' | _ => None end) eff.

(** The detach frames that were sent: handle, channel and [closed]. *)
Definition detachFrames {SE : SenderEnv} {LE : LinkEnv} (eff : list Effect)
    : list (Z * Z * bool) :=
  omap (fun e => match e with SendDetach h c closed => Some (h, c, closed) | _ => None end)
       eff.

End Link.

(** ** Connection ([lib/connection.js]) *)

Module Connection.

(** Modelled from the spec: [constants.amqpVersion] and
    [constants.saslVersion] ([lib/constants.js] is not part of the
    sources): the bytes "AMQP", the protocol id (0, or 3 for SASL), then
    major 1, minor 0, revision 0. *)
Definition amqpVersion : list byte := [x41; x4d; x51; x50; x00; x01; x00; x00]%byte.
Definition saslVersion : list byte := [x41; x4d; x51; x50; x03; x01; x00; x00]%byte.

(** Modelled from the spec: [constants.defaultMaxFrameSize] and
    [constants.minMaxFrameSize] ([lib/constants.js] is not part of the
    sources): DEFAULT_MAX_FRAME_SIZE = 4294967295 and
    MIN_MAX_FRAME_SIZE = 512. *)
Definition defaultMaxFrameSize : Z := 4294967295.
Definition minMaxFrameSize : Z := 512.

(** [buf.toString('hex')] *)
Definition hexDigit (n : N) : ascii :=
  match n with
  | 0 => "0" | 1 => "1" | 2 => "2" | 3 => "3" | 4 => "4" | 5 => "5" | 6 => "6"
  | 7 => "7" | 8 => "8" | 9 => "9" | 10 => "a" | 11 => "b" | 12 => "c"
  | 13 => "d" | 14 => "e" | _ => "f"
  end%N%char.

Fixpoint toHex (buf : list byte) : string :=
  match buf with
  | [] => EmptyString
  | b :: rest =>
      String (hexDigit (Byte.to_N b / 16)) (String (hexDigit (Byte.to_N b mod 16)) (toHex rest))
  end.

(** [u.bufferEquals] *)
Definition bufferEquals (a b : list byte) : bool := bool_decide (a = b).

(** The states of [connSM]. *)
Inductive ConnState :=
| DISCONNECTED | START | IN_SASL | HDR_RCVD | HDR_SENT | HDR_EXCH
| OPEN_RCVD | OPEN_SENT | OPENED | CLOSE_RCVD | CLOSE_SENT | DISCONNECTING.

#[global] Instance ConnState_eq_dec : EqDecision ConnState.
Proof. solve_decision. Defined.

(** The events of [connSM]. *)
Inductive SMEvent :=
| ev_connect | ev_connected | ev_headerReceived | ev_success
| ev_validVersion | ev_invalidVersion | ev_sendOpen | ev_openReceived
| ev_sendClose | ev_closeReceived | ev_invalidOptions | ev_disconnect
| ev_disconnected | ev_error | ev_terminated.

(** The frames the connection tells apart; of an open frame it reads the
    three negotiated fields and whether locales are present. *)
Record OpenFields := mkOpenFields {
  of_maxFrameSize : option Z;
  of_channelMax : option Z;
  of_idleTimeout : option Z;
  of_outgoingLocales : bool;
  of_incomingLocales : bool
}.

Inductive Frame :=
| OpenFrame (fields : OpenFields)
| CloseFrame (error : option AMQPError)
| HeartbeatFrame
| OtherFrame (descriptor : Z).

(** What is handed to the listeners of [Connection.ErrorReceived]. *)
Inductive ReceivedError :=
| Raised (e : JsError)                       (* new errors.VersionError(...) *)
| WrappedAMQPError (e : AMQPError)           (* errors.wrapProtocolError(frame.error) *)
| WrappedTransportError (description : string). (* errors.wrapProtocolError(err) *)

Inductive Event :=
| Connected
| Disconnected
| FrameReceived (f : Frame)
| ErrorReceived (e : ReceivedError).

Record Address := mkAddress { protocol : string; host : string; port : Z }.

(** The SASL driver ([lib/sasl.js]) is not part of the sources; the
    connection reads its [receivedHeader] flag and hands it the header. *)
Record Sasl := mkSasl { receivedHeader : bool }.

Inductive Effect :=
| Emit (e : Event)                               (* this.emit(...) *)
| Transition (event : SMEvent) (oldState newState : ConnState)
                                                 (* the callback bound to connSM *)
| TransportConnect (a : Address)                 (* transport.connect(address, sslOptions) *)
| TransportWrite (bytes : list byte)             (* transport.write(header) *)
| TransportEnd                                   (* transport.end() *)
| TransportDestroy                               (* transport.destroy() *)
| WriteFrame (f : Frame)                         (* frames.writeFrame(frame, transport) *)
| SaslNegotiate                                  (* sasl.negotiate(...) *)
| SaslHeaderReceived (bytes : list byte)         (* sasl.headerReceived(serverVersion) *)
| ConsoleWarn (msg : string)                     (* console.warn(e.message) *)
| SetInterval (ms : Z)                           (* the heartbeat timer *)
| ClearInterval.

(** What [FrameReader.read] did with the buffer. *)
Inductive ReadOutcome :=
| ReadFrame (f : Frame)
| ReadUndefined
| ReadThrows (e : JsError).

(** What the connection needs from files that are not part of the
    sources: the frame reader, the transport registry and two defaults
    of [lib/constants.js]. The reader returns its outcome and the buffer
    as it leaves it. *)
Class ConnEnv := {
  FrameReader_read : list byte -> ReadOutcome * list byte;
  getTransportFor : string -> bool;          (* is a transport registered for the protocol *)
  defaultChannelMax : Z;
  defaultIdleTimeout : Z
}.

Record Params := mkParams {
  maxFrameSize : Z;
  channelMax : Z;
  idleTimeout : Z
}.

Record Connection := mkConnection {
  connSM : ConnState;
  _transport : bool;               (* is [_transport] set *)
  connected : bool;
  _buffer : list byte;
  _heartbeatInterval : bool;       (* is [_heartbeatInterval] set *)
  _params : Params;
  _receivedHeader : bool;
  sasl : option Sasl;
  address : option Address;
  connectSasl : option Sasl        (* the [sasl] argument the 'connect' listener closes over *)
}.

(** The options of the connect policy the constructor reads. *)
Record ConnectOptions := mkConnectOptions {
  co_maxFrameSize : option Z;
  co_channelMax : option Z;
  co_idleTimeout : option Z
}.

Section Model.
Context `{!ConnEnv}.

#[local] Abbreviation M := (Run Connection Effect).

(** The constructor. *)
Definition newConnection (options : ConnectOptions) : Connection :=
  mkConnection DISCONNECTED false false [] false
    (mkParams (number_or (co_maxFrameSize options) defaultMaxFrameSize)
              (number_or (co_channelMax options) defaultChannelMax)
              (number_or (co_idleTimeout options) defaultIdleTimeout))
    false None None None.

Definition with_connSM (st : ConnState) (c : Connection) : Connection :=
  mkConnection st (_transport c) (connected c) (_buffer c) (_heartbeatInterval c)
    (_params c) (_receivedHeader c) (sasl c) (address c) (connectSasl c).

Definition with_buffer (b : list byte) (c : Connection) : Connection :=
  mkConnection (connSM c) (_transport c) (connected c) b (_heartbeatInterval c)
    (_params c) (_receivedHeader c) (sasl c) (address c) (connectSasl c).

Definition with_params (p : Params) (c : Connection) : Connection :=
  mkConnection (connSM c) (_transport c) (connected c) (_buffer c) (_heartbeatInterval c)
    p (_receivedHeader c) (sasl c) (address c) (connectSasl c).

Definition with_receivedHeader (b : bool) (c : Connection) : Connection :=
  mkConnection (connSM c) (_transport c) (connected c) (_buffer c) (_heartbeatInterval c)
    (_params c) b (sasl c) (address c) (connectSasl c).

Definition with_sasl (s : option Sasl) (c : Connection) : Connection :=
  mkConnection (connSM c) (_transport c) (connected c) (_buffer c) (_heartbeatInterval c)
    (_params c) (_receivedHeader c) s (address c) (connectSasl c).

Definition with_connected (b : bool) (c : Connection) : Connection :=
  mkConnection (connSM c) (_transport c) b (_buffer c) (_heartbeatInterval c)
    (_params c) (_receivedHeader c) (sasl c) (address c) (connectSasl c).

Definition with_heartbeatInterval (b : bool) (c : Connection) : Connection :=
  mkConnection (connSM c) (_transport c) (connected c) (_buffer c) b
    (_params c) (_receivedHeader c) (sasl c) (address c) (connectSasl c).

(** [Connection.prototype.sendHeader] *)
Definition sendHeader (header : option (list byte)) : M unit :=
  let header := default amqpVersion header in
  c ← get;
  if _transport c then emit [TransportWrite header]
  else throw (mkJsError TypeErrorClass "Cannot read property 'write' of null").

(** [Connection.prototype.sendFrame]; [frames.writeFrame] is not part of
    the sources and is taken to write to the transport it is given. *)
Definition sendFrame (frame : Frame) : M unit :=
  c ← get;
  if _transport c then emit [WriteFrame frame]
  else throw (mkJsError TypeErrorClass "Cannot read property 'write' of null").

(** [Connection.prototype._sendOpenFrame] *)
Definition _sendOpenFrame : M unit :=
  c ← get;
  sendFrame (OpenFrame (mkOpenFields (Some (maxFrameSize (_params c)))
                          (Some (channelMax (_params c)))
                          (Some (idleTimeout (_params c))) false false)).

(** [Connection.prototype._sendCloseFrame] *)
Definition _sendCloseFrame (err : option AMQPError) : M unit :=
  sendFrame (CloseFrame err).

(** [Connection.prototype._terminate] *)
Definition _terminate (hasError : bool) : M unit :=
  c ← get;
  (if _transport c then
     emit ([TransportEnd] ++ (if hasError then [TransportDestroy] else []));;
     modify (fun c =>
       mkConnection (connSM c) false (connected c) (_buffer c) (_heartbeatInterval c)
         (_params c) (_receivedHeader c) None None (connectSasl c))
   else mret tt);;
  c ← get;
  (if _heartbeatInterval c then
     emit [ClearInterval];; modify (with_heartbeatInterval false)
   else mret tt);;
  modify (with_connected false);;
  emit [Emit Disconnected].

(** [Connection.prototype._processError] *)
Definition _processError (description : string) : M unit :=
  emit [Emit (ErrorReceived (WrappedTransportError description))];;
  _terminate true.

(** [Connection.prototype._connect] *)
Definition _connect (a : Address) (s : option Sasl) : M unit :=
  if getTransportFor (protocol a) then
    modify (fun c =>
      mkConnection (connSM c) true (connected c) (_buffer c) (_heartbeatInterval c)
        (_params c) (_receivedHeader c) (sasl c) (Some a) s);;
    emit [TransportConnect a]
  else
    modify (fun c =>
      mkConnection (connSM c) false (connected c) (_buffer c) (_heartbeatInterval c)
        (_params c) (_receivedHeader c) (sasl c) (Some a) (connectSasl c));;
    throw (mkJsError JsErrorClass
      "Invalid protocol, no associated transport. Please use client.register(protocol, transport) to register a new transport.").

(** The arguments an event of the state machine is fired with. *)
Inductive EventArgs :=
| NoArgs
| ConnectArgs (a : Address) (s : option Sasl)
| ConnectedArgs (s : option Sasl)
| ErrorArgs (description : string).

(** The transition table given to [StateMachine]: the action of the
    handler of [ev] in state [st] and the state it returns, if the state
    has such a handler. *)
Definition handler (st : ConnState) (ev : SMEvent) (args : EventArgs)
    : option (M unit * ConnState) :=
  match st, ev with
  | DISCONNECTED, ev_connect =>
      match args with
      | ConnectArgs a s => Some (_connect a s, START)
      | _ => None
      end
  | DISCONNECTED, _ => None
  | _, ev_error =>
      Some (_processError (match args with ErrorArgs d => d | _ => "" end), DISCONNECTED)
  | _, ev_terminated => Some (_terminate false, DISCONNECTED)
  | START, ev_connected =>
      match args with
      | ConnectedArgs (Some s) =>
          Some (modify (with_sasl (Some s));; emit [SaslNegotiate], IN_SASL)
      | _ => Some (sendHeader None, HDR_SENT)
      end
  | START, ev_headerReceived => Some (mret tt, HDR_RCVD)
  | IN_SASL, ev_success => Some (sendHeader None, HDR_SENT)
  | HDR_RCVD, ev_validVersion => Some (sendHeader None, HDR_EXCH)
  | HDR_RCVD, ev_invalidVersion => Some (_terminate false, DISCONNECTING)
  | HDR_SENT, ev_validVersion => Some (mret tt, HDR_EXCH)
  | HDR_SENT, ev_invalidVersion => Some (_terminate false, DISCONNECTING)
  | HDR_EXCH, ev_sendOpen => Some (_sendOpenFrame, OPEN_SENT)
  | HDR_EXCH, ev_openReceived => Some (mret tt, OPEN_RCVD)
  | OPEN_RCVD, ev_sendOpen => Some (_sendOpenFrame, OPENED)
  | OPEN_SENT, ev_openReceived => Some (mret tt, OPENED)
  | OPEN_SENT, ev_sendClose => Some (_terminate false, DISCONNECTED)
  | OPENED, ev_closeReceived => Some (mret tt, CLOSE_RCVD)
  | OPENED, ev_invalidOptions =>
      Some (_sendCloseFrame
              (Some (mkAMQPError "amqp:connection:forced" (Some "Invalid options"))),
            CLOSE_SENT)
  | OPENED, ev_sendClose => Some (_sendCloseFrame None, CLOSE_SENT)
  | CLOSE_RCVD, ev_sendClose =>
      Some (_sendCloseFrame None;; _terminate false, DISCONNECTED)
  | CLOSE_SENT, ev_closeReceived => Some (_terminate false, DISCONNECTED)
  | CLOSE_SENT, ev_disconnect => Some (mret tt, DISCONNECTED)
  | DISCONNECTING, ev_disconnected => Some (mret tt, DISCONNECTED)
  | _, _ => None
  end.

(** Firing an event on [connSM]: the handler of the current state runs,
    then the machine moves to the state it returned and tells the bound
    callback; a state without a handler for the event ignores it. *)
Definition fire (ev : SMEvent) (args : EventArgs) : M unit :=
  c ← get;
  match handler (connSM c) ev args with
  | None => mret tt
  | Some (action, next) =>
      action;;
      modify (with_connSM next);;
      emit [Transition ev (connSM c) next]
  end.

(** [Connection.prototype.open] *)
Definition open (a : Address) (s : option Sasl) : M unit :=
  fire ev_connect (ConnectArgs a s).

(** [Connection.prototype.close] *)
Definition close : M unit := fire ev_sendClose NoArgs.

(** [Connection.prototype._tryReceiveHeader] *)
Definition _tryReceiveHeader (header : option (list byte)) : M bool :=
  let header := default amqpVersion header in
  c ← get;
  if (length header <=? length (_buffer c))%nat then
    let serverVersion := Buffer_slice (_buffer c) 0 8 in
    modify (fun c => with_buffer (drop 8 (_buffer c)) c);;
    match sasl c with
    | Some s =>
        emit [SaslHeaderReceived serverVersion];;
        modify (with_sasl (Some (mkSasl true)))
    | None =>
        (if bool_decide (connSM c = START) then fire ev_headerReceived NoArgs
         else mret tt);;
        (if bufferEquals serverVersion amqpVersion then
           fire ev_validVersion NoArgs;;
           fire ev_sendOpen NoArgs
         else
           let msg :=
             if bufferEquals serverVersion saslVersion
             then "Credentials Expected - SASL version received: "
             else "Invalid AMQP version received: " in
           emit [Emit (ErrorReceived
                   (Raised (mkJsError VersionError (msg +:+ toHex serverVersion))))];;
           fire ev_invalidVersion NoArgs);;
        modify (with_receivedHeader true)
    end;;
    mret true
  else mret false.

(** [Connection.prototype._tryReceiveFrame]: [undefined] is [None]. *)
Definition _tryReceiveFrame : M (option Frame) :=
  c ← get;
  match FrameReader_read (_buffer c) with
  | (ReadFrame f, rest) => modify (with_buffer rest);; mret (Some f)
  | (ReadUndefined, rest) => modify (with_buffer rest);; mret None
  | (ReadThrows e, rest) =>
      modify (with_buffer rest);;
      emit [ConsoleWarn (message e)];;
      mret None
  end.

(** [Connection.prototype._ensureLocaleCompatibility] *)
Definition _ensureLocaleCompatibility : bool := true.

(** [Connection.prototype._processOpenFrame]; [receiveAny] is the call
    [this._receiveAny()] at its end. *)
Definition _processOpenFrame (receiveAny : M unit) (frame : OpenFields) : M unit :=
  fire ev_openReceived NoArgs;;
  c ← get;
  (if bool_decide (connSM c = OPEN_RCVD) then fire ev_sendOpen NoArgs else mret tt);;
  let valid := true in
  modify (fun c => with_params
    (mkParams
       (Z.min (maxFrameSize (_params c))
              (number_or (of_maxFrameSize frame) defaultMaxFrameSize))
       (channelMax (_params c)) (idleTimeout (_params c))) c);;
  modify (fun c => with_params
    (mkParams
       (Z.max (maxFrameSize (_params c)) minMaxFrameSize)
       (channelMax (_params c)) (idleTimeout (_params c))) c);;
  modify (fun c => with_params
    (mkParams (maxFrameSize (_params c))
       (Z.min (channelMax (_params c))
              (number_or (of_channelMax frame) defaultChannelMax))
       (idleTimeout (_params c))) c);;
  modify (fun c => with_params
    (mkParams (maxFrameSize (_params c)) (channelMax (_params c))
       (Z.min (idleTimeout (_params c))
              (number_or (of_idleTimeout frame) defaultIdleTimeout))) c);;
  let valid :=
    if of_outgoingLocales frame then valid && _ensureLocaleCompatibility else valid in
  let valid :=
    if of_incomingLocales frame then valid && _ensureLocaleCompatibility else valid in
  if negb valid then fire ev_invalidOptions NoArgs
  else
    (* We're connected. *)
    modify (with_connected true);;
    c ← get;
    emit [SetInterval (idleTimeout (_params c) / 8)];;
    modify (with_heartbeatInterval true);;
    emit [Emit Connected];;
    c ← get;
    if bool_decide (_buffer c = []) then mret tt else receiveAny.

(** [Connection.prototype._processCloseFrame] *)
Definition _processCloseFrame (error : option AMQPError) : M unit :=
  fire ev_closeReceived NoArgs;;
  fire ev_sendClose NoArgs;;
  match error with
  | Some e => emit [Emit (ErrorReceived (WrappedAMQPError e))]
  | None => mret tt
  end.

(** [Connection.prototype._receiveAny]: at most [fuel] iterations of the
    loop, the nested calls included. *)
Fixpoint _receiveAny (fuel : nat) : M unit :=
  match fuel with
  | O => outOfFuel
  | S fuel' =>
      c ← get;
      more ←
        match sasl c with
        | Some s =>
            if negb (receivedHeader s) then _tryReceiveHeader (Some saslVersion)
            else
              frame ← _tryReceiveFrame;
              match frame with
              | Some f => emit [Emit (FrameReceived f)];; mret true
              | None => mret false
              end
        | None =>
            if negb (_receivedHeader c) then _tryReceiveHeader None
            else
              frame ← _tryReceiveFrame;
              match frame with
              | Some (OpenFrame fields) =>
                  _processOpenFrame (_receiveAny fuel') fields;; mret true
              | Some (CloseFrame error) => _processCloseFrame error;; mret false
              | Some f => emit [Emit (FrameReceived f)];; mret true
              | None => mret false
              end
        end;
      if more : bool then _receiveAny fuel' else mret tt
  end.

(** [Connection.prototype._receiveData] *)
Definition _receiveData (fuel : nat) (buffer : list byte) : M unit :=
  modify (fun c => with_buffer (_buffer c ++ buffer) c);;
  _receiveAny fuel.

(** [Connection.prototype._saslComplete] *)
Definition _saslComplete (err : option string) : M unit :=
  modify (with_sasl None);;
  match err with
  | Some description => fire ev_error (ErrorArgs description)
  | None => fire ev_success NoArgs
  end.

(** What reaches the connection from outside: the calls of its owner,
    the events of the transport, to which [_connect] subscribes, and the
    callback given to the SASL driver. *)
Inductive Input :=
| CallOpen (a : Address) (s : option Sasl)
| CallClose
| OnConnect
| OnData (buffer : list byte)
| OnError (description : string)
| OnEnd
| OnSaslComplete (err : option string).

Definition react (fuel : nat) (i : Input) : M unit :=
  match i with
  | CallOpen a s => open a s
  | CallClose => close
  | OnConnect => c ← get; fire ev_connected (ConnectedArgs (connectSasl c))
  | OnData buffer => _receiveData fuel buffer
  | OnError description => fire ev_error (ErrorArgs description)
  | OnEnd => fire ev_terminated NoArgs
  | OnSaslComplete err => _saslComplete err
  end.

Fixpoint reactAll (fuel : nat) (inputs : list Input) : M unit :=
  match inputs with
  | [] => mret tt
  | i :: rest => react fuel i;; reactAll fuel rest
  end.

End Model.

(** The header exchange is over for the loop of [_receiveAny]: frames
    are read next. *)
Definition headerDone (c : Connection) : bool :=
  match sasl c with
  | Some s => receivedHeader s
  | None => _receivedHeader c
  end.

(** The connection is being torn down or is down. *)
Definition closing (c : Connection) : Prop :=
  connSM c = DISCONNECTING \/ connSM c = DISCONNECTED.

(** An input other than a call of [open]. *)
Definition notOpen (i : Input) : Prop :=
  match i with
  | CallOpen _ _ => False
  | _ => True
  end.

(** The states the bound callback has seen, after [DISCONNECTED]. *)
Definition stateTrace (eff : list Effect) : list ConnState :=
  omap (fun e => match e with Transition _ _ new => Some new | _ => None end) eff.

Definition emitted (eff : list Effect) : list Event :=
  omap (fun e => match e with Emit ev => Some ev | _ => None end) eff.

Definition errorsReceived (eff : list Effect) : list ReceivedError :=
  omap (fun e => match e with Emit (ErrorReceived r) => Some r | _ => None end) eff.

(** A transition of the state machine is one to DISCONNECTED. *)
Definition goesDown (e : Effect) : Prop :=
  match e with
  | Transition _ _ new => new = DISCONNECTED
  | _ => True
  end.

(** *** Writing needs the transport *)

(** The connection has its transport in every state in which it may
    have to write. *)
Definition wired (c : Connection) : Prop :=
  connSM c = DISCONNECTED \/ connSM c = DISCONNECTING \/ _transport c = true.

(** A method keeps the connection wired and does not end in a
    [TypeError]. *)
Definition safe {A} (m : Run Connection Effect A) : Prop :=
  forall c, wired c -> wired (after (m c)) /\ ~ throwsTypeError (completion (m c)).

Section Reachable.
Context `{!ConnEnv}.

(** The connections that a new one can become: whatever reaches it, the
    calls that end in a throw included. *)
Inductive reachable : Connection -> Prop :=
| reachable_new (options : ConnectOptions) : reachable (newConnection options)
| reachable_react (c : Connection) (fuel : nat) (i : Input) :
    reachable c -> reachable (after (react fuel i c)).

End Reachable.

(** What the loop of [_receiveAny] makes visible while SASL is
    negotiated: frames and the header handed to the SASL driver, and
    the warning for a frame that could not be read. *)
Definition saslTraffic (e : Effect) : Prop :=
  match e with
  | Emit (FrameReceived _) | SaslHeaderReceived _ | ConsoleWarn _ => True
  | _ => False
  end.

(** *** The table of sessions *)

Section Sessions.
Context {Session : Type}.

(** The connection with its table [_sessions] of the sessions under
    their channels. An entry that was set to [undefined] is there with
    [None]. *)
Record Endpoint := mkEndpoint {
  conn : Connection;
  _sessions : gmap Z (option Session)
}.

(** [this._sessions[cid]]; [undefined] is [None]. *)
Definition sessionAt (e : Endpoint) (cid : Z) : option Session :=
  mjoin (_sessions e !! cid).

(** The loop of [_nextChannel] from [cid] on, [n] iterations left. *)
Fixpoint nextChannelLoop (n : nat) (cid : Z) (e : Endpoint) : option Z :=
  match n with
  | O => None
  | S n' =>
      match sessionAt e cid with
      | None => Some cid
      | Some _ => nextChannelLoop n' (cid + 1) e
      end
  end.

(** [Connection.prototype._nextChannel] *)
Definition _nextChannel : Run Endpoint Effect Z :=
  e ← get;
  let channelMax := channelMax (_params (conn e)) in
  match nextChannelLoop (Z.to_nat channelMax) 1 e with
  | Some cid => mret cid
  | None =>
      throw (mkJsError OverCapacityError
               ("Out of available " +:+ pretty channelMax +:+ " channels"))
  end.

(** [Connection.prototype.associateSession] *)
Definition associateSession (session : Session) : Run Endpoint Effect Z :=
  channel ← _nextChannel;
  modify (fun e => mkEndpoint (conn e) (<[channel := Some session]> (_sessions e)));;
  mret channel.

(** [Connection.prototype.dissociateSession] *)
Definition dissociateSession (channel : Z) : Run Endpoint Effect unit :=
  modify (fun e => mkEndpoint (conn e) (<[channel := None]> (_sessions e))).

End Sessions.
Arguments Endpoint : clear implicits.

End Connection.

(** ** Codec ([lib/codec.js]): the choice of the encoder *)

Module Codec.

(** A JavaScript number: a finite value (every double is a rational),
    [NaN] or an infinity. *)
Inductive JsNumber :=
| Finite (q : Q)
| NaN
| PosInfinity
| NegInfinity.

(** The values [encode] tells apart. An object is classified by the
    first test of [_encodeObject] it passes. *)
Inductive JsValue :=
| VNull
| VUndefined
| VBoolean (b : bool)
| VString (s : string)
| VNumber (n : JsNumber)
| VFunction (result : JsValue)                (* a function and what a call of it returns *)
| VObject (o : JsObject)
with JsObject :=
| ODescribedType (descriptor : JsValue) (value : JsValue)   (* value: getValue() *)
| OEncodeOrdering (fields : list (string * JsValue))
    (* the names of encodeOrdering with the values stored under them *)
| OBuffer (bytes : list byte)
| OAMQPArray (elements : list JsValue)
| OArray (elements : list JsValue)
| ODate (time : Z)
| OForcedType (typeName : string) (value : JsValue)
| OAMQPSymbol (contents : string)
| OInt64 (n : Z)
| OEncodable (tag : string)                    (* an object with an encode method *)
| OMap (entries : list (string * JsValue)).

(** What [encode] does to the buffer builder. The encoders of
    [lib/types.js] are not part of the sources: a call of one is kept
    as the name of the encoder and the value given to it. *)
Inductive Action :=
| AppendUInt8 (b : Z)                          (* buffer.appendUInt8(b) *)
| TypesEncode (typeName : string) (value : JsValue)
                                               (* types[typeName].encode(value, buffer, ...) *)
| MethodEncode (o : JsObject).                 (* value.encode(this, buffer) *)

(** What the codec needs from files that are not part of the sources:
    which names the table [types] of [lib/types.js] has, and the text
    [JSON.stringify] gives for an object. *)
Class TypesEnv := {
  types_hasOwnProperty : string -> bool;
  JSON_stringify : JsObject -> string
}.

(** [!!v] *)
Definition truthy (v : JsValue) : bool :=
  match v with
  | VNull | VUndefined => false
  | VBoolean b => b
  | VString s => negb (bool_decide (s = ""))
  | VNumber (Finite q) => negb (Qnum q =? 0)
  | VNumber NaN => false
  | VNumber _ => true
  | VFunction _ | VObject _ => true
  end.

(** [value % 1 === 0] *)
Definition isWhole (n : JsNumber) : bool :=
  match n with
  | Finite q => Qnum q mod Zpos (Qden q) =? 0
  | _ => false
  end.

(** [Math.abs(value) < bound] *)
Definition absBelow (n : JsNumber) (bound : Z) : bool :=
  match n with
  | Finite q => Z.abs (Qnum q) <? bound * Zpos (Qden q)
  | NaN | PosInfinity | NegInfinity => false
  end.

(** No type is forced: the argument is absent or the empty string. *)
Definition unforced (forceType : option string) : Prop :=
  forceType = None \/ forceType = Some "".

(** [value < 0] for an [Int64] *)
Definition negative (n : Z) : bool := n <? 0.

Section Model.
Context `{!TypesEnv}.

(** The first undefined field of an encode ordering, if any. *)
Fixpoint firstUndefined (fields : list (string * JsValue)) : option string :=
  match fields with
  | [] => None
  | (name, VUndefined) :: _ => Some name
  | _ :: rest => firstUndefined rest
  end.

(** [Codec.prototype.encode] and [Codec.prototype._encodeObject]. An
    absent [forceType] is [None]. *)
Fixpoint encode (value : JsValue) (forceType : option string) {struct value}
    : Completion unit * list Action :=
  (* switch (typeof value) *)
  let byType :=
    match value with
    | VBoolean _ => (Normal tt, [TypesEncode "boolean" value])
    | VString _ => (Normal tt, [TypesEncode "string" value])
    | VFunction result => encode result forceType
    | VObject o => _encodeObject o
    | VNumber n =>
        let typeName :=
          if isWhole n then (if absBelow n 2147483647 then "int" else "long")
          else "double" in
        if negb (types_hasOwnProperty typeName) then
          (Throw (mkJsError NotImplementedError ("encode(" +:+ typeName +:+ ")")), [])
        else (Normal tt, [TypesEncode typeName value])
    | VUndefined => (Throw (mkJsError NotImplementedError "encode(undefined)"), [])
    | VNull => (Normal tt, [TypesEncode "null" VNull])   (* handled before the switch *)
    end in
  match value with
  | VNull =>
      (* Special-case null values *)
      (Normal tt, [TypesEncode "null" VNull])
  | _ =>
      match forceType with
      | Some t =>
          if negb (bool_decide (t = "")) then
            if negb (types_hasOwnProperty t) then (Throw (mkJsError EncodingError t), [])
            else (Normal tt, [TypesEncode t value])
          else byType
      | None => byType
      end
  end
with _encodeObject (o : JsObject) {struct o} : Completion unit * list Action :=
  match o with
  | ODescribedType descriptor value =>
      let descriptorEncoder :=
        match descriptor with VNumber _ => "ulong" | _ => "symbol" end in
      let '(r, acts) :=
        if truthy value then encode value None
        else (Normal tt, [TypesEncode "list" (VObject (OArray []))]) in
      (r, AppendUInt8 0 :: TypesEncode descriptorEncoder descriptor :: acts)
  | OEncodeOrdering fields =>
      match firstUndefined fields with
      | Some name =>
          (Throw (mkJsError EncodingError
             ("Encoding map as list failed, encodeOrdering[" +:+ name +:+
              "] field not found or set as undefined in map: " +:+ JSON_stringify o)), [])
      | None => (Normal tt, [TypesEncode "list" (VObject (OArray (snd <$> fields)))])
      end
  | OBuffer _ => (Normal tt, [TypesEncode "binary" (VObject o)])
  | OAMQPArray _ => (Normal tt, [TypesEncode "array" (VObject o)])
  | OArray _ => (Normal tt, [TypesEncode "list" (VObject o)])
  | ODate time => (Normal tt, [TypesEncode "timestamp" (VObject (OInt64 time))])
  | OForcedType typeName value => encode value (Some typeName)
  | OAMQPSymbol contents => (Normal tt, [TypesEncode "symbol" (VString contents)])
  | OInt64 n =>
      (Normal tt, [TypesEncode (if negative n then "long" else "ulong") (VObject o)])
  | OEncodable _ => (Normal tt, [MethodEncode o])
  | OMap _ => (Normal tt, [TypesEncode "map" (VObject o)])
  end.

End Model.

(** Modelled from the spec: the names of the table [types] of
    [lib/types.js], which is not part of the sources: the primitive
    categories of the type system. *)
Definition typeNames : list string :=
  ["null"; "boolean"; "ubyte"; "ushort"; "uint"; "ulong"; "byte"; "short";
   "int"; "long"; "float"; "double"; "decimal32"; "decimal64"; "decimal128";
   "char"; "timestamp"; "uuid"; "binary"; "string"; "symbol"; "list"; "map";
   "array"].

Definition specTypes : TypesEnv :=
  {| types_hasOwnProperty := fun name => bool_decide (name ∈ typeNames);
     JSON_stringify := fun _ => "{}" |}.

(** *** Reading a value ([_readFullValue]) and decoding it ([decode])

    Offsets are not negative (a negative one would count from the end
    of the buffer in [Buffer.slice]); an absent offset, [undefined] or
    [NaN], is [None]. *)

(** A call that does not change an object: a thrown error ends what
    follows it. *)
#[export] Instance Completion_ret : MRet Completion := fun A a => Normal a.

#[export] Instance Completion_bind : MBind Completion := fun A B k m =>
  match m with
  | Normal a => k a
  | Throw e => Throw e
  | Diverge => Diverge
  | OutOfFuel => OutOfFuel
  end.

(** [Codec.prototype._peek] *)
Definition _peek (buf : list byte) (offset numBytes : Z) : list byte :=
  Buffer_slice buf offset (offset + numBytes).

(** [Codec.prototype._read]: on a [Buffer] reading is slicing, as
    peeking is. *)
Definition _read (buf : list byte) (offset numBytes : Z) : list byte :=
  Buffer_slice buf offset (offset + numBytes).

(** The first component of what [_readFullValue] returns: the bytes of
    a value, the pair of the components of a described value, or
    [undefined] ([x[0]] for an [x] that is [false]). *)
Inductive ValueBytes :=
| Bytes (b : list byte)
| DescribedBytes (descriptor value : ValueBytes)
| NoBytes.

(** What [_readFullValue] returns: [undefined], [false], or the pair of
    the bytes and their number ([None] where the number is [NaN]). *)
Inductive FullValue :=
| FullUndefined
| FullFalse
| Full (bytes : ValueBytes) (numBytes : option Z).

(** [v[0]] *)
Definition bytesOf (v : FullValue) : ValueBytes :=
  match v with
  | Full bytes _ => bytes
  | _ => NoBytes
  end.

(** [v[1]]; [false[1]] is [undefined]: no number. *)
Definition numBytesOf (v : FullValue) : option Z :=
  match v with
  | Full _ numBytes => numBytes
  | _ => None
  end.

(** [Codec.prototype._readOrPeekFixed]; [remaining >= NaN] is false. *)
Definition _readOrPeekFixed (buf : list byte) (offset remaining : Z)
    (doNotConsume : bool) (numBytes : option Z) : FullValue :=
  let reader := if doNotConsume then _peek else _read in
  match numBytes with
  | Some n =>
      if n <=? remaining then Full (Bytes (reader buf offset n)) (Some n)
      else FullUndefined
  | None => FullUndefined
  end.

(** The cases of [switch (codePrefix)]: a fixed number of bytes (the
    code included), a length of one byte, a length of four bytes, and
    [default]. *)
Inductive CodeClass :=
| FixedWidth (numBytes : Z)
| Variable1
| Variable4
| UnknownPrefix.

Definition classify (codePrefix : Z) : CodeClass :=
  match codePrefix with
  | 0x40 => FixedWidth 1
  | 0x50 => FixedWidth 2
  | 0x60 => FixedWidth 3
  | 0x70 => FixedWidth 5
  | 0x80 => FixedWidth 9
  | 0x90 => FixedWidth 17
  | 0xA0 | 0xC0 | 0xE0 => Variable1
  | 0xB0 | 0xD0 | 0xF0 => Variable4
  | _ => UnknownPrefix
  end.

Section Reading.
Context `{!ErrorsEnv}.

(** [Codec.prototype._readFullValue] on a [Buffer]. [fuel] bounds the
    depth of the recursion on described values. An absent [forcedCode]
    is [None]. *)
Fixpoint _readFullValue (fuel : nat) (buf : list byte) (offset : option Z)
    (doNotConsume : bool) (forcedCode : option Z) : Completion FullValue :=
  match fuel with
  | O => OutOfFuel
  | S fuel' =>
      let offset := number_or offset 0 in
      let remaining := Z.of_nat (length buf) - offset in
      if remaining <? 1 then Normal FullUndefined
      else
        let code :=
          match forcedCode with
          | Some c => Some c
          | None => Buffer_at (_peek buf offset 1) 0
          end in
        let codeBytes := match forcedCode with Some _ => 0 | None => 1 end in
        if bool_decide (code = Some 0x00) then
          val1 ← _readFullValue fuel' buf (Some (offset + codeBytes)) true None;
          match val1 with
          | FullUndefined => Normal FullUndefined
          | _ =>
              val2 ← _readFullValue fuel' buf
                       ((fun n => offset + codeBytes + n) <$> numBytesOf val1) true None;
              match val2 with
              | FullUndefined => Normal FullUndefined
              | _ =>
                  let totalBytes :=
                    n1 ← numBytesOf val1; n2 ← numBytesOf val2; Some (n1 + n2 + codeBytes) in
                  Normal (Full (DescribedBytes (bytesOf val1) (bytesOf val2)) totalBytes)
              end
          end
        else
          let codePrefix := match code with Some c => Z.land c 0xF0 | None => 0 end in
          match classify codePrefix with
          | FixedWidth numBytes =>
              Normal (_readOrPeekFixed buf offset remaining doNotConsume (Some numBytes))
          | Variable1 =>
              if remaining <? 2 then Normal FullUndefined
              else
                let codeAndLength := _peek buf offset (codeBytes + 1) in
                let numBytes :=
                  (fun size => size + 1 + codeBytes) <$> Buffer_at codeAndLength codeBytes in
                Normal (_readOrPeekFixed buf offset remaining doNotConsume numBytes)
          | Variable4 =>
              if remaining <? 5 then Normal FullFalse
              else
                let codeAndLength := _peek buf offset (codeBytes + 4) in
                match Buffer_readUInt32BE codeAndLength codeBytes with
                | Some size =>
                    Normal (_readOrPeekFixed buf offset remaining doNotConsume
                              (Some (size + 4 + codeBytes)))
                | None => Throw (mkJsError JsErrorClass "RangeError: Index out of range")
                end
          | UnknownPrefix =>
              Throw (newError MalformedPayloadError
                       ("Unknown code prefix: 0x" +:+ Number_toString16 codePrefix))
          end
  end.

End Reading.

(** The bytes that stand on the wire for what was read: a described
    value is the constructor 0x00, its descriptor and its value. *)
Fixpoint wire (v : ValueBytes) : list byte :=
  match v with
  | Bytes b => b
  | DescribedBytes descriptor value => x00 :: wire descriptor ++ wire value
  | NoBytes => []
  end.

(** What decoding needs from files that are not part of the sources:
    the decoders of the table [types] of [lib/types.js] under their
    codes, the constructor of [lib/types/described_type.js] and the
    converter of [lib/types/known_type_converter.js]. A decoder is given
    the bytes of the value ([None] for [undefined]). *)
Class DecodeEnv := {
  Decoded : Type;
  types_decode : Z -> option (option (list byte) -> Completion Decoded);
  newDescribedType : Decoded -> Decoded -> Decoded;
  knownTypes : Decoded -> option Decoded      (* a falsy answer: None *)
}.

Section Decoding.
Context `{!ErrorsEnv} `{!DecodeEnv}.

(** [forcedCode || ...]: the code, unless it is absent or 0. *)
Definition forced (forcedCode : option Z) : option Z :=
  match forcedCode with
  | Some c => if c =? 0 then None else Some c
  | None => None
  end.

(** [Codec.prototype._asMostSpecific] *)
Fixpoint _asMostSpecific (buf : ValueBytes) (forcedCode : option Z)
    : Completion Decoded :=
  match buf with
  | DescribedBytes buf0 buf1 =>
      (* Described type *)
      descriptor ← _asMostSpecific buf0 None;
      value ← _asMostSpecific buf1 None;
      let describedType := newDescribedType descriptor value in
      let asKnownType := knownTypes describedType in
      Normal (default describedType asKnownType)
  | _ =>
      code ←
        match forced forcedCode, buf with
        | Some c, _ => Normal (Some c)
        | None, Bytes b => Normal (Buffer_at b 0)
        | None, _ =>
            Throw (mkJsError TypeErrorClass "Cannot read property '0' of undefined")
        end;
      match code with
      | None =>
          Throw (mkJsError TypeErrorClass "Cannot read property 'toString' of undefined")
      | Some code =>
          match types_decode code with
          | None =>
              Throw (newError MalformedPayloadError
                       ("Unknown code: 0x" +:+ Number_toString16 code))
          | Some decoder =>
              let valBytes :=
                match buf with
                | Bytes b =>
                    Some (match forced forcedCode with
                          | Some _ => b
                          | None => Buffer_slice b 1 (Z.of_nat (length b))
                          end)
                | _ => None
                end in
              decoder valBytes
          end
      end
  end.

(** [Codec.prototype.decode]: [undefined] is [None]; the number of
    bytes is [None] where it is [NaN]. *)
Definition decode (fuel : nat) (buf : list byte) (offset forcedCode : option Z)
    : Completion (option (Decoded * option Z)) :=
  let offset := number_or offset 0 in
  let forcedCode := forced forcedCode in
  fullBuf ← _readFullValue fuel buf (Some offset) false forcedCode;
  match fullBuf with
  | Full bufVal numBytes =>
      value ← _asMostSpecific bufVal forcedCode;
      Normal (Some (value, numBytes))
  | _ => Normal None
  end.

End Decoding.

End Codec.

(** ** Fixtures

    The values of the unit tests ([test/unit/test_client.js],
    [test/unit/test_connection.js]) and a few more for the examples. *)

Module Fixtures.

(** Messages are their own encoding here. The value of
    [TransferFrame.FRAME_OVERHEAD] is not in the sources; 29 is taken
    for the examples. *)
Definition testEnv : SenderLink.SenderEnv :=
  {| SenderLink.JsMsg := list byte;
     SenderLink.SendOptions := unit;
     SenderLink.Message := list byte;
     SenderLink.buildMessage := fun msg _ => msg;
     SenderLink.codec_encode := fun m => m;
     SenderLink.FRAME_OVERHEAD := 29;
     SenderLink.constants_senderSettleMode_settled := 1 |}.

(** "should send multi-frame messages": frame size 512, session window
    100000, link credit 500, first delivery id and tag 1. *)
Definition testLink : @SenderLink.SenderLink testEnv :=
  SenderLink.mkSenderLink
    (SenderLink.mkSession (Some (SenderLink.mkConnectionRef 512)) 1 true
       (SenderLink.mkSessionParams 1 100000 2147483647 None) 1)
    0 SenderLink.ATTACHED SenderLink.OnSettle 500 [] ∅ 0%nat.

(** The delivery tag of the first send of a session. *)
Definition tag1 : list byte := Buffer_from_string "1".

(** A message of 2055 bytes, the size of an encoded body of 2047
    characters. *)
Definition longMessage : list byte := repeat "0"%byte 2055%nat.

Definition shortMessage : list byte := repeat "0"%byte 10%nat.

(** A link with one credit whose session window is used up, with and
    without session flow control. *)
Definition exhaustedLink (enableSessionFlowControl : bool) : @SenderLink.SenderLink testEnv :=
  SenderLink.mkSenderLink
    (SenderLink.mkSession (Some (SenderLink.mkConnectionRef 512)) 1
       enableSessionFlowControl
       (SenderLink.mkSessionParams 1 0 2147483647 None) 1)
    0 SenderLink.ATTACHED SenderLink.OnSettle 1 [] ∅ 0%nat.

(** A detached link whose session has lost its connection. *)
Definition unconnectedLink : @SenderLink.SenderLink testEnv :=
  SenderLink.mkSenderLink
    (SenderLink.mkSession None 1 true
       (SenderLink.mkSessionParams 1 100000 2147483647 None) 1)
    0 SenderLink.DETACHED SenderLink.OnSettle 0 [] ∅ 0%nat.

(** An attached link without credit whose session has a connection. *)
Definition creditlessLink : @SenderLink.SenderLink testEnv :=
  SenderLink.mkSenderLink
    (SenderLink.mkSession (Some (SenderLink.mkConnectionRef 512)) 1 true
       (SenderLink.mkSessionParams 1 100000 2147483647 None) 1)
    0 SenderLink.ATTACHED SenderLink.OnSettle 0 [] ∅ 0%nat.

(** A link with one unsettled send under delivery id 1. *)
Definition unsettledLink : @SenderLink.SenderLink testEnv :=
  SenderLink.mkSenderLink
    (SenderLink.mkSession (Some (SenderLink.mkConnectionRef 512)) 1 true
       (SenderLink.mkSessionParams 2 99999 2147483646 None) 2)
    0 SenderLink.ATTACHED SenderLink.OnSettle 499 []
    {[ 1 := SenderLink.mkResolver 0%nat ]} 1%nat.

(** An attached link with the [OnSettle] policy and two credits, on
    which three sends are queued; the next delivery id is 5. *)
Definition backlogLink : @SenderLink.SenderLink testEnv :=
  SenderLink.mkSenderLink
    (SenderLink.mkSession (Some (SenderLink.mkConnectionRef 512)) 1 true
       (SenderLink.mkSessionParams 5 100000 2147483647 None) 8)
    0 SenderLink.ATTACHED SenderLink.OnSettle 2
    [@SenderLink.mkPendingSend testEnv shortMessage 5 0%nat;
     @SenderLink.mkPendingSend testEnv shortMessage 6 1%nat;
     @SenderLink.mkPendingSend testEnv shortMessage 7 2%nat] ∅ 3%nat.

(** A link with unsettled sends under the delivery ids 1 to 4. *)
Definition fourUnsettledLink : @SenderLink.SenderLink testEnv :=
  SenderLink.mkSenderLink
    (SenderLink.mkSession (Some (SenderLink.mkConnectionRef 512)) 1 true
       (SenderLink.mkSessionParams 5 99996 2147483643 None) 5)
    0 SenderLink.ATTACHED SenderLink.OnSettle 496 []
    {[ 1 := SenderLink.mkResolver 0%nat; 2 := SenderLink.mkResolver 1%nat;
       3 := SenderLink.mkResolver 2%nat; 4 := SenderLink.mkResolver 3%nat ]} 4%nat.

(** A settled disposition for the deliveries 2 to 3, and an unsettled
    one for the same. *)
Definition rangeDisposition : SenderLink.Disposition :=
  SenderLink.mkDisposition 2 (Some 3) true (Some SenderLink.Accepted).

Definition unsettledDisposition : SenderLink.Disposition :=
  SenderLink.mkDisposition 2 (Some 3) false (Some SenderLink.Accepted).

(** The disposition of "should send multi-frame messages". *)
Definition acceptedDisposition : SenderLink.Disposition :=
  SenderLink.mkDisposition 1 (Some 1) true (Some SenderLink.Accepted).

(** A frame reader for the examples: fewer than 8 bytes are not yet a
    frame header; anything longer is taken for a frame whose body starts
    with an unknown constructor. *)
Definition stubRead (buf : list byte) : Connection.ReadOutcome * list byte :=
  if (length buf <? 8)%nat then (Connection.ReadUndefined, buf)
  else (Connection.ReadThrows
          (mkJsError MalformedPayloadError "Unknown code prefix: 0x10"), buf).

Definition stubEnv : Connection.ConnEnv :=
  {| Connection.FrameReader_read := stubRead;
     Connection.getTransportFor := fun protocol => bool_decide (protocol = "amqp");
     Connection.defaultChannelMax := 10000;
     Connection.defaultIdleTimeout := 120000 |}.

Definition defaultOptions : Connection.ConnectOptions :=
  Connection.mkConnectOptions None None None.

Definition localhost : Connection.Address := Connection.mkAddress "amqp" "localhost" 5672.

(** "BOGUS_HEADER" *)
Definition bogusHeader : list byte := Buffer_from_string "BOGUS_HEADER".

(** An opened connection with a malformed frame in its buffer. *)
Definition openedConnection : Connection.Connection :=
  Connection.mkConnection Connection.OPENED true true
    [x00; x00; x00; x09; x02; x00; x00; x00; x10]%byte
    true (Connection.mkParams 4294967295 10000 120000) true None
    (Some localhost) None.

(** A connection that has sent its open frame and waits for the peer's. *)
Definition openSentConnection : Connection.Connection :=
  Connection.mkConnection Connection.OPEN_SENT true false [] false
    (Connection.mkParams 4294967295 10000 120000) true None
    (Some localhost) None.

(** An open frame that asks for frames of at most 256 bytes. *)
Definition smallOpen : Connection.OpenFields :=
  Connection.mkOpenFields (Some 256) None None false false.

(** An open frame that asks for frames of at most 1024 bytes. *)
Definition kiloOpen : Connection.OpenFields :=
  Connection.mkOpenFields (Some 1024) None None false false.

(** A frame reader for the examples in which one byte stands for a
    frame: 0x10 for an open frame that leaves every field to its
    default, 0x18 for a close frame without an error, any other byte
    for a heartbeat. *)
Definition byteRead (buf : list byte) : Connection.ReadOutcome * list byte :=
  match buf with
  | [] => (Connection.ReadUndefined, [])
  | x10 :: rest =>
      (Connection.ReadFrame
         (Connection.OpenFrame (Connection.mkOpenFields None None None false false)), rest)
  | x18 :: rest => (Connection.ReadFrame (Connection.CloseFrame None), rest)
  | _ :: rest => (Connection.ReadFrame Connection.HeartbeatFrame, rest)
  end.

(** The same reader, with 0x19 for a close frame that carries the
    error amqp:connection:forced. *)
Definition byteReadForced (buf : list byte) : Connection.ReadOutcome * list byte :=
  match buf with
  | x19 :: rest =>
      (Connection.ReadFrame
         (Connection.CloseFrame (Some (mkAMQPError "amqp:connection:forced" None))), rest)
  | _ => byteRead buf
  end.

Definition forcedEnv : Connection.ConnEnv :=
  {| Connection.FrameReader_read := byteReadForced;
     Connection.getTransportFor := fun protocol => bool_decide (protocol = "amqp");
     Connection.defaultChannelMax := 10000;
     Connection.defaultIdleTimeout := 120000 |}.

(** "BOGUS_HE", the eight bytes the test server answers the header
    with. *)
Definition bogusEight : list byte := Buffer_from_string "BOGUS_HE".

Definition byteEnv : Connection.ConnEnv :=
  {| Connection.FrameReader_read := byteRead;
     Connection.getTransportFor := fun protocol => bool_decide (protocol = "amqp");
     Connection.defaultChannelMax := 10000;
     Connection.defaultIdleTimeout := 120000 |}.

(** An opened connection whose peer has sent a close frame and a
    heartbeat behind it. *)
Definition closingConnection : Connection.Connection :=
  Connection.mkConnection Connection.OPENED true true [x18; x00]%byte
    true (Connection.mkParams 4294967295 10000 120000) true None
    (Some localhost) None.

(** An opened connection with nothing in its buffer. *)
Definition idleConnection : Connection.Connection :=
  Connection.mkConnection Connection.OPENED true true []
    true (Connection.mkParams 4294967295 10000 120000) true None
    (Some localhost) None.

(** A connection that has sent its header and waits for the peer's. *)
Definition headerSentConnection : Connection.Connection :=
  Connection.mkConnection Connection.HDR_SENT true false [] false
    (Connection.mkParams 4294967295 10000 120000) false None
    (Some localhost) None.

(** A connection whose SASL driver has the header of the peer and is
    given an open frame and a close frame. *)
Definition saslConnection : Connection.Connection :=
  Connection.mkConnection Connection.IN_SASL true false [x10; x18]%byte false
    (Connection.mkParams 4294967295 10000 120000) false
    (Some (Connection.mkSasl true)) (Some localhost) (Some (Connection.mkSasl false)).

(** An open frame that asks for 100 channels at most and an idle
    timeout of 8000 ms. *)
Definition modestOpen : Connection.OpenFields :=
  Connection.mkOpenFields None (Some 100) (Some 8000) false false.

(** A connection with two channels whose first has a session. *)
Definition busyEndpoint : Connection.Endpoint string :=
  Connection.mkEndpoint
    (Connection.mkConnection Connection.OPENED true true [] true
       (Connection.mkParams 4294967295 2 120000) true None (Some localhost) None)
    {[ 1 := Some "first" ]}.

(** The messages of the errors for the examples: a malformed-payload
    error puts the words of its class before its text. *)
Definition libErrors : ErrorsEnv :=
  {| errors_message := fun class text =>
       match class with
       | MalformedPayloadError => "malformed payload: " +:+ text
       | _ => text
       end |}.

(** Decoders for the examples, under the codes of null (0x40), true
    (0x41), false (0x42), ubyte (0x50), smallulong (0x53) and the two
    binaries (0xa0, 0xb0). The numbers are their one byte, a binary is
    the bytes behind its code. *)
Definition testDecoders : Codec.DecodeEnv :=
  {| Codec.Decoded := Codec.JsValue;
     Codec.types_decode := fun code =>
       match code with
       | 0x40 => Some (fun _ => Normal Codec.VNull)
       | 0x41 => Some (fun _ => Normal (Codec.VBoolean true))
       | 0x42 => Some (fun _ => Normal (Codec.VBoolean false))
       | 0x50 | 0x53 =>
           Some (fun bytes =>
             Normal (match Buffer_at (default [] bytes) 0 with
                     | Some n => Codec.VNumber (Codec.Finite (inject_Z n))
                     | None => Codec.VUndefined
                     end))
       | 0xa0 | 0xb0 =>
           Some (fun bytes => Normal (Codec.VObject (Codec.OBuffer (default [] bytes))))
       | _ => None
       end;
     Codec.newDescribedType := fun descriptor value =>
       Codec.VObject (Codec.ODescribedType descriptor value);
     Codec.knownTypes := fun _ => None |}.

(** The ubyte 42. *)
Definition ubyte42 : list byte := [x50; x2a]%byte.

(** The value true described by the smallulong 17. *)
Definition describedTrue : list byte := [x00; x53; x11; x41]%byte.

(** A binary of one byte with a length of four bytes. *)
Definition longBinary : list byte := [xb0; x00; x00; x00; x01; x2a]%byte.

(** The start of a described value whose descriptor is a binary with a
    length of four bytes, of which one byte has arrived. *)
Definition cutDescriptor : list byte := [x00; xb0; x00]%byte.

(** Frames and policies are what the examples need of them: an attach
    frame is the name of its link, the role is the sender's, and a
    reattach policy is its [forever] flag and its timeouts. *)
Definition testLinkEnv : @Link.LinkEnv :=
  {| Link.AttachPolicy := string;
     Link.AttachFrame := string;
     Link.newAttachFrame := fun name => Normal name;
     Link.af_name := fun frame => frame;
     Link.af_role := fun _ => false;
     Link.initialDeliveryCountOf := fun _ => Some 1;
     Link.ReattachPolicy := bool * list Z;
     Link.forever := fst;
     Link.generateTimeouts := snd |}.

(** An attached sender link without credit: two sends are queued, one
    attach callback waits, and two reattach timeouts are left. *)
Definition queuedLink : @Link.Link testEnv testLinkEnv :=
  @Link.mkLink testEnv testLinkEnv
    (SenderLink.mkSenderLink
       (SenderLink.mkSession (Some (SenderLink.mkConnectionRef 512)) 1 false
          (SenderLink.mkSessionParams 1 100000 2147483647 None) 3)
       0 SenderLink.ATTACHED SenderLink.OnSent 0
       [@SenderLink.mkPendingSend testEnv shortMessage 1 0%nat;
        @SenderLink.mkPendingSend testEnv shortMessage 2 1%nat] ∅ 2%nat)
    "sender" (Some (false, [1000; 2000])) (Some 7) {[ 7 := 0 ]} [0%nat]
    (Some [1000; 2000]) (Some "sender") (Some false) 0 0 false 0 (Some 1).

(** The same link before it was attached. *)
Definition newLink : @Link.Link testEnv testLinkEnv :=
  @Link.mkLink testEnv testLinkEnv
    (SenderLink.mkSenderLink
       (SenderLink.mkSession (Some (SenderLink.mkConnectionRef 512)) 1 false
          (SenderLink.mkSessionParams 1 100000 2147483647 None) 3)
       0 SenderLink.DETACHED SenderLink.OnSent 5
       [@SenderLink.mkPendingSend testEnv shortMessage 1 0%nat;
        @SenderLink.mkPendingSend testEnv shortMessage 2 1%nat] ∅ 2%nat)
    "sender" (Some (false, [1000; 2000])) None ∅ [0%nat]
    (Some [1000; 2000]) None None 0 0 false 0 None.

(** A detach frame that closes the link with an error. *)
Definition forcedDetach : Link.DetachInfo :=
  Link.mkDetachInfo true (Some (mkAMQPError "amqp:link:detach-forced" None)).

(** A flow frame that grants one credit. *)
Definition oneCredit : Link.FlowInfo := Link.mkFlowInfo (Some 0) 0 0 1.

End Fixtures.

(** * Properties *)

Ltac run_unfold :=
  unfold mbind, mret, Run_bind, Run_ret, get, modify, emit, throw, diverge,
         outOfFuel, try_catch; simpl.

(** ** Properties kept by a run *)

Section Preserves.
Context {S E : Type} (P : S -> Prop).

Lemma preserves_ret {A} (a : A) : preserves P (mret a : Run S E A).
Proof. intros s Hs. exact Hs. Qed.

Lemma preserves_get : preserves P (get : Run S E S).
Proof. intros s Hs. exact Hs. Qed.

Lemma preserves_emit (es : list E) : preserves P (emit es : Run S E unit).
Proof. intros s Hs. exact Hs. Qed.

Lemma preserves_throw {A} (e : JsError) : preserves P (throw e : Run S E A).
Proof. intros s Hs. exact Hs. Qed.

Lemma preserves_outOfFuel {A} : preserves P (outOfFuel : Run S E A).
Proof. intros s Hs. exact Hs. Qed.

Lemma preserves_diverge {A} : preserves P (diverge : Run S E A).
Proof. intros s Hs. exact Hs. Qed.

Lemma preserves_modify (f : S -> S) :
  (forall s, P s -> P (f s)) -> preserves P (modify f : Run S E unit).
Proof. intros Hf s Hs. apply Hf, Hs. Qed.

Lemma preserves_bind {A B} (m : Run S E A) (k : A -> Run S E B) :
  preserves P m -> (forall a, preserves P (k a)) -> preserves P (m ≫= k).
Proof.
  intros Hm Hk s Hs. specialize (Hm s Hs).
  unfold mbind, Run_bind, after in *.
  destruct (m s) as [[r s1] e1]. simpl in Hm.
  destruct r as [a| | |]; simpl; try exact Hm.
  specialize (Hk a s1 Hm). unfold after in Hk.
  destruct (k a s1) as [[r2 s2] e2]. exact Hk.
Qed.

End Preserves.

Ltac preserves_step :=
  match goal with
  | |- preserves _ (mbind _ _) => apply preserves_bind; [|intros ?]
  | |- preserves _ (mret _) => apply preserves_ret
  | |- preserves _ (emit _) => apply preserves_emit
  | |- preserves _ (throw _) => apply preserves_throw
  | |- preserves _ outOfFuel => apply preserves_outOfFuel
  | |- preserves _ diverge => apply preserves_diverge
  | |- preserves _ get => apply preserves_get
  | |- preserves _ (modify _) =>
      apply preserves_modify; intros [] ?; assumption
  | |- preserves _ (if ?b then _ else _) => destruct b
  | |- preserves _ (match ?x with _ => _ end) => destruct x
  end.

(** ** Sender link *)

Section SenderFacts.
Import SenderLink.
Context `{!SenderEnv}.

Implicit Types (l : SenderLink) (m : Message) (tag : list byte).

#[local] Abbreviation window l := (remoteIncomingWindow (_sessionParams (session l))).

Lemma canSend_true l :
  canSend l = true <->
  linkSM l = ATTACHED /\ 1 <= linkCredit l /\
  (enableSessionFlowControl (session l) = true -> 1 <= window l).
Proof.
  unfold canSend, state_.
  destruct (decide (linkSM l = ATTACHED)) as [Hs|Hs].
  - rewrite bool_decide_eq_true_2 by done. simpl.
    rewrite andb_true_iff, orb_true_iff, negb_true_iff, !Z.leb_le.
    destruct (enableSessionFlowControl (session l)); intuition congruence.
  - rewrite bool_decide_eq_false_2 by done. simpl. intuition congruence.
Qed.

(** The two guards of [_sendMessage] as conditions on the link it is
    called on. *)
Lemma _sendMessage_no_credit m tag l :
  linkCredit l <= 0 ->
  _sendMessage m tag l =
    (Throw (mkJsError OverCapacityError "Cannot send if no link credit."), l, []).
Proof.
  intros Hc. unfold _sendMessage. run_unfold.
  destruct (Z.leb_spec (linkCredit l) 0); [done | lia].
Qed.

Lemma _sendMessage_window_exhausted m tag l :
  0 < linkCredit l ->
  enableSessionFlowControl (session l) = true ->
  window l <= 0 ->
  throwsOverCapacity (completion (_sendMessage m tag l)) /\
  effects (_sendMessage m tag l) = [] /\
  window (after (_sendMessage m tag l)) = window l - 1.
Proof.
  intros Hc Hflow Hw. unfold _sendMessage, completion, effects, after. run_unfold.
  destruct (Z.leb_spec (linkCredit l) 0); [lia|]. simpl.
  destruct (Z.ltb_spec (window l - 1) 0); [|lia].
  rewrite Hflow. simpl. done.
Qed.

(** A call of [_sendMessage] with credit and, under session flow
    control, with room in the session window does not end in an
    [OverCapacityError]. *)
Lemma _sendMessage_passes_guards m tag l :
  0 < linkCredit l ->
  (enableSessionFlowControl (session l) = true -> 1 <= window l) ->
  ~ throwsOverCapacity (completion (_sendMessage m tag l)).
Proof.
  intros Hcredit Hwin.
  unfold _sendMessage, completion. run_unfold.
  destruct (Z.leb_spec (linkCredit l) 0) as [?|_]; [lia|]. simpl.
  destruct (Z.ltb_spec (window l - 1) 0) as [Hneg|_];
    [destruct (enableSessionFlowControl (session l)) eqn:Hf;
       [specialize (Hwin eq_refl); lia|] |];
    simpl; repeat case_match; simplify_eq/=; auto.
Qed.

Lemma _sendMessage_not_over_capacity m tag l :
  canSend l = true ->
  ~ throwsOverCapacity (completion (_sendMessage m tag l)).
Proof.
  intros Hc. apply canSend_true in Hc as (Hs & Hcredit & Hwin).
  apply _sendMessage_passes_guards; [lia | exact Hwin].
Qed.

(** [_sendMessage] makes nothing visible but transfer frames. *)
Lemma _sendMessage_only_frames m tag l :
  exists frames, effects (_sendMessage m tag l) = SendFrame <$> frames.
Proof.
  unfold _sendMessage, effects. run_unfold.
  repeat case_match; simplify_eq/=; rewrite ?app_nil_r;
    first [ by exists [] | by eexists | by eexists [_] ].
Qed.

(** The closure of a send, run when [canSend()] holds: it does not end
    in an [OverCapacityError], and what it settles itself is a
    resolution, the error it was given or an [ArgumentError]. *)
Lemma closure_not_over_capacity (ps : PendingSend) err l :
  canSend l = true ->
  ~ throwsOverCapacity (completion (sendMessage ps err l)) /\
  forall p x, Settle p (RejectedWith (Thrown x)) ∈ effects (sendMessage ps err l) ->
              errorClass x = ArgumentError.
Proof.
  intros Hc. unfold sendMessage. destruct err as [e0|].
  - split; [simpl; auto|]. intros p x. unfold effects, emit. simpl.
    rewrite list_elem_of_singleton. discriminate.
  - pose proof (_sendMessage_not_over_capacity (ps_message ps)
                  (Buffer_from_string (pretty (ps_deliveryTag ps))) l Hc) as Hno.
    destruct (_sendMessage_only_frames (ps_message ps)
                (Buffer_from_string (pretty (ps_deliveryTag ps))) l) as (frames & Hframes).
    unfold completion, effects in *. run_unfold.
    destruct (_sendMessage _ _ l) as [[r l1] e1]. simpl in *. subst e1.
    assert (Hfr : forall p x, Settle p (RejectedWith (Thrown x)) ∉ SendFrame <$> frames).
    { intros p x. rewrite list_elem_of_fmap. intros (f & Hf & _). discriminate. }
    destruct r as [id|thrown| |]; simpl; try (split; [done|]);
      try (intros p x Hin; by apply Hfr in Hin).
    destruct (callback l1); simpl; (split; [auto|]); intros p x;
      rewrite elem_of_app; intros [Hin | Hin]; try (by apply Hfr in Hin);
      rewrite ?app_nil_r in Hin.
    + by apply elem_of_nil in Hin.
    + apply list_elem_of_singleton in Hin. discriminate.
    + apply list_elem_of_singleton in Hin. by simplify_eq.
Qed.

Lemma dispatchLoop_not_over_capacity (n : nat) err l :
  ~ throwsOverCapacity (completion (dispatchLoop n err l)).
Proof.
  revert l. induction n as [|n IH]; intros l; cbn [dispatchLoop]; [simpl; auto|].
  unfold mbind, mret, Run_bind, Run_ret, get, modify, completion.
  cbn -[sendMessage dispatchLoop canSend].
  destruct (_pendingSends l) as [|ps rest]; [simpl; auto|].
  destruct (canSend l) eqn:Hcan; [|simpl; auto].
  cbn -[sendMessage dispatchLoop canSend].
  destruct (closure_not_over_capacity ps err (with_pendingSends rest l)) as [Hno _];
    [exact Hcan|].
  unfold completion in Hno.
  destruct (sendMessage ps err (with_pendingSends rest l)) as [[r l1] e1].
  simpl in Hno. destruct r; simpl; try exact Hno; auto.
  specialize (IH l1). unfold completion in IH.
  destruct (dispatchLoop n err l1) as [[r2 l2] e2]. simpl in *. exact IH.
Qed.

(** C9: a call of [_sendMessage] made when [canSend()] holds passes both
    guards: its link credit is positive, the session window does not go
    below zero under session flow control, and the call does not end in
    an [OverCapacityError]. That is how [send] and
    [_dispatchPendingSends] call it: neither ends in an
    [OverCapacityError], and [send] rejects no promise with one. *)
Theorem C9_canSend_excludes_over_capacity :
  (forall m tag l,
     canSend l = true ->
     ~ linkCredit l <= 0 /\
     ~ (window l - 1 < 0 /\ enableSessionFlowControl (session l) = true) /\
     ~ throwsOverCapacity (completion (_sendMessage m tag l))) /\
  (forall (msg : JsMsg) (options : SendOptions) l,
     ~ throwsOverCapacity (completion (send msg options l)) /\
     forall p e, Settle p (RejectedWith (Thrown e)) ∈ effects (send msg options l) ->
                 errorClass e <> OverCapacityError) /\
  (forall err l, ~ throwsOverCapacity (completion (_dispatchPendingSends err l))).
Proof.
  split; [|split].
  - intros m tag l Hc. pose proof Hc as Hc'.
    apply canSend_true in Hc' as (Hs & Hcredit & Hwin).
    split; [lia|]. split; [intros [? Hf]; specialize (Hwin Hf); lia|].
    by apply _sendMessage_not_over_capacity.
  - intros msg options l. unfold send, completion, effects.
    unfold mbind, mret, Run_bind, Run_ret, get, modify, emit, throw, try_catch.
    cbn -[sendMessage canSend].
    destruct (connection (session l)) as [conn|]; [|split; [simpl; auto|]].
    + cbn -[sendMessage canSend].
      set (l1 := with_deliveryTag _ _).
      set (ps := mkPendingSend _ _ _).
      destruct (canSend l1) eqn:Hcan; cbn -[sendMessage canSend].
      * destruct (closure_not_over_capacity ps None l1 Hcan) as [Hno Hrej].
        unfold completion, effects in Hno, Hrej.
        destruct (sendMessage ps None l1) as [[r l2] e2]. simpl in Hno, Hrej.
        destruct r as [u|thrown| |]; simpl; (split; [auto|]); intros p x Hin Hover;
          rewrite ?app_nil_r, ?elem_of_app, ?list_elem_of_singleton in Hin;
          repeat match goal with
          | H : _ \/ _ |- _ => destruct H
          | H : _ ∈ e2 |- _ => apply Hrej in H; congruence
          | H : Settle _ _ = Settle _ _ |- _ => simplify_eq; by apply Hno
          end.
      * split; [auto|]. intros p x Hin. by apply elem_of_nil in Hin.
    + intros p x Hin. by apply elem_of_nil in Hin.
  - intros err l. unfold _dispatchPendingSends, mbind, Run_bind, get, completion.
    cbn -[dispatchLoop].
    pose proof (dispatchLoop_not_over_capacity (length (_pendingSends l)) err l) as Hno.
    unfold completion in Hno.
    destruct (dispatchLoop (length (_pendingSends l)) err l) as [[r l1] e1].
    simpl in *. exact Hno.
Qed.

(** Whatever the guards decide, [_sendMessage] never leaves the link
    credit negative. *)
Lemma _sendMessage_credit_nonneg m tag l :
  0 <= linkCredit l -> 0 <= linkCredit (after (_sendMessage m tag l)).
Proof.
  intros Hc. unfold _sendMessage, after. run_unfold.
  destruct (Z.leb_spec (linkCredit l) 0) as [?|Hpos]; [done|]. simpl.
  repeat case_match; simplify_eq/=; lia.
Qed.

(** The session window after a call that is not stopped by the window
    guard: decremented, or clamped to zero where that is negative. *)
Lemma _sendMessage_window_after m tag l :
  0 < linkCredit l ->
  enableSessionFlowControl (session l) = false \/ 1 <= window l ->
  window (after (_sendMessage m tag l)) = Z.max 0 (window l - 1).
Proof.
  intros Hc Hw. unfold _sendMessage, after. run_unfold.
  destruct (Z.leb_spec (linkCredit l) 0) as [?|_]; [lia|]. simpl.
  destruct (Z.ltb_spec (window l - 1) 0) as [Hneg|Hge].
  - destruct Hw as [Hrelaxed|?]; [|lia]. rewrite Hrelaxed. simpl.
    repeat case_match; simplify_eq/=; lia.
  - simpl. repeat case_match; simplify_eq/=; lia.
Qed.


(** *** Fragmentation *)

Lemma Math_ceil_div_pos (a b : Z) :
  0 <= a -> 0 < b ->
  exists n, Math_ceil_div a b = Count n /\ a <= n * b < a + b.
Proof.
  intros Ha Hb. unfold Math_ceil_div.
  destruct (Z.eqb_spec b 0); [lia|].
  exists (- (- a / b)). split; [done|].
  pose proof (Z.div_mod (- a) b) as Hdm.
  pose proof (Z.mod_pos_bound (- a) b Hb). nia.
Qed.

Lemma length_sendFragments n i c idx ideal (opts : TransferFrame) buf :
  length (sendFragments n i c idx ideal opts buf) = n.
Proof. revert i idx. induction n as [|n IH]; intros; simpl; [done | by rewrite IH]. Qed.

Lemma sendFragments_fields n i c idx ideal (opts : TransferFrame) buf :
  Forall (fun f =>
            tf_deliveryId f = tf_deliveryId opts /\
            tf_deliveryTag f = tf_deliveryTag opts /\
            tf_handle f = tf_handle opts /\
            tf_channel f = tf_channel opts /\
            tf_settled f = tf_settled opts)
         (sendFragments n i c idx ideal opts buf).
Proof.
  revert i idx. induction n as [|n IH]; intros; simpl; constructor; auto.
Qed.

Lemma sendFragments_more n i c idx ideal (opts : TransferFrame) buf (k : nat) f :
  sendFragments n i c idx ideal opts buf !! k = Some f ->
  tf_more f = Some (negb (i + Z.of_nat k =? c - 1)).
Proof.
  revert i idx k. induction n as [|n IH]; intros i idx k; simpl; [done|].
  destruct k as [|k]; simpl.
  - intros [= <-]. simpl. by rewrite Z.add_0_r.
  - intros Hk. rewrite (IH _ _ _ Hk). do 3 f_equal. lia.
Qed.

Lemma sendFragments_concat n i c idx ideal (opts : TransferFrame) buf :
  0 <= idx -> 0 <= ideal ->
  concat (tf_message <$> sendFragments n i c idx ideal opts buf)
  = take (n * Z.to_nat ideal) (drop (Z.to_nat idx) buf).
Proof.
  intros Hidx Hideal. revert i idx Hidx.
  induction n as [|n IH]; intros i idx Hidx; simpl; [done|].
  rewrite IH by lia. unfold Buffer_slice.
  replace (idx + ideal - idx) with ideal by lia.
  replace (Z.to_nat (idx + ideal)) with (Z.to_nat idx + Z.to_nat ideal)%nat by lia.
  rewrite <- drop_drop. apply take_take_drop.
Qed.

(** What [_sendMessage] does when neither guard stops it, the session
    has a connection and the frame size leaves room for payload. *)
Lemma _sendMessage_transmits m tag l (conn : ConnectionRef) :
  let messageBuffer := codec_encode m in
  let frameOverhead := FRAME_OVERHEAD + Z.of_nat (length tag) in
  let idealMessageSize := maxFrameSize conn - frameOverhead in
  connection (session l) = Some conn ->
  0 < linkCredit l ->
  (enableSessionFlowControl (session l) = true -> 1 <= window l) ->
  0 < idealMessageSize ->
  exists l' frames,
    _sendMessage m tag l
      = (Normal (nextOutgoingId (_sessionParams (session l))), l', SendFrame <$> frames) /\
    (_unsettledSends l' = _unsettledSends l /\
     _pendingSends l' = _pendingSends l /\
     callback l' = callback l /\
     promiseCount l' = promiseCount l) /\
    Forall (fun f =>
              tf_deliveryId f = nextOutgoingId (_sessionParams (session l)) /\
              tf_deliveryTag f = tag /\
              tf_handle f = handle l /\
              tf_channel f = channel (session l)) frames /\
    concat (tf_message <$> frames) = messageBuffer /\
    if maxFrameSize conn <? Z.of_nat (length messageBuffer) + frameOverhead then
      Math_ceil_div (Z.of_nat (length messageBuffer)) idealMessageSize
        = Count (Z.of_nat (length frames)) /\
      (2 <= length frames)%nat /\
      forall (i : nat) f, frames !! i = Some f ->
        tf_more f = Some (negb (bool_decide (S i = length frames)))
    else length frames = 1%nat.
Proof.
  intros buf overhead ideal Hconn Hcredit Hwin Hideal.
  unfold _sendMessage. run_unfold.
  destruct (Z.leb_spec (linkCredit l) 0) as [?|_]; [lia|]. simpl.
  set (opts settledFlag := mkTransferFrame (channel (session l)) (handle l)
         (nextOutgoingId (_sessionParams (session l))) settledFlag tag None []).
  (* the frames, whatever the window guard did *)
  assert (Hframes : exists frames,
    (if maxFrameSize conn <=? Z.of_nat (length buf) + overhead then
       match Math_ceil_div (Z.of_nat (length buf)) ideal with
       | Count messageCount =>
           Some (sendFragments (Z.to_nat messageCount) 0 messageCount 0 ideal
                   (opts (bool_decide (senderSettleMode (_sessionParams (session l))
                                       = Some constants_senderSettleMode_settled))) buf)
       | _ => None
       end
     else Some [mkTransferFrame (channel (session l)) (handle l)
                  (nextOutgoingId (_sessionParams (session l)))
                  (bool_decide (senderSettleMode (_sessionParams (session l))
                                = Some constants_senderSettleMode_settled))
                  tag None buf]) = Some frames /\
    Forall (fun f =>
              tf_deliveryId f = nextOutgoingId (_sessionParams (session l)) /\
              tf_deliveryTag f = tag /\
              tf_handle f = handle l /\
              tf_channel f = channel (session l)) frames /\
    concat (tf_message <$> frames) = buf /\
    if maxFrameSize conn <? Z.of_nat (length buf) + overhead then
      Math_ceil_div (Z.of_nat (length buf)) ideal = Count (Z.of_nat (length frames)) /\
      (2 <= length frames)%nat /\
      forall (i : nat) f, frames !! i = Some f ->
        tf_more f = Some (negb (bool_decide (S i = length frames)))
    else length frames = 1%nat).
  { destruct (Math_ceil_div_pos (Z.of_nat (length buf)) ideal) as (n & Hn & Hbounds);
      [lia | done |].
    destruct (Z.leb_spec (maxFrameSize conn) (Z.of_nat (length buf) + overhead)) as [Hsplit|Hone].
    - rewrite Hn. eexists. split; [done|].
      assert (0 <= n) by nia.
      split; [|split].
      + eapply Forall_impl; [apply sendFragments_fields|]. simpl. intros f. tauto.
      + rewrite sendFragments_concat by lia. simpl. rewrite drop_0.
        apply take_ge. nia.
      + rewrite length_sendFragments, Z2Nat.id by done.
        destruct (Z.ltb_spec (maxFrameSize conn) (Z.of_nat (length buf) + overhead)) as [Hex|Heq].
        * split; [done|]. split; [subst ideal; nia|].
          intros i f Hi. rewrite (sendFragments_more _ _ _ _ _ _ _ _ _ Hi).
          f_equal. f_equal.
          destruct (decide (S i = Z.to_nat n)) as [Hlast|Hlast].
          -- rewrite (bool_decide_eq_true_2 _ Hlast). apply Z.eqb_eq. lia.
          -- rewrite (bool_decide_eq_false_2 _ Hlast). apply Z.eqb_neq. lia.
        * subst ideal. nia.
    - eexists. split; [done|]. split; [|split].
      + repeat constructor.
      + simpl. by rewrite app_nil_r.
      + destruct (Z.ltb_spec (maxFrameSize conn) (Z.of_nat (length buf) + overhead));
          [lia | done]. }
  destruct Hframes as (frames & Heq & Hfields & Hconcat & Hshape).
  destruct (Z.ltb_spec (window l - 1) 0) as [Hneg|Hge].
  - destruct (enableSessionFlowControl (session l)) eqn:Hflow;
      [specialize (Hwin eq_refl); lia|].
    simpl. rewrite Hconn. simpl.
    fold buf overhead ideal in Heq |- *.
    destruct (maxFrameSize conn <=? Z.of_nat (length buf) + overhead);
      [destruct (Math_ceil_div (Z.of_nat (length buf)) ideal); try done|];
      injection Heq as Heq; rewrite ?app_nil_r;
      eexists _, frames; rewrite <- Heq at 1; (split; [reflexivity|]); auto.
  - simpl. rewrite Hconn. simpl.
    fold buf overhead ideal in Heq |- *.
    destruct (maxFrameSize conn <=? Z.of_nat (length buf) + overhead);
      [destruct (Math_ceil_div (Z.of_nat (length buf)) ideal); try done|];
      injection Heq as Heq; rewrite ?app_nil_r;
      eexists _, frames; rewrite <- Heq at 1; (split; [reflexivity|]); auto.
Qed.

(** C2: a message that [_sendMessage] transmits over a connection whose
    frame size leaves room for payload ([idealMessageSize > 0]) goes
    out as transfer frames that all carry the delivery id, the delivery
    tag, the handle and the channel of the delivery and whose payloads
    concatenate to the encoded message. If the encoded length plus
    [FRAME_OVERHEAD] plus the length of the delivery tag exceeds
    [maxFrameSize], there are exactly [ceil(length / idealMessageSize)]
    frames, at least two, all but the last with [more = true] and the
    last with [more = false]; otherwise there is exactly one frame. *)
Theorem C2_fragmentation m tag l (conn : ConnectionRef) :
  let messageBuffer := codec_encode m in
  let frameOverhead := FRAME_OVERHEAD + Z.of_nat (length tag) in
  let idealMessageSize := maxFrameSize conn - frameOverhead in
  connection (session l) = Some conn ->
  0 < linkCredit l ->
  (enableSessionFlowControl (session l) = true -> 1 <= window l) ->
  0 < idealMessageSize ->
  exists frames,
    completion (_sendMessage m tag l)
      = Normal (nextOutgoingId (_sessionParams (session l))) /\
    effects (_sendMessage m tag l) = SendFrame <$> frames /\
    Forall (fun f =>
              tf_deliveryId f = nextOutgoingId (_sessionParams (session l)) /\
              tf_deliveryTag f = tag /\
              tf_handle f = handle l /\
              tf_channel f = channel (session l)) frames /\
    concat (tf_message <$> frames) = messageBuffer /\
    if maxFrameSize conn <? Z.of_nat (length messageBuffer) + frameOverhead then
      Math_ceil_div (Z.of_nat (length messageBuffer)) idealMessageSize
        = Count (Z.of_nat (length frames)) /\
      (2 <= length frames)%nat /\
      forall (i : nat) f, frames !! i = Some f ->
        tf_more f = Some (negb (bool_decide (S i = length frames)))
    else length frames = 1%nat.
Proof.
  intros buf overhead ideal Hconn Hcredit Hwin Hideal.
  destruct (_sendMessage_transmits m tag l conn Hconn Hcredit Hwin Hideal)
    as (l' & frames & Hrun & _ & Hfields & Hconcat & Hshape).
  exists frames. rewrite Hrun. auto.
Qed.

(** *** Queueing *)


(** [_sendMessage] and the closures of [send] leave the queue alone, so
    the loop of [_dispatchPendingSends] shortens it by one on every
    turn. *)
Lemma _sendMessage_pending m tag (q : list PendingSend) :
  preserves (fun l => _pendingSends l = q) (_sendMessage m tag).
Proof.
  unfold _sendMessage. repeat preserves_step.
Qed.

Lemma closure_pending (ps : PendingSend) err (q : list PendingSend) :
  preserves (fun l => _pendingSends l = q) (sendMessage ps err).
Proof.
  unfold sendMessage. repeat first [apply _sendMessage_pending | preserves_step].
Qed.

Lemma dispatchLoop_exit (n : nat) err l :
  (length (_pendingSends l) <= n)%nat ->
  completion (dispatchLoop n err l) = Normal tt ->
  _pendingSends (after (dispatchLoop n err l)) = [] \/
  canSend (after (dispatchLoop n err l)) = false.
Proof.
  revert l. induction n as [|n IH]; intros l Hlen; cbn [dispatchLoop].
  - intros _. left. unfold after, mret, Run_ret. simpl.
    destruct (_pendingSends l); [done | simpl in Hlen; lia].
  - unfold mbind, mret, Run_bind, Run_ret, get, completion, after.
    cbn -[sendMessage dispatchLoop canSend].
    destruct (_pendingSends l) as [|ps rest] eqn:Hq; [by left|].
    destruct (canSend l) eqn:Hcan; [|by right].
    unfold modify. cbn -[sendMessage dispatchLoop canSend].
    pose proof (closure_pending ps err rest (with_pendingSends rest l) eq_refl) as Hkeep.
    unfold after in Hkeep.
    destruct (sendMessage ps err (with_pendingSends rest l)) as [[r l1] e1].
    simpl in Hkeep. destruct r; try done.
    cbn -[dispatchLoop canSend]. simpl in Hlen.
    specialize (IH l1). rewrite Hkeep in IH. specialize (IH ltac:(lia)).
    unfold completion, after in IH.
    destruct (dispatchLoop n err l1) as [[r2 l2] e2]. simpl in *. exact IH.
Qed.

(** [_dispatchPendingSends] returns only when the queue is empty or
    [canSend()] no longer holds: the bound on its loop is never what
    stops it. *)
Lemma dispatchPendingSends_exit err l :
  completion (_dispatchPendingSends err l) = Normal tt ->
  _pendingSends (after (_dispatchPendingSends err l)) = [] \/
  canSend (after (_dispatchPendingSends err l)) = false.
Proof.
  unfold _dispatchPendingSends, mbind, Run_bind, get.
  cbn -[dispatchLoop canSend].
  pose proof (dispatchLoop_exit (length (_pendingSends l)) err l (le_n _)) as Hexit.
  unfold completion, after in *.
  destruct (dispatchLoop (length (_pendingSends l)) err l) as [[r l1] e1].
  simpl in *. exact Hexit.
Qed.

(** *** Disposition correlation *)

Lemma callsFor_app id (e1 e2 : list Effect) :
  callsFor id (e1 ++ e2) = callsFor id e1 ++ callsFor id e2.
Proof. apply omap_app. Qed.

Lemma callsFor_cons_call id k (r : Resolver) err st (eff : list Effect) :
  callsFor id (ResolverCalled k r err st :: eff) =
  if bool_decide (k = id) then (r, err, st) :: callsFor id eff else callsFor id eff.
Proof. unfold callsFor. simpl. by case_bool_decide. Qed.

(** One pass of the loop of [_dispositionReceived] over the ids
    [k, k + n): every resolver found there is called once, with the
    given arguments, and removed; the others stay. *)
Lemma dispositionLoop_spec (n : nat) (k : Z) err st l :
  exists l' eff,
    dispositionLoop n k err st l = (Normal tt, l', eff) /\
    forall id,
      if bool_decide (k <= id < k + Z.of_nat n) then
        callsFor id eff =
          match _unsettledSends l !! id with
          | Some r => [(r, err, st)]
          | None => []
          end /\
        _unsettledSends l' !! id = None
      else
        callsFor id eff = [] /\
        _unsettledSends l' !! id = _unsettledSends l !! id.
Proof.
  revert k l. induction n as [|n IH]; intros k l.
  - exists l, []. split; [done|]. intros id.
    rewrite bool_decide_eq_false_2 by lia. done.
  - cbn [dispositionLoop]. run_unfold.
    destruct (_unsettledSends l !! k) as [r|] eqn:Hk; cbn -[Z.of_nat].
    + destruct (IH (k + 1)
        (with_unsettledSends (delete k (_unsettledSends l)) l))
        as (l' & eff & Hrun & Hspec).
      rewrite Hrun. eexists _, _. split; [done|]. intros id.
      specialize (Hspec id). cbn -[Z.of_nat] in Hspec.
      rewrite callsFor_cons_call.
      destruct (decide (id = k)) as [->|Hne].
      * rewrite (bool_decide_eq_true_2 (k = k)) by done.
        rewrite bool_decide_eq_true_2 by lia.
        rewrite bool_decide_eq_false_2 in Hspec by lia.
        destruct Hspec as [Hcalls Hlook].
        rewrite Hk, Hcalls. rewrite lookup_delete_eq in Hlook. done.
      * rewrite (bool_decide_eq_false_2 (k = id)) by done.
        rewrite lookup_delete_ne in Hspec by done.
        destruct (decide (k + 1 <= id < k + 1 + Z.of_nat n)).
        -- rewrite bool_decide_eq_true_2 in Hspec by done.
           rewrite bool_decide_eq_true_2 by lia. done.
        -- rewrite bool_decide_eq_false_2 in Hspec by done.
           rewrite bool_decide_eq_false_2 by lia. done.
    + destruct (IH (k + 1) l) as (l' & eff & Hrun & Hspec).
      rewrite Hrun. eexists _, _. split; [done|]. intros id.
      specialize (Hspec id). cbn -[Z.of_nat].
      destruct (decide (id = k)) as [->|Hne].
      * rewrite bool_decide_eq_true_2 by lia.
        rewrite bool_decide_eq_false_2 in Hspec by lia.
        rewrite Hk. destruct Hspec as [-> ->]. done.
      * destruct (decide (k + 1 <= id < k + 1 + Z.of_nat n)).
        -- rewrite bool_decide_eq_true_2 in Hspec by done.
           rewrite bool_decide_eq_true_2 by lia. done.
        -- rewrite bool_decide_eq_false_2 in Hspec by done.
           rewrite bool_decide_eq_false_2 by lia. done.
Qed.

(** One disposition: the resolvers of the ids it settles are called
    once and removed; nothing else is touched. *)
Lemma dispositionReceived_spec (d : Disposition) l :
  exists l' eff,
    _dispositionReceived d l = (Normal tt, l', eff) /\
    forall id,
      if settles d id then
        callsFor id eff =
          match _unsettledSends l !! id with
          | Some r => [(r, errorOf d, state d)]
          | None => []
          end /\
        _unsettledSends l' !! id = None
      else
        callsFor id eff = [] /\
        _unsettledSends l' !! id = _unsettledSends l !! id.
Proof.
  unfold _dispositionReceived, settles, covers.
  destruct (settled d); simpl.
  - destruct (dispositionLoop_spec
                (Z.to_nat (last_or_first d - first d + 1)) (first d)
                (errorOf d) (state d) l) as (l' & eff & Hrun & Hspec).
    exists l', eff. split; [exact Hrun|]. intros id. specialize (Hspec id).
    destruct (Z.leb_spec (first d) id), (Z.leb_spec id (last_or_first d)); simpl.
    + rewrite bool_decide_eq_true_2 in Hspec by lia. done.
    + rewrite bool_decide_eq_false_2 in Hspec by lia. done.
    + rewrite bool_decide_eq_false_2 in Hspec by lia. done.
    + rewrite bool_decide_eq_false_2 in Hspec by lia. done.
  - exists l, []. split; [done|]. done.
Qed.

(** A run of dispositions, seen from one delivery id: its resolver is
    called by the first disposition that settles the id and by no
    other. *)
Lemma dispositionsReceived_spec (ds : list Disposition) l id :
  exists l' eff,
    dispositionsReceived ds l = (Normal tt, l', eff) /\
    match List.find (fun d => settles d id) ds with
    | None =>
        callsFor id eff = [] /\
        _unsettledSends l' !! id = _unsettledSends l !! id
    | Some d =>
        callsFor id eff =
          match _unsettledSends l !! id with
          | Some r => [(r, errorOf d, state d)]
          | None => []
          end /\
        _unsettledSends l' !! id = None
    end.
Proof.
  revert l. induction ds as [|d ds IH]; intros l.
  - exists l, []. done.
  - simpl. run_unfold.
    destruct (dispositionReceived_spec d l) as (l1 & e1 & Hrun1 & Hspec1).
    destruct (IH l1) as (l2 & e2 & Hrun2 & Hspec2).
    rewrite Hrun1, Hrun2. exists l2, (e1 ++ e2). split; [done|].
    specialize (Hspec1 id). rewrite callsFor_app.
    destruct (settles d id).
    + destruct Hspec1 as [Hc1 Hl1]. rewrite Hc1.
      destruct (List.find _ ds); destruct Hspec2 as [Hc2 Hl2];
        rewrite Hc2; rewrite ?Hl1 in *; rewrite ?app_nil_r; split; congruence.
    + destruct Hspec1 as [Hc1 Hl1]. rewrite Hc1. simpl.
      destruct (List.find _ ds); destruct Hspec2 as [Hc2 Hl2];
        rewrite Hc2, Hl2, ?Hl1; done.
Qed.

Lemma deferredSender_outcome (r : Resolver) (d : Disposition) :
  deferredSender r (errorOf d) (state d) = (rs_promise r, outcomeOf (state d)).
Proof.
  unfold deferredSender, errorOf, outcomeOf.
  destruct (state d) as [[|[e|]| |]|]; done.
Qed.

Lemma settlements_frames (frames : list TransferFrame) :
  settlements (SendFrame <$> frames) = [].
Proof. induction frames; simpl; auto. Qed.

(** The closure [sendMessage] of a send, run without an error on a
    link with the [OnSettle] policy: the message goes out and the
    resolver of its promise is stored under the delivery id. *)
Lemma closure_registers (ps : PendingSend) l (conn : ConnectionRef) :
  let tag := Buffer_from_string (pretty (ps_deliveryTag ps)) in
  callback l = OnSettle ->
  connection (session l) = Some conn ->
  0 < linkCredit l ->
  (enableSessionFlowControl (session l) = true -> 1 <= window l) ->
  0 < maxFrameSize conn - (FRAME_OVERHEAD + Z.of_nat (length tag)) ->
  exists l' frames,
    sendMessage ps None l = (Normal tt, l', SendFrame <$> frames) /\
    _unsettledSends l' =
      <[nextOutgoingId (_sessionParams (session l)) := mkResolver (ps_promise ps)]>
        (_unsettledSends l).
Proof.
  intros tag Hcb Hconn Hcredit Hwin Hideal.
  destruct (_sendMessage_transmits (ps_message ps) tag l conn Hconn Hcredit Hwin Hideal)
    as (l' & frames & Hrun & (Hu & Hp & Hc & Hn) & _).
  unfold sendMessage. run_unfold. fold tag. rewrite Hrun. simpl.
  rewrite Hc, Hcb. simpl. rewrite Hu, !app_nil_r.
  eexists _, frames. done.
Qed.

(** C10: a disposition whose [last] is absent, [null] or 0 is taken to
    cover the single delivery id [first]: the upper bound used is
    [first], and a settled one calls and removes the resolver stored
    under [first], if there is one, and nothing else. A
    [DispositionFrame] built from options without [last] has its
    [last] set to 0, whatever [first] is. *)
Theorem C10_absent_last :
  (forall (d : Disposition) l,
     last d = None \/ last d = Some 0 ->
     last_or_first d = first d /\
     (forall id, covers d id = true <-> id = first d) /\
     (settled d = true ->
      _dispositionReceived d l =
        match _unsettledSends l !! first d with
        | Some r =>
            (Normal tt,
             with_unsettledSends (delete (first d) (_unsettledSends l)) l,
             [ResolverCalled (first d) r (errorOf d) (state d)])
        | None => (Normal tt, l, [])
        end)) /\
  (forall (options : DispositionOptions) (role : Role) (first_ : Z),
     o_role options = Some role ->
     o_first options = Some first_ ->
     o_last options = None ->
     exists f,
       newDispositionFrame options = Normal f /\
       df_first f = first_ /\ df_last f = 0).
Proof.
  split.
  - intros d l Hlast.
    assert (Hlf : last_or_first d = first d).
    { unfold last_or_first, number_or. destruct Hlast as [-> | ->]; done. }
    split; [done|]. split.
    + intros id. unfold covers. rewrite Hlf, andb_true_iff, !Z.leb_le. lia.
    + intros Hs. unfold _dispositionReceived. rewrite Hs, Hlf. simpl.
      replace (first d - first d + 1) with 1 by lia.
      change (Z.to_nat 1) with 1%nat. cbn [dispositionLoop]. run_unfold.
      fold (errorOf d).
      destruct (_unsettledSends l !! first d); done.
  - intros options role first_ Hrole Hfirst Hl.
    unfold newDispositionFrame. rewrite Hrole, Hfirst, Hl. simpl.
    eexists. done.
Qed.

End SenderFacts.

(** ** Connection *)

Section ConnectionFacts.
Import Connection.
Context `{!ConnEnv}.

Implicit Types (c : Connection).

Ltac conn_unfold :=
  unfold open, close, fire, _receiveData, _tryReceiveHeader, _tryReceiveFrame,
         _connect, sendHeader, sendFrame, _sendOpenFrame, _sendCloseFrame,
         _terminate, _processError, _processCloseFrame;
  run_unfold.

Lemma prefix_append (p q s : string) : String.prefix p ((p +:+ q) +:+ s) = true.
Proof.
  induction p as [|a p IH].
  - change (("" +:+ q) +:+ s) with (q +:+ s). by destruct (q +:+ s).
  - change ((String a p +:+ q) +:+ s) with (String a ((p +:+ q) +:+ s)).
    cbn [String.prefix]. destruct (Ascii.ascii_dec a a); [exact IH | done].
Qed.

Lemma includes_append (p q s : string) : includes p ((p +:+ q) +:+ s) = true.
Proof.
  pose proof (prefix_append p q s) as Hp.
  destruct ((p +:+ q) +:+ s); cbn [includes]; by rewrite Hp.
Qed.

#[local] Arguments bufferEquals : simpl never.
#[local] Arguments Buffer_slice : simpl never.
#[local] Arguments toHex : simpl never.
#[local] Arguments String.append : simpl never.

(** *** Inbound frame errors *)

Lemma tryReceiveFrame_throw c (e : JsError) (rest : list byte) :
  FrameReader_read (_buffer c) = (ReadThrows e, rest) ->
  _tryReceiveFrame c = (Normal None, with_buffer rest c, [ConsoleWarn (message e)]).
Proof. intros Hread. unfold _tryReceiveFrame. run_unfold. by rewrite Hread. Qed.

(** C4 (as amended): when reading a frame from the inbound buffer
    raises an error, [_tryReceiveFrame] writes the message of the error
    to the console and answers [undefined]; the loop of [_receiveAny]
    then stops. The state of the connection stays as it was, apart from
    what the reader did to the buffer: no [ErrorReceived] is emitted, no
    close frame is sent and the state machine does not move. *)
Theorem C4_frame_error_is_logged c (e : JsError) (rest : list byte) (fuel : nat) :
  FrameReader_read (_buffer c) = (ReadThrows e, rest) ->
  headerDone c = true ->
  (0 < fuel)%nat ->
  _tryReceiveFrame c = (Normal None, with_buffer rest c, [ConsoleWarn (message e)]) /\
  let r := _receiveAny fuel c in
  r = (Normal tt, with_buffer rest c, [ConsoleWarn (message e)]) /\
  connSM (after r) = connSM c /\
  connected (after r) = connected c /\
  errorsReceived (effects r) = [] /\
  emitted (effects r) = [].
Proof.
  intros Hread Hdone Hfuel.
  pose proof (tryReceiveFrame_throw c e rest Hread) as Htry.
  split; [exact Htry|].
  assert (Hrun : _receiveAny fuel c
                 = (Normal tt, with_buffer rest c, [ConsoleWarn (message e)])).
  { destruct fuel as [|fuel]; [lia|]. cbn [_receiveAny].
    unfold mbind, mret, Run_bind, Run_ret, get. cbn -[_tryReceiveFrame _receiveAny].
    unfold headerDone in Hdone.
    destruct (sasl c) as [s|]; rewrite Hdone; cbn -[_tryReceiveFrame _receiveAny];
      rewrite Htry; done. }
  intros r. subst r. rewrite Hrun. done.
Qed.

(** *** Open negotiation *)

(** C5 (as amended): after an open frame is processed, the negotiated
    [maxFrameSize] is the smaller of the local value and the value of
    the peer (the default where the peer gives none or 0), raised to
    512 where that is smaller: it is always at least 512, and it is the
    minimum of the two values whenever that minimum is at least 512.
    (The open frame is the last thing in the buffer and the connection
    has its transport.) *)
Theorem C5_negotiated_maxFrameSize c (frame : OpenFields) (receiveAny : Run Connection Effect unit) :
  _buffer c = [] ->
  _transport c = true ->
  let r := _processOpenFrame receiveAny frame c in
  let local := maxFrameSize (_params c) in
  let peer := number_or (of_maxFrameSize frame) defaultMaxFrameSize in
  completion r = Normal tt /\
  maxFrameSize (_params (after r)) = Z.max (Z.min local peer) minMaxFrameSize /\
  512 <= maxFrameSize (_params (after r)) /\
  (512 <= Z.min local peer -> maxFrameSize (_params (after r)) = Z.min local peer).
Proof.
  intros Hbuf Htransport r local peer.
  assert (Hr : completion r = Normal tt /\
               maxFrameSize (_params (after r)) = Z.max (Z.min local peer) minMaxFrameSize).
  { subst r local peer. unfold _processOpenFrame, fire, completion, after.
    unfold _ensureLocaleCompatibility.
    destruct c as [st tr cn buf hb ps rh sa ad cs]. simpl in Hbuf, Htransport. subst buf.
    subst tr. destruct st; do 3 conn_unfold;
      destruct (of_outgoingLocales frame), (of_incomingLocales frame); done. }
  destruct Hr as [Hc Hm]. rewrite Hm. unfold minMaxFrameSize. repeat split; try done; lia.
Qed.

(** *** What a connection that is going down can still do *)

Lemma terminate_closing (hasError : bool) : preserves closing (_terminate hasError).
Proof. unfold _terminate. repeat preserves_step. Qed.

Lemma sendHeader_closing header : preserves closing (sendHeader header).
Proof. unfold sendHeader. repeat preserves_step. Qed.

(** No event but [connect] takes the state machine out of
    DISCONNECTING and DISCONNECTED. *)
Lemma fire_closing (ev : SMEvent) (args : EventArgs) :
  ev <> ev_connect -> preserves closing (fire ev args).
Proof.
  intros Hev c Hc. unfold fire, after. unfold mbind, Run_bind, get. simpl.
  destruct (handler (connSM c) ev args) as [[action next]|] eqn:Hh; [|exact Hc].
  assert (Hnext : next = DISCONNECTED /\ preserves closing action).
  { destruct Hc as [Hc|Hc]; rewrite Hc in Hh; destruct ev; simpl in Hh; try done;
      injection Hh as <- <-; (split; [done|]);
      first [apply terminate_closing | apply preserves_ret
            | unfold _processError; repeat preserves_step; apply terminate_closing]. }
  destruct Hnext as [-> Haction]. specialize (Haction c Hc). unfold after in Haction.
  destruct (action c) as [[r c1] e1]. simpl in Haction.
  destruct r; simpl; try exact Haction. right. by destruct c1.
Qed.

Ltac closing_step :=
  first [ preserves_step
        | apply fire_closing; discriminate
        | apply terminate_closing
        | apply sendHeader_closing ].

Lemma tryReceiveHeader_closing header : preserves closing (_tryReceiveHeader header).
Proof. unfold _tryReceiveHeader. repeat closing_step. Qed.

Lemma tryReceiveFrame_closing : preserves closing _tryReceiveFrame.
Proof. unfold _tryReceiveFrame. repeat closing_step. Qed.

Lemma processCloseFrame_closing error : preserves closing (_processCloseFrame error).
Proof. unfold _processCloseFrame. repeat closing_step. Qed.

Lemma processOpenFrame_closing (receiveAny : Run Connection Effect unit) frame :
  preserves closing receiveAny ->
  preserves closing (_processOpenFrame receiveAny frame).
Proof.
  intros Hrec. unfold _processOpenFrame, _ensureLocaleCompatibility.
  repeat first [closing_step | exact Hrec].
Qed.

Lemma receiveAny_closing (fuel : nat) : preserves closing (_receiveAny fuel).
Proof.
  induction fuel as [|fuel IH]; cbn [_receiveAny].
  - apply preserves_outOfFuel.
  - repeat first
      [ exact IH
      | apply tryReceiveHeader_closing
      | apply tryReceiveFrame_closing
      | apply processCloseFrame_closing
      | apply processOpenFrame_closing
      | closing_step ].
Qed.

Lemma react_closing (fuel : nat) (i : Input) :
  notOpen i -> preserves closing (react fuel i).
Proof.
  destruct i; simpl; try done; intros _; unfold close, _receiveData, _saslComplete;
    repeat first [apply receiveAny_closing | closing_step].
Qed.

Lemma reactAll_closing (fuel : nat) (inputs : list Input) :
  Forall notOpen inputs -> preserves closing (reactAll fuel inputs).
Proof.
  induction 1 as [|i inputs Hi _ IH]; simpl.
  - apply preserves_ret.
  - apply preserves_bind; [by apply react_closing | intros _; exact IH].
Qed.

(** *** Header exchange *)

(** From DISCONNECTING and DISCONNECTED a method goes nowhere but to
    DISCONNECTED. *)
#[local] Abbreviation down m :=
  (forall c : Connection, closing c ->
     closing (after (m c)) /\ Forall goesDown (effects (m c))).

Lemma down_ret {A} (a : A) : down (mret a : Run Connection Effect A).
Proof. intros c Hc. split; [exact Hc | constructor]. Qed.

Lemma down_get : down (get : Run Connection Effect Connection).
Proof. intros c Hc. split; [exact Hc | constructor]. Qed.

Lemma down_throw {A} (e : JsError) : down (throw e : Run Connection Effect A).
Proof. intros c Hc. split; [exact Hc | constructor]. Qed.

Lemma down_outOfFuel {A} : down (outOfFuel : Run Connection Effect A).
Proof. intros c Hc. split; [exact Hc | constructor]. Qed.

Lemma down_emit (es : list Effect) : Forall goesDown es -> down (emit es : Run Connection Effect unit).
Proof. intros Hes c Hc. split; [exact Hc | exact Hes]. Qed.

Lemma down_modify (f : Connection -> Connection) :
  (forall c, connSM (f c) = connSM c) -> down (modify f : Run Connection Effect unit).
Proof.
  intros Hf c Hc. split; [|constructor]. unfold after, modify, closing in *. simpl.
  by rewrite Hf.
Qed.

Lemma down_bind {A B} (m : Run Connection Effect A) (k : A -> Run Connection Effect B) :
  down m -> (forall a, down (k a)) -> down (m ≫= k).
Proof.
  intros Hm Hk c Hc. destruct (Hm c Hc) as [Hw He].
  unfold mbind, Run_bind, after, effects in *.
  destruct (m c) as [[r c1] e1]. simpl in Hw, He.
  destruct r as [a| | |]; simpl; try (split; assumption).
  destruct (Hk a c1 Hw) as [Hw2 He2]. unfold after, effects in *.
  destruct (k a c1) as [[r2 c2] e2]. simpl in *. split; [assumption|].
  apply Forall_app. by split.
Qed.

Ltac down_step :=
  match goal with
  | |- down (mbind _ _) => apply down_bind; [|intros ?]
  | |- down (mret _) => apply down_ret
  | |- down (emit _) =>
      apply down_emit;
      repeat first [constructor | match goal with |- context [if ?b then _ else _] => destruct b end]
  | |- down (throw _) => apply down_throw
  | |- down outOfFuel => apply down_outOfFuel
  | |- down get => apply down_get
  | |- down (modify _) => apply down_modify; intros []; reflexivity
  | |- down (if ?b then _ else _) => destruct b
  | |- down (match ?x with _ => _ end) => destruct x
  end.

Lemma terminate_down (hasError : bool) : down (_terminate hasError).
Proof. unfold _terminate. repeat down_step. Qed.

Lemma sendHeader_down header : down (sendHeader header).
Proof. unfold sendHeader. repeat down_step. Qed.

Lemma fire_down (ev : SMEvent) (args : EventArgs) :
  ev <> ev_connect -> down (fire ev args).
Proof.
  intros Hev c Hc. unfold fire, after, effects. unfold mbind, Run_bind, get. simpl.
  destruct (handler (connSM c) ev args) as [[action next]|] eqn:Hh;
    [|split; [exact Hc | constructor]].
  assert (Hnext : next = DISCONNECTED /\ down action).
  { destruct Hc as [Hc|Hc]; rewrite Hc in Hh; destruct ev; simpl in Hh; try done;
      injection Hh as <- <-; (split; [done|]);
      first [apply terminate_down | apply down_ret
            | unfold _processError; repeat down_step; apply terminate_down]. }
  destruct Hnext as [-> Haction]. destruct (Haction c Hc) as [Hafter Heff].
  unfold after, effects in Hafter, Heff.
  destruct (action c) as [[r c1] e1]. simpl in *.
  destruct r; simpl; try (split; assumption).
  split; [right; by destruct c1|].
  apply Forall_app. split; [exact Heff|]. by repeat constructor.
Qed.

Ltac down_steps :=
  first [ down_step
        | apply fire_down; discriminate
        | apply terminate_down
        | apply sendHeader_down ].

Lemma tryReceiveHeader_down header : down (_tryReceiveHeader header).
Proof. unfold _tryReceiveHeader. repeat down_steps. Qed.

Lemma tryReceiveFrame_down : down _tryReceiveFrame.
Proof. unfold _tryReceiveFrame. repeat down_steps. Qed.

Lemma processCloseFrame_down error : down (_processCloseFrame error).
Proof. unfold _processCloseFrame. repeat down_steps. Qed.

Lemma processOpenFrame_down (receiveAny : Run Connection Effect unit) frame :
  down receiveAny -> down (_processOpenFrame receiveAny frame).
Proof.
  intros Hrec. unfold _processOpenFrame, _ensureLocaleCompatibility.
  repeat first [down_steps | exact Hrec].
Qed.

Lemma receiveAny_down (fuel : nat) : down (_receiveAny fuel).
Proof.
  induction fuel as [|fuel IH]; cbn [_receiveAny].
  - apply down_outOfFuel.
  - repeat first
      [ exact IH
      | apply tryReceiveHeader_down
      | apply tryReceiveFrame_down
      | apply processCloseFrame_down
      | apply processOpenFrame_down
      | down_steps ].
Qed.

Lemma react_down (fuel : nat) (i : Input) : notOpen i -> down (react fuel i).
Proof.
  destruct i; simpl; try done; intros _; unfold close, _receiveData, _saslComplete;
    repeat first [apply receiveAny_down | down_steps].
Qed.

Lemma reactAll_down (fuel : nat) (inputs : list Input) :
  Forall notOpen inputs -> down (reactAll fuel inputs).
Proof.
  induction 1 as [|i inputs Hi _ IH]; simpl.
  - apply down_ret.
  - apply down_bind; [by apply react_down | intros _; exact IH].
Qed.

Lemma goesDown_trace (eff : list Effect) :
  Forall goesDown eff -> OPENED ∉ stateTrace eff.
Proof.
  induction 1 as [|e eff He _ IH]; [by apply not_elem_of_nil|].
  unfold stateTrace. csimpl. destruct e; try exact IH.
  simpl in He. subst. rewrite elem_of_cons. intros [?|?]; [done | by apply IH].
Qed.

Lemma stateTrace_app (e1 e2 : list Effect) :
  stateTrace (e1 ++ e2) = stateTrace e1 ++ stateTrace e2.
Proof. apply omap_app. Qed.

Lemma closing_not_opened c : closing c -> connSM c <> OPENED.
Proof. intros [Hc|Hc]; rewrite Hc; discriminate. Qed.


End ConnectionFacts.

(** ** Codec *)

Section CodecFacts.
Import Codec.
Context `{!TypesEnv}.

Lemma absBelow_Qabs (q : Q) (bound : Z) :
  absBelow (Finite q) bound = true <-> (Qabs q < inject_Z bound)%Q.
Proof.
  unfold absBelow, Qlt. destruct q as [num den]. simpl.
  rewrite Z.ltb_lt. lia.
Qed.

Lemma encode_number (n : JsNumber) (forceType : option string) :
  unforced forceType ->
  encode (VNumber n) forceType =
    let typeName :=
      if isWhole n then (if absBelow n 2147483647 then "int" else "long")
      else "double" in
    if negb (types_hasOwnProperty typeName) then
      (Throw (mkJsError NotImplementedError ("encode(" +:+ typeName +:+ ")")), [])
    else (Normal tt, [TypesEncode typeName (VNumber n)]).
Proof. intros [-> | ->]; reflexivity. Qed.

(** C7 (as amended): [null] is always encoded by the null encoder,
    whatever type is forced. For every other value a forced type names
    the encoder that is used, whatever the shape of the value, and a
    forced type that the table of types does not have raises an
    [EncodingError]. Without a forced type a number that is not whole
    goes to the double encoder, a whole number of magnitude below
    2147483647 to the int encoder and a whole number of magnitude above
    2147483648 to the long encoder. *)
Theorem C7_encoder_choice :
  (forall forceType, encode VNull forceType = (Normal tt, [TypesEncode "null" VNull])) /\
  (forall (v : JsValue) (t : string),
     v <> VNull -> t <> "" ->
     encode v (Some t) =
       if types_hasOwnProperty t then (Normal tt, [TypesEncode t v])
       else (Throw (mkJsError EncodingError t), [])) /\
  (forall (n : JsNumber) forceType,
     unforced forceType -> isWhole n = false ->
     types_hasOwnProperty "double" = true ->
     encode (VNumber n) forceType = (Normal tt, [TypesEncode "double" (VNumber n)])) /\
  (forall (q : Q) forceType,
     unforced forceType -> isWhole (Finite q) = true ->
     (Qabs q < inject_Z 2147483647)%Q ->
     types_hasOwnProperty "int" = true ->
     encode (VNumber (Finite q)) forceType
       = (Normal tt, [TypesEncode "int" (VNumber (Finite q))])) /\
  (forall (q : Q) forceType,
     unforced forceType -> isWhole (Finite q) = true ->
     (inject_Z 2147483648 < Qabs q)%Q ->
     types_hasOwnProperty "long" = true ->
     encode (VNumber (Finite q)) forceType
       = (Normal tt, [TypesEncode "long" (VNumber (Finite q))])).
Proof.
  split; [|split; [|split; [|split]]].
  - intros forceType. reflexivity.
  - intros v t Hv Ht. destruct v; try done; simpl;
      rewrite (bool_decide_eq_false_2 _ Ht); simpl;
      destruct (types_hasOwnProperty t); reflexivity.
  - intros n forceType Hf Hw Hd. rewrite encode_number by done.
    simpl. rewrite Hw, Hd. reflexivity.
  - intros q forceType Hf Hw Hlt Hi. rewrite encode_number by done.
    apply absBelow_Qabs in Hlt. cbv zeta. rewrite Hw, Hlt, Hi. reflexivity.
  - intros q forceType Hf Hw Hgt Hl. rewrite encode_number by done.
    assert (Hnb : absBelow (Finite q) 2147483647 = false).
    { apply not_true_is_false. intros Hb. apply absBelow_Qabs in Hb.
      assert (inject_Z 2147483647 < inject_Z 2147483648)%Q by reflexivity.
      eapply Qlt_irrefl, Qlt_trans; [exact Hb|]. eapply Qlt_trans; eassumption. }
    cbv zeta. rewrite Hw, Hnb, Hl. reflexivity.
Qed.

End CodecFacts.

(** ** Sender link: what the queue hands on *)

Section SenderMore.
Import SenderLink Link.
Context `{!SenderEnv}.

Implicit Types (l : SenderLink) (m : Message) (tag : list byte).

#[local] Abbreviation window l := (remoteIncomingWindow (_sessionParams (session l))).

(** What a call of [_sendMessage] that returns leaves of the link: one
    credit less, the next delivery id, and everything else that
    [canSend] and the queue look at as it was. *)
Lemma _sendMessage_returns m tag l (messageId : Z) :
  completion (_sendMessage m tag l) = Normal messageId ->
  let l' := after (_sendMessage m tag l) in
  messageId = nextOutgoingId (_sessionParams (session l)) /\
  linkCredit l' = linkCredit l - 1 /\
  1 <= linkCredit l /\
  nextOutgoingId (_sessionParams (session l')) = messageId + 1 /\
  window l' = Z.max 0 (window l - 1) /\
  linkSM l' = linkSM l /\
  connection (session l') = connection (session l) /\
  enableSessionFlowControl (session l') = enableSessionFlowControl (session l) /\
  _pendingSends l' = _pendingSends l /\
  _unsettledSends l' = _unsettledSends l /\
  callback l' = callback l.
Proof.
  unfold _sendMessage, completion, after. run_unfold.
  destruct (Z.leb_spec (linkCredit l) 0) as [?|Hpos]; [done|]. simpl.
  destruct (Z.ltb_spec (window l - 1) 0) as [Hneg|Hge].
  - destruct (enableSessionFlowControl (session l)) eqn:Hflow; [done|]. simpl.
    repeat case_match; simplify_eq/=; try done;
      intros [= <-]; repeat split; try done; lia.
  - simpl. repeat case_match; simplify_eq/=; try done;
      intros [= <-]; repeat split; try done; lia.
Qed.


Lemma closure_returns (ps : PendingSend) l :
  completion (sendMessage ps None l) = Normal tt ->
  let l' := after (sendMessage ps None l) in
  linkCredit l' = linkCredit l - 1 /\
  1 <= linkCredit l /\
  nextOutgoingId (_sessionParams (session l'))
    = nextOutgoingId (_sessionParams (session l)) + 1 /\
  linkSM l' = linkSM l /\
  connection (session l') = connection (session l) /\
  enableSessionFlowControl (session l') = enableSessionFlowControl (session l) /\
  _pendingSends l' = _pendingSends l.
Proof.
  unfold sendMessage.
  pose proof (_sendMessage_returns (ps_message ps)
                (Buffer_from_string (pretty (ps_deliveryTag ps))) l) as Hret.
  unfold completion, after in *. unfold mbind, Run_bind.
  destruct (_sendMessage _ _ l) as [[res l1] e1]. simpl in Hret.
  destruct res as [messageId| | |]; try done.
  specialize (Hret messageId eq_refl).
  destruct Hret as (-> & Hc & Hpos & Hid & _ & Hsm & Hconn & Hflow & Hq & _ & _).
  run_unfold. destruct (callback l1); simpl; intros _; repeat split; try done; lia.
Qed.

(** The messages that [_dispatchPendingSends] hands on are the first
    ones of the queue, each of them costs one credit and takes the
    next delivery id, and there are no more of them than credits. *)
Lemma dispatchLoop_accounting (n : nat) l :
  completion (dispatchLoop n None l) = Normal tt ->
  let l' := after (dispatchLoop n None l) in
  exists k : nat,
    (k <= n)%nat /\ (k <= length (_pendingSends l))%nat /\
    _pendingSends l' = drop k (_pendingSends l) /\
    linkCredit l' = linkCredit l - Z.of_nat k /\
    Z.of_nat k <= Z.max 0 (linkCredit l) /\
    nextOutgoingId (_sessionParams (session l'))
      = nextOutgoingId (_sessionParams (session l)) + Z.of_nat k /\
    linkSM l' = linkSM l /\
    connection (session l') = connection (session l) /\
    enableSessionFlowControl (session l') = enableSessionFlowControl (session l).
Proof.
  revert l. induction n as [|n IH]; intros l; cbn [dispatchLoop].
  - intros _. exists 0%nat. unfold after, mret, Run_ret. simpl.
    repeat split; try done; lia.
  - unfold mbind, mret, Run_bind, Run_ret, get, completion, after.
    cbn -[sendMessage dispatchLoop canSend].
    destruct (_pendingSends l) as [|ps rest] eqn:Hq.
    { intros _. exists 0%nat. simpl. rewrite Hq. repeat split; try done; lia. }
    destruct (canSend l) eqn:Hcan.
    2:{ intros _. exists 0%nat. simpl. rewrite Hq. repeat split; try done; lia. }
    unfold modify. cbn -[sendMessage dispatchLoop canSend].
    pose proof (closure_returns ps (with_pendingSends rest l)) as Hret.
    unfold completion, after in Hret.
    destruct (sendMessage ps None (with_pendingSends rest l)) as [[res l1] e1].
    simpl in Hret. destruct res as [[]| | |]; try done.
    specialize (Hret eq_refl).
    destruct Hret as (Hc & Hpos & Hid & Hsm & Hconn & Hflow & Hrest).
    cbn -[dispatchLoop canSend].
    specialize (IH l1). unfold completion, after in IH.
    destruct (dispatchLoop n None l1) as [[res2 l2] e2]. simpl in *.
    destruct res2 as [[]| | |]; try done. intros _.
    destruct (IH eq_refl) as (k & Hk & Hlen & Hdrop & Hcredit & Hbound & Hnext & Hsm2 & Hconn2 & Hflow2).
    exists (S k). rewrite Hrest in Hlen, Hdrop. simpl.
    repeat split; try done; try lia; congruence.
Qed.

Lemma closure_completes (ps : PendingSend) l (conn : ConnectionRef) :
  connection (session l) = Some conn ->
  canSend l = true ->
  fits conn ps ->
  completion (sendMessage ps None l) = Normal tt.
Proof.
  intros Hconn Hcan Hfits. apply canSend_true in Hcan as (Hsm & Hcredit & Hwin).
  destruct (_sendMessage_transmits (ps_message ps)
              (Buffer_from_string (pretty (ps_deliveryTag ps))) l conn)
    as (l1 & frames & Hrun & _); [done | lia | done | exact Hfits |].
  unfold sendMessage, completion, mbind, Run_bind. rewrite Hrun.
  run_unfold. by destruct (callback l1).
Qed.

Lemma dispatchLoop_completes (n : nat) l (conn : ConnectionRef) :
  connection (session l) = Some conn ->
  Forall (fits conn) (_pendingSends l) ->
  completion (dispatchLoop n None l) = Normal tt.
Proof.
  revert l. induction n as [|n IH]; intros l Hconn Hfits; cbn [dispatchLoop]; [done|].
  unfold mbind, mret, Run_bind, Run_ret, get, completion.
  cbn -[sendMessage dispatchLoop canSend].
  destruct (_pendingSends l) as [|ps rest] eqn:Hq; [done|].
  destruct (canSend l) eqn:Hcan; [|done].
  unfold modify. cbn -[sendMessage dispatchLoop canSend].
  apply Forall_cons in Hfits as [Hps Hrest].
  pose proof (closure_completes ps (with_pendingSends rest l) conn Hconn Hcan Hps) as Hdone.
  pose proof (closure_returns ps (with_pendingSends rest l) Hdone) as Hret.
  unfold completion, after in Hdone, Hret.
  destruct (sendMessage ps None (with_pendingSends rest l)) as [[res l1] e1].
  simpl in Hdone, Hret. subst res.
  destruct Hret as (_ & _ & _ & _ & Hconn1 & _ & Hq1).
  cbn -[dispatchLoop canSend].
  specialize (IH l1). unfold completion in IH.
  destruct (dispatchLoop n None l1) as [[res2 l2] e2]. simpl in *.
  rewrite IH; [done | congruence | by rewrite Hq1].
Qed.

End SenderMore.

(** ** Sender link: settlement *)

Section SenderSettlement.
Import SenderLink.
Context `{!SenderEnv}.

Implicit Types (l : SenderLink) (d : Disposition) (ps : PendingSend).

#[local] Abbreviation next l := (nextOutgoingId (_sessionParams (session l))).

#[local] Abbreviation room conn ps :=
  (0 < maxFrameSize conn -
       (FRAME_OVERHEAD +
        Z.of_nat (length (Buffer_from_string (pretty (ps_deliveryTag ps)))))).

(** The range that the code walks over, [first] to [last || first], is
    the range of the specification. *)
Lemma covers_rangeCovers d (id : Z) : covers d id = rangeCovers d id.
Proof.
  unfold covers, rangeCovers, last_or_first, number_or.
  destruct (last d) as [last_|]; [destruct (Z.eqb_spec last_ 0)|]; try done;
    destruct (Z.leb_spec (first d) id), (Z.leb_spec id (first d)),
             (Z.eqb_spec id (first d)); simpl; first [done | lia].
Qed.

Lemma find_ext {A} (f g : A -> bool) (xs : list A) :
  (forall x, f x = g x) -> List.find f xs = List.find g xs.
Proof.
  intros Hfg. induction xs as [|x xs IH]; simpl; [done|].
  rewrite Hfg. by destruct (g x).
Qed.

Lemma _sendMessage_callback m tag (cb : SenderCallbackPolicy) :
  preserves (fun l => callback l = cb) (_sendMessage m tag).
Proof. unfold _sendMessage. repeat preserves_step. Qed.

Lemma closure_callback ps err (cb : SenderCallbackPolicy) :
  preserves (fun l => callback l = cb) (sendMessage ps err).
Proof.
  unfold sendMessage. repeat first [apply _sendMessage_callback | preserves_step].
Qed.

(** The closure of a send, run without an error on a link that can
    send: besides the resolver it stores, it leaves of the link what
    the next closure needs. *)
Lemma closure_settle ps l (conn : ConnectionRef) :
  callback l = OnSettle ->
  connection (session l) = Some conn ->
  canSend l = true ->
  room conn ps ->
  exists l' frames,
    sendMessage ps None l = (Normal tt, l', SendFrame <$> frames) /\
    _unsettledSends l' = <[next l := mkResolver (ps_promise ps)]> (_unsettledSends l) /\
    _pendingSends l' = _pendingSends l /\
    callback l' = OnSettle /\
    connection (session l') = Some conn /\
    next l' = next l + 1.
Proof.
  intros Hcb Hconn Hcan Hroom.
  apply canSend_true in Hcan as (_ & Hcredit & Hwin).
  destruct (closure_registers ps l conn Hcb Hconn ltac:(lia) Hwin Hroom)
    as (l' & frames & Hrun & Hu).
  assert (Hdone : completion (sendMessage ps None l) = Normal tt) by (by rewrite Hrun).
  pose proof (closure_returns ps l Hdone) as Hret. cbv zeta in Hret.
  pose proof (closure_callback ps None OnSettle l Hcb) as Hkeep.
  rewrite Hrun in Hret, Hkeep. unfold after in Hret, Hkeep. simpl in Hret, Hkeep.
  destruct Hret as (_ & _ & Hnext & _ & Hc & _ & Hq).
  exists l', frames. split; [exact Hrun|]. split; [exact Hu|]. split; [exact Hq|].
  split; [exact Hkeep|]. split; [congruence | exact Hnext].
Qed.

(** The loop of [_dispatchPendingSends] on a link with the [OnSettle]
    policy: the closures it runs are the first [k] of the queue, and
    the [i]-th of them stores its resolver under the [i]-th delivery
    id from the next one on; no other entry of [_unsettledSends] is
    touched and no promise is settled. *)
Lemma dispatchLoop_registers (n : nat) l (conn : ConnectionRef) :
  callback l = OnSettle ->
  connection (session l) = Some conn ->
  Forall (fun ps => room conn ps) (_pendingSends l) ->
  exists l' frames (k : nat),
    dispatchLoop n None l = (Normal tt, l', SendFrame <$> frames) /\
    (k <= n)%nat /\
    _pendingSends l' = drop k (_pendingSends l) /\
    forall id,
      _unsettledSends l' !! id =
        if bool_decide (next l <= id < next l + Z.of_nat k)
        then (fun ps => mkResolver (ps_promise ps)) <$>
               (_pendingSends l !! Z.to_nat (id - next l))
        else _unsettledSends l !! id.
Proof.
  revert l. induction n as [|n IH]; intros l Hcb Hconn Hroom.
  - exists l, [], 0%nat. split; [done|]. split; [done|]. split; [done|].
    intros id. by rewrite bool_decide_eq_false_2 by lia.
  - cbn [dispatchLoop]. unfold mbind, mret, Run_bind, Run_ret, get.
    cbn -[sendMessage dispatchLoop canSend].
    destruct (_pendingSends l) as [|ps rest] eqn:Hq.
    { exists l, [], 0%nat. split; [done|]. split; [lia|]. split; [by rewrite Hq|].
      intros id. by rewrite bool_decide_eq_false_2 by lia. }
    destruct (canSend l) eqn:Hcan.
    2:{ exists l, [], 0%nat. split; [done|]. split; [lia|]. split; [by rewrite Hq|].
        intros id. by rewrite bool_decide_eq_false_2 by lia. }
    unfold modify. cbn -[sendMessage dispatchLoop canSend].
    apply Forall_cons in Hroom as [Hps Hrest].
    set (l0 := with_pendingSends rest l).
    destruct (closure_settle ps l0 conn) as (l1 & frames1 & Hrun1 & Hu1 & Hq1 & Hcb1 & Hconn1 & Hn1);
      [done | done | done | done |].
    rewrite Hrun1. cbn -[dispatchLoop].
    destruct (IH l1 Hcb1 Hconn1) as (l2 & frames2 & k & Hrun2 & Hk & Hq2 & Hu2).
    { by rewrite Hq1. }
    rewrite Hrun2. exists l2, (frames1 ++ frames2), (S k).
    split; [by rewrite fmap_app|]. split; [lia|].
    split; [by rewrite Hq2, Hq1|].
    intros id. rewrite Hu2, Hn1, Hq1, Hu1. simpl.
    change (next l0) with (next l). change (_unsettledSends l0) with (_unsettledSends l).
    destruct (decide (id = next l)) as [->|Hne].
    + rewrite bool_decide_eq_false_2 by lia. rewrite bool_decide_eq_true_2 by lia.
      rewrite lookup_insert_eq. by rewrite Z.sub_diag.
    + rewrite lookup_insert_ne by done.
      destruct (decide (next l + 1 <= id < next l + 1 + Z.of_nat k)) as [Hin|Hout].
      * rewrite !bool_decide_eq_true_2 by lia.
        replace (Z.to_nat (id - next l)) with (S (Z.to_nat (id - (next l + 1)))) by lia.
        done.
      * by rewrite !bool_decide_eq_false_2 by lia.
Qed.


End SenderSettlement.

(** ** Link: attach, detach and flow *)

Section LinkFacts.
Import SenderLink Link.
Context `{!SenderEnv} `{!LinkEnv}.

Implicit Types (l : Link).

Ltac link_unfold :=
  unfold react, attach, Link_attach, detach, forceDetach, _attachReceived,
         Link__attachReceived, _checkCredit, _detachReceived, _detached,
         Link__detached, _attemptReattach, _flowReceived, _sendDetach, sendFrame, fire;
  run_unfold.

Lemma resolveLoop_spec (n : nat) (err : AttachOutcome) (withLink : bool) l :
  (length (_onAttach l) <= n)%nat ->
  resolveLoop n err withLink l =
    (Normal tt, with_onAttach [] l,
     (fun callback => AttachCallback callback err withLink) <$> _onAttach l).
Proof.
  revert l. induction n as [|n IH]; intros l Hlen; cbn [resolveLoop].
  - destruct l as [s ap rp rh tbl q ts nm rl tc av dr dc idc]. simpl in *.
    destruct q; [done | simpl in Hlen; lia].
  - unfold mbind, mret, Run_bind, Run_ret, get, modify, emit.
    cbn -[resolveLoop].
    destruct (_onAttach l) as [|cb rest] eqn:Hq.
    + destruct l. simpl in *. by subst.
    + cbn -[resolveLoop]. rewrite IH by (simpl in *; lia).
      by destruct l.
Qed.

Lemma resolveAttachPromises_spec (err : AttachOutcome) (withLink : bool) l :
  _resolveAttachPromises err withLink l =
    (Normal tt, with_onAttach [] l,
     (fun callback => AttachCallback callback err withLink) <$> _onAttach l).
Proof.
  unfold _resolveAttachPromises, mbind, Run_bind, get. cbn -[resolveLoop].
  rewrite resolveLoop_spec by done. by destruct l.
Qed.

Lemma dispatch_blocked err (s : SenderLink) :
  canSend s = false -> _dispatchPendingSends err s = (Normal tt, s, []).
Proof.
  intros Hcan. unfold _dispatchPendingSends, mbind, Run_bind, get.
  cbn -[dispatchLoop canSend].
  destruct (_pendingSends s) as [|ps rest] eqn:Hq; simpl; [done|].
  unfold mbind, Run_bind, get. cbn -[dispatchLoop canSend sendMessage].
  by rewrite Hq, Hcan.
Qed.

Lemma canSend_not_attached (s : SenderLink) :
  linkSM s <> ATTACHED -> canSend s = false.
Proof.
  intros Hs. unfold canSend, state_. by rewrite bool_decide_eq_false_2.
Qed.


(** The state machine after a detach frame came in, and the answering
    detach frame. *)
Lemma detachReceived_fire l :
  (linkSM (sender l) = ATTACHED -> is_Some (connection (session (sender l)))) ->
  (fire ev_detachReceived;;
   l' ← get;
   if bool_decide (linkSM (sender l') = DETACHING) then fire ev_detached else mret tt) l
  = (Normal tt,
     with_linkSM (match linkSM (sender l) with ATTACHING => ATTACHING | _ => DETACHED end) l,
     if bool_decide (linkSM (sender l) = ATTACHED)
     then [SendDetach (handle (sender l)) (channel (session (sender l))) true]
     else []).
Proof.
  intros Hconn.
  destruct l as [s ap rp rh tbl q ts nm rl tc av dr dc idc].
  destruct s as [ses h st cb credit pend unset pc]. simpl in Hconn.
  destruct st; simpl bool_decide; cbv iota.
  - repeat progress link_unfold. done.
  - repeat progress link_unfold. done.
  - destruct Hconn as [conn Hconn]; [done|].
    repeat progress link_unfold. rewrite Hconn. repeat progress link_unfold. done.
  - repeat progress link_unfold. done.
Qed.

Lemma Link__detached_run (frame : DetachInfo) l :
  (_timeouts l = Some [] -> is_Some (reattachPolicy l)) ->
  Link__detached (Some frame) l
  = (Normal tt,
     with_timeouts (reattachment l).1
       (with_onAttach []
          (with_remoteHandle None
             (match remoteHandle l with
              | Some remote => delete remote (_linksByRemoteHandle l)
              | None => _linksByRemoteHandle l
              end) l)),
     match d_error frame with Some e => [Emit (ErrorReceived e)] | None => [] end ++
     [Emit (Detached (d_closed frame) (d_error frame))] ++
     ((fun callback =>
         AttachCallback callback
           (match d_error frame with Some e => AttachError e | None => LinkClosed end) false)
        <$> _onAttach l) ++
     (reattachment l).2).
Proof.
  intros Hwf. unfold Link__detached, reattachment.
  unfold mbind, mret, Run_bind, Run_ret, get, modify, emit.
  destruct l as [s ap rp rh tbl q ts nm rl tc av dr dc idc]. simpl in Hwf.
  destruct frame as [closed [e|]], rh as [remote|];
    cbn -[_resolveAttachPromises shouldReattach];
    rewrite resolveAttachPromises_spec; cbn -[shouldReattach];
    (destruct ts as [[|t ts]|];
     [ destruct Hwf as [policy ->]; [done|]; cbn; destruct (forever policy); cbn;
       by rewrite ?app_nil_r
     | cbn; by rewrite ?app_nil_r
     | cbn; by rewrite ?app_nil_r ]).
Qed.


Lemma liftSender_blocked err l :
  canSend (sender l) = false ->
  liftSender (_dispatchPendingSends err) l = (Normal tt, l, []).
Proof.
  intros Hcan. unfold liftSender. rewrite dispatch_blocked by done.
  by destruct l.
Qed.

(** All of a received detach frame. *)
Lemma detachReceived_run (frame : DetachInfo) l :
  (linkSM (sender l) = ATTACHED -> is_Some (connection (session (sender l)))) ->
  (_timeouts l = Some [] -> is_Some (reattachPolicy l)) ->
  let next := match linkSM (sender l) with ATTACHING => ATTACHING | _ => DETACHED end in
  react (OnDetach frame) l
  = (Normal tt,
     with_timeouts (reattachment l).1
       (with_onAttach []
          (with_remoteHandle None
             (match remoteHandle l with
              | Some remote => delete remote (_linksByRemoteHandle l)
              | None => _linksByRemoteHandle l
              end) (with_linkSM next l))),
     (if bool_decide (linkSM (sender l) = ATTACHED)
      then [SendDetach (handle (sender l)) (channel (session (sender l))) true]
      else []) ++
     match d_error frame with Some e => [Emit (ErrorReceived e)] | None => [] end ++
     [Emit (Detached (d_closed frame) (d_error frame))] ++
     ((fun callback =>
         AttachCallback callback
           (match d_error frame with Some e => AttachError e | None => LinkClosed end) false)
        <$> _onAttach l) ++
     (reattachment l).2).
Proof.
  intros Hconn Hwf next.
  pose proof (detachReceived_fire l Hconn) as Hfire. fold next in Hfire.
  unfold react, _detachReceived.
  assert (Hassoc : forall (k : option DetachInfo -> Run Link Effect unit),
            (fire ev_detachReceived;;
             l' ← get;
             (if bool_decide (linkSM (sender l') = DETACHING)
              then fire ev_detached else mret tt);;
             k (Some frame)) l
            = ((fire ev_detachReceived;;
                l' ← get;
                if bool_decide (linkSM (sender l') = DETACHING)
                then fire ev_detached else mret tt);; k (Some frame)) l).
  { intros k. unfold mbind, Run_bind, get.
    destruct (fire ev_detachReceived l) as [[r1 l1] e1].
    destruct r1 as [[]| | |]; try done. simpl.
    destruct ((if bool_decide (linkSM (sender l1) = DETACHING)
               then fire ev_detached else mret tt) l1) as [[r2 l2] e2].
    destruct r2 as [[]| | |]; try done.
    destruct (k (Some frame) l2) as [[r3 l3] e3]. simpl. by rewrite app_assoc. }
  rewrite Hassoc. unfold mbind at 1, Run_bind at 1. rewrite Hfire.
  set (l1 := with_linkSM next l).
  assert (Hst : linkSM (sender l1) <> ATTACHED)
    by (subst l1 next; simpl; by destruct (linkSM (sender l))).
  assert (Hwf1 : _timeouts l1 = Some [] -> is_Some (reattachPolicy l1)) by exact Hwf.
  unfold _detached, mbind, Run_bind.
  rewrite (Link__detached_run frame l1 Hwf1).
  set (l2 := with_timeouts _ _).
  assert (Hst2 : canSend (sender l2) = false)
    by (apply canSend_not_attached; exact Hst).
  destruct frame as [closed [e|]]; cbn -[liftSender].
  - rewrite (liftSender_blocked (Some e) l2 Hst2). cbn. by rewrite !app_nil_r.
  - cbn. by rewrite !app_nil_r.
Qed.


Lemma timers_app (e1 e2 : list Effect) : timers (e1 ++ e2) = timers e1 ++ timers e2.
Proof. apply omap_app. Qed.

Lemma senderEffects_app (e1 e2 : list Effect) :
  senderEffects (e1 ++ e2) = senderEffects e1 ++ senderEffects e2.
Proof. apply omap_app. Qed.

Lemma detachFrames_app (e1 e2 : list Effect) :
  detachFrames (e1 ++ e2) = detachFrames e1 ++ detachFrames e2.
Proof. apply omap_app. Qed.

(** X19: A detach frame from the peer: an attached link answers with
    one detach frame that closes the link, a link in any other state
    sends none; the link ends DETACHED (a link that was still
    attaching stays ATTACHING). It forgets its remote handle and gives
    up its entry in the table of the session, hands the error of the
    frame, if there is one, to the listeners of [ErrorReceived] before
    it emits [Detached], and calls every waiting attach callback once,
    in order, with that error or with 'link closed' and without a
    link. *)
Theorem X19_detach_received (frame : DetachInfo) l :
  (linkSM (sender l) = ATTACHED -> is_Some (connection (session (sender l)))) ->
  (_timeouts l = Some [] -> is_Some (reattachPolicy l)) ->
  let r := react (OnDetach frame) l in
  completion r = Normal tt /\
  linkSM (sender (after r))
    = match linkSM (sender l) with ATTACHING => ATTACHING | _ => DETACHED end /\
  detachFrames (effects r)
    = (if bool_decide (linkSM (sender l) = ATTACHED)
       then [(handle (sender l), channel (session (sender l)), true)] else []) /\
  remoteHandle (after r) = None /\
  (forall remote, remoteHandle l = Some remote ->
     _linksByRemoteHandle (after r) = delete remote (_linksByRemoteHandle l)) /\
  omap (fun e => match e with Emit ev => Some ev | _ => None end) (effects r)
    = match d_error frame with Some e => [ErrorReceived e] | None => [] end ++
      [Detached (d_closed frame) (d_error frame)] /\
  _onAttach (after r) = [] /\
  omap (fun e => match e with
                 | AttachCallback callback err withLink => Some (callback, err, withLink)
                 | _ => None
                 end) (effects r)
    = (fun callback =>
         (callback,
          match d_error frame with Some e => AttachError e | None => LinkClosed end,
          false)) <$> _onAttach l.
Proof.
  intros Hconn Hwf r. subst r. rewrite detachReceived_run by done.
  unfold completion, after, effects. cbn [fst snd].
  assert (Hcb : forall (q : list nat) err,
            omap (fun e => match e with
                           | AttachCallback callback err withLink =>
                               Some (callback, err, withLink)
                           | _ => None
                           end)
                 ((fun callback => AttachCallback callback err false) <$> q)
            = (fun callback => (callback, err, false)) <$> q).
  { intros q err. induction q as [|cb q IH]; csimpl; [done | by rewrite IH]. }
  assert (Hcb' : forall (q : list nat) err,
            omap (fun e => match e with Emit ev => Some ev | _ => None end)
                 ((fun callback => AttachCallback callback err false) <$> q) = []).
  { intros q err. induction q as [|cb q IH]; csimpl; [done | by rewrite IH]. }
  assert (Hcb'' : forall (q : list nat) err,
            detachFrames ((fun callback => AttachCallback callback err false) <$> q) = []).
  { intros q err. induction q as [|cb q IH]; csimpl; [done | exact IH]. }
  assert (Htimer : (reattachment l).2 = [] \/ exists ms, (reattachment l).2 = [SetTimeout ms]).
  { unfold reattachment. destruct (_timeouts l) as [[|t ts]|]; simpl; auto.
    - destruct (reattachPolicy l) as [policy|]; simpl; auto.
      destruct (forever policy); simpl; eauto.
    - eauto. }
  split; [done|]. split; [by destruct l|]. split.
  { rewrite !detachFrames_app, Hcb''.
    destruct Htimer as [-> | [ms ->]];
      by destruct (bool_decide _), (d_error frame). }
  split; [by destruct l|]. split; [by intros remote ->; destruct l|]. split.
  { rewrite !omap_app, Hcb'.
    destruct Htimer as [-> | [ms ->]];
      by destruct (bool_decide _), (d_error frame). }
  split; [by destruct l|].
  rewrite !omap_app, Hcb.
  destruct Htimer as [-> | [ms ->]];
    destruct (bool_decide _), (d_error frame); simpl; by rewrite ?app_nil_r.
Qed.

(** X20: A detach frame from the peer settles no send, although
    [_detached] of the sender link calls [_dispatchPendingSends] with
    the error of the frame: the link is no longer attached by then,
    [canSend] is false and the loop does not run. The queued sends
    stay in the queue, the unsettled ones stay unsettled, no promise is
    rejected and no frame is sent for them. *)
Theorem X20_detach_keeps_queued_sends (frame : DetachInfo) l :
  (linkSM (sender l) = ATTACHED -> is_Some (connection (session (sender l)))) ->
  (_timeouts l = Some [] -> is_Some (reattachPolicy l)) ->
  let r := react (OnDetach frame) l in
  senderEffects (effects r) = [] /\
  _pendingSends (sender (after r)) = _pendingSends (sender l) /\
  _unsettledSends (sender (after r)) = _unsettledSends (sender l) /\
  linkCredit (sender (after r)) = linkCredit (sender l) /\
  canSend (sender (after r)) = false.
Proof.
  intros Hconn Hwf r. subst r. rewrite detachReceived_run by done.
  unfold after, effects. cbn [fst snd].
  assert (Hcb : forall (q : list nat) err,
            senderEffects ((fun callback => AttachCallback callback err false) <$> q) = []).
  { intros q err. induction q as [|cb q IH]; csimpl; [done | exact IH]. }
  assert (Htimer : (reattachment l).2 = [] \/ exists ms, (reattachment l).2 = [SetTimeout ms]).
  { unfold reattachment. destruct (_timeouts l) as [[|t ts]|]; simpl; auto.
    - destruct (reattachPolicy l) as [policy|]; simpl; auto.
      destruct (forever policy); simpl; eauto.
    - eauto. }
  split.
  { rewrite !senderEffects_app, Hcb.
    destruct Htimer as [-> | [ms ->]];
      by destruct (bool_decide _), (d_error frame). }
  split; [by destruct l|]. split; [by destruct l|]. split; [by destruct l|].
  apply canSend_not_attached. destruct l as [s ? ? ? ? ? ? ? ? ? ? ? ? ?]. simpl.
  by destruct (linkSM s).
Qed.

(** X21: After a detach frame the link sets at most one reattach
    timer: none without timeouts, one with the first of the remaining
    timeouts, which it takes off the list; and when the list is used
    up, none unless the policy says [forever], in which case the list
    is generated anew and its first entry used. *)
Theorem X21_reattach_timer (frame : DetachInfo) l :
  (linkSM (sender l) = ATTACHED -> is_Some (connection (session (sender l)))) ->
  (_timeouts l = Some [] -> is_Some (reattachPolicy l)) ->
  let r := react (OnDetach frame) l in
  match _timeouts l with
  | None => timers (effects r) = [] /\ _timeouts (after r) = None
  | Some (t :: ts) => timers (effects r) = [Some t] /\ _timeouts (after r) = Some ts
  | Some [] =>
      exists policy, reattachPolicy l = Some policy /\
        if forever policy
        then timers (effects r) = [head (generateTimeouts policy)] /\
             _timeouts (after r) = Some (tail (generateTimeouts policy))
        else timers (effects r) = [] /\ _timeouts (after r) = Some []
  end.
Proof.
  intros Hconn Hwf r. subst r. rewrite detachReceived_run by done.
  unfold after, effects. cbn [fst snd].
  assert (Hcb : forall (q : list nat) err,
            timers ((fun callback => AttachCallback callback err false) <$> q) = []).
  { intros q err. induction q as [|cb q IH]; csimpl; [done | exact IH]. }
  assert (Hpre : forall tail_,
            timers ((if bool_decide (linkSM (sender l) = ATTACHED)
                     then [SendDetach (handle (sender l)) (channel (session (sender l))) true]
                     else []) ++
                    match d_error frame with Some e => [Emit (ErrorReceived e)] | None => [] end ++
                    [Emit (Detached (d_closed frame) (d_error frame))] ++
                    ((fun callback =>
                        AttachCallback callback
                          (match d_error frame with
                           | Some e => AttachError e | None => LinkClosed end) false)
                       <$> _onAttach l) ++ tail_) = timers tail_).
  { intros tail_. rewrite !timers_app, Hcb.
    by destruct (bool_decide _), (d_error frame). }
  rewrite Hpre. unfold reattachment.
  destruct (_timeouts l) as [[|t ts]|] eqn:Hts.
  - destruct Hwf as [policy Hpolicy]; [done|]. exists policy. split; [done|].
    rewrite Hpolicy. destruct (forever policy); by destruct l.
  - by destruct l.
  - by destruct l.
Qed.


(** A method sets no timer and leaves a link without timeouts without
    them. *)
#[local] Abbreviation quiet m :=
  (forall l : Link, _timeouts l = None ->
     _timeouts (after ((m : Run Link Effect _) l)) = None /\
     timers (effects ((m : Run Link Effect _) l)) = []).

Lemma quiet_ret {A} (a : A) : quiet (mret a : Run Link Effect A).
Proof. by intros l Hl. Qed.

Lemma quiet_get : quiet (get : Run Link Effect Link).
Proof. by intros l Hl. Qed.

Lemma quiet_throw {A} (e : JsError) : quiet (throw e : Run Link Effect A).
Proof. by intros l Hl. Qed.

Lemma quiet_diverge {A} : quiet (diverge : Run Link Effect A).
Proof. by intros l Hl. Qed.

Lemma quiet_outOfFuel {A} : quiet (outOfFuel : Run Link Effect A).
Proof. by intros l Hl. Qed.

Lemma quiet_emit (es : list Effect) : timers es = [] -> quiet (emit es).
Proof. by intros Hes l Hl. Qed.

Lemma quiet_modify (f : Link -> Link) :
  (forall l, _timeouts l = None -> _timeouts (f l) = None) -> quiet (modify f).
Proof. intros Hf l Hl. split; [by apply Hf | done]. Qed.

Lemma quiet_bind {A B} (m : Run Link Effect A) (k : A -> Run Link Effect B) :
  quiet m -> (forall a, quiet (k a)) -> quiet (m ≫= k).
Proof.
  intros Hm Hk l Hl. destruct (Hm l Hl) as [H1 H2].
  unfold mbind, Run_bind, after, effects in *.
  destruct (m l) as [[r l1] e1]. simpl in H1, H2.
  destruct r as [a| | |]; simpl; try done.
  destruct (Hk a l1 H1) as [H3 H4]. unfold after, effects in *.
  destruct (k a l1) as [[r2 l2] e2]. simpl in *.
  split; [done|]. by rewrite timers_app, H2, H4.
Qed.

Lemma quiet_liftSender {A} (m : Run SenderLink SenderLink.Effect A) : quiet (liftSender m).
Proof.
  intros l Hl. unfold liftSender, after, effects.
  destruct (m (sender l)) as [[r s] eff]. simpl. split; [done|].
  induction eff as [|e eff IH]; csimpl; [done | exact IH].
Qed.

Ltac quiet_step :=
  match goal with
  | |- forall l, _timeouts l = None ->
         _timeouts (after (?m l)) = None /\ timers (effects (?m l)) = [] =>
      lazymatch m with
      | mbind _ _ => apply quiet_bind; [|intros ?]
      | mret _ => apply quiet_ret
      | emit _ => apply quiet_emit; reflexivity
      | throw _ => apply quiet_throw
      | diverge => apply quiet_diverge
      | outOfFuel => apply quiet_outOfFuel
      | get => apply quiet_get
      | liftSender _ => apply quiet_liftSender
      | modify _ => apply quiet_modify; intros [] ?; first [assumption | reflexivity]
      | (if ?b then _ else _) => destruct b
      | (match ?x with _ => _ end) => destruct x
      end
  end.

Lemma sendFrame_quiet (frame : Effect) : timers [frame] = [] -> quiet (sendFrame frame).
Proof.
  intros Hf. unfold sendFrame. apply quiet_bind; [apply quiet_get|]. intros l'.
  destruct (connection _); [by apply quiet_emit | apply quiet_throw].
Qed.

Lemma sendDetach_quiet : quiet _sendDetach.
Proof.
  unfold _sendDetach. apply quiet_bind; [apply quiet_get|]. intros l'.
  by apply sendFrame_quiet.
Qed.

Lemma fire_quiet (ev : LinkEvent) : quiet (fire ev).
Proof.
  unfold fire. apply quiet_bind; [apply quiet_get|]. intros l'.
  destruct (linkSM (sender l')), ev; cbn [handler];
    repeat first [apply sendDetach_quiet | quiet_step].
Qed.

Lemma resolveAttachPromises_quiet err withLink : quiet (_resolveAttachPromises err withLink).
Proof.
  intros l Hl. rewrite resolveAttachPromises_spec. unfold after, effects. cbn [fst snd].
  split; [by destruct l|].
  induction (_onAttach l) as [|cb q IH]; csimpl; [done | exact IH].
Qed.

Lemma Link__detached_quiet (frame : DetachInfo) : quiet (Link__detached (Some frame)).
Proof.
  intros l Hl. rewrite Link__detached_run by (rewrite Hl; done).
  unfold after, effects, reattachment. cbn [fst snd]. rewrite Hl. cbn [fst snd].
  split; [by destruct l|].
  rewrite !timers_app.
  assert (Hcb : forall (q : list nat) err,
            timers ((fun callback => AttachCallback callback err false) <$> q) = []).
  { intros q err. induction q as [|cb q IH]; csimpl; [done | exact IH]. }
  rewrite Hcb. by destruct (d_error frame).
Qed.

Lemma react_quiet (i : Input) : quiet (react i).
Proof.
  destruct i; cbn [react];
    unfold attach, Link_attach, detach, forceDetach, _attachReceived,
           Link__attachReceived, _checkCredit, _detachReceived, _detached,
           _attemptReattach, _flowReceived;
    repeat first
      [ apply fire_quiet
      | apply sendDetach_quiet
      | apply sendFrame_quiet; reflexivity
      | apply resolveAttachPromises_quiet
      | apply Link__detached_quiet
      | quiet_step ].
Qed.

Lemma reactAll_quiet (inputs : list Input) : quiet (reactAll inputs).
Proof.
  induction inputs as [|i inputs IH]; cbn [reactAll].
  - apply quiet_ret.
  - apply quiet_bind; [apply react_quiet | intros _; exact IH].
Qed.

(** X22: [detach] disables the reattach policy for good: it sets no
    timer, and whatever reaches the link afterwards, detach frames
    from the peer or another [attach] included, no reattach timer is
    set any more. *)
Theorem X22_detach_disables_reattach l (inputs : list Input) :
  let l0 := after (react CallDetach l) in
  _timeouts l0 = None /\
  timers (effects (react CallDetach l)) = [] /\
  timers (effects (reactAll inputs l0)) = [] /\
  _timeouts (after (reactAll inputs l0)) = None.
Proof.
  intros l0.
  assert (Hdetach : _timeouts l0 = None /\ timers (effects (react CallDetach l)) = []).
  { subst l0. cbn [react]. unfold detach.
    set (rest := emit [DetachPromise];; fire ev_sendDetach;; _sendDetach).
    assert (Hq : quiet rest).
    { subst rest. repeat first [apply fire_quiet | apply sendDetach_quiet | quiet_step]. }
    unfold mbind, Run_bind, modify, after, effects. cbn [fst snd].
    specialize (Hq (with_timeouts None l) ltac:(by destruct l)).
    unfold after, effects in Hq.
    destruct (rest (with_timeouts None l)) as [[r2 l2] e2]. exact Hq. }
  destruct Hdetach as [Hnone Hquiet]. split; [done|]. split; [done|].
  destruct (reactAll_quiet inputs l0 Hnone) as [? ?]. done.
Qed.


Lemma canSend_no_credit (s : SenderLink) : linkCredit s <= 0 -> canSend s = false.
Proof.
  intros Hc. unfold canSend. destruct (negb _); [done|].
  destruct (Z.leb_spec 1 (linkCredit s)); [lia | done].
Qed.

(** X23: [attach] followed by the attach frame of the peer: the attach
    frame is sent on the channel of the session, the link becomes
    ATTACHED and is entered in the table of the session under the
    remote handle, [Attached] is emitted and the waiting attach
    callbacks are called in order with the link. No queued send goes
    out yet: [attach] has set the credit to 0, and
    [_dispatchPendingSends] finds [canSend] false. *)
Theorem X23_attach_releases_nothing l (frame : AttachFrame) (remote : Z) (conn : ConnectionRef) :
  connection (session (sender l)) = Some conn ->
  newAttachFrame (attachPolicy l) = Normal frame ->
  let r := reactAll [CallAttach; OnAttach remote] l in
  completion r = Normal tt /\
  effects r =
    [SendAttach frame (channel (session (sender l))); Emit Attached] ++
    ((fun callback => AttachCallback callback AttachOk true) <$> _onAttach l) /\
  linkSM (sender (after r))
    = match linkSM (sender l) with DETACHED | ATTACHING => ATTACHED | st => st end /\
  linkCredit (sender (after r)) = 0 /\
  totalCredits (after r) = 0 /\
  _pendingSends (sender (after r)) = _pendingSends (sender l) /\
  _unsettledSends (sender (after r)) = _unsettledSends (sender l) /\
  remoteHandle (after r) = Some remote /\
  _linksByRemoteHandle (after r) !! remote = Some (handle (sender l)) /\
  _onAttach (after r) = [].
Proof.
  intros Hconn Hframe r. subst r.
  destruct l as [s ap rp rh tbl q ts nm rl tc av dr dc idc].
  destruct s as [ses h st cb credit pend unset pc]. simpl in Hconn, Hframe.
  set (st1 := match st with DETACHED => ATTACHING | _ => st end).
  set (l1 := mkLink (mkSenderLink ses h st1 cb 0 pend unset pc) ap rp rh tbl q ts
               (Some (af_name frame)) (Some (af_role frame)) 0 0 false 0
               (initialDeliveryCountOf ap)).
  assert (H1 : react CallAttach
                 (mkLink (mkSenderLink ses h st cb credit pend unset pc)
                    ap rp rh tbl q ts nm rl tc av dr dc idc)
               = (Normal tt, l1, [SendAttach frame (channel ses)])).
  { subst l1 st1. destruct st; repeat progress link_unfold;
      rewrite Hframe; repeat progress link_unfold; rewrite Hconn; done. }
  set (st2 := match st with DETACHED | ATTACHING => ATTACHED | _ => st end).
  set (l2 := mkLink (mkSenderLink ses h st2 cb 0 pend unset pc) ap rp (Some remote)
               (<[remote := h]> tbl) [] ts
               (Some (af_name frame)) (Some (af_role frame)) 0 0 false 0
               (initialDeliveryCountOf ap)).
  assert (H2 : react (OnAttach remote) l1
               = (Normal tt, l2,
                  Emit Attached ::
                  ((fun callback => AttachCallback callback AttachOk true) <$> q))).
  { cbn [react]. unfold _attachReceived, Link__attachReceived, _checkCredit.
    unfold mbind, mret, Run_bind, Run_ret, modify, emit.
    assert (Hfire : fire ev_attachReceived l1
                    = (Normal tt,
                       mkLink (mkSenderLink ses h st2 cb 0 pend unset pc) ap rp rh tbl q ts
                         (Some (af_name frame)) (Some (af_role frame)) 0 0 false 0
                         (initialDeliveryCountOf ap), [])).
    { subst l1 st1 st2. by destruct st. }
    rewrite Hfire. cbn -[_resolveAttachPromises liftSender].
    rewrite resolveAttachPromises_spec. cbn -[liftSender].
    rewrite liftSender_blocked by (apply canSend_no_credit; simpl; lia).
    cbn. by rewrite !app_nil_r. }
  cbn [reactAll]. unfold mbind, mret, Run_bind, Run_ret.
  rewrite H1, H2. unfold completion, after, effects. cbn [fst snd].
  repeat split; try done.
  - simpl. by rewrite app_nil_r.
  - subst l2 st2. simpl. by destruct st.
  - subst l2. simpl. apply lookup_insert_eq.
Qed.

(** X24: A flow frame for the link sets the credit and adds it to the
    total; then queued sends go out from the head of the queue, one
    credit and one delivery id each, no more than the credit allows,
    until the queue is empty or [canSend] is false. On an attached link
    without session flow control their number is the smaller of the
    credit and the length of the queue. *)
Theorem X24_flow_releases_queue l (flowFrame : FlowInfo) (h : Z) (conn : ConnectionRef) :
  f_handle flowFrame = Some h ->
  connection (session (sender l)) = Some conn ->
  Forall (fits conn) (_pendingSends (sender l)) ->
  let r := react (OnFlow flowFrame) l in
  completion r = Normal tt /\
  totalCredits (after r) = totalCredits l + f_linkCredit flowFrame /\
  exists k : nat,
    _pendingSends (sender (after r)) = drop k (_pendingSends (sender l)) /\
    linkCredit (sender (after r)) = f_linkCredit flowFrame - Z.of_nat k /\
    Z.of_nat k <= Z.max 0 (f_linkCredit flowFrame) /\
    nextOutgoingId (_sessionParams (session (sender (after r))))
      = nextOutgoingId (_sessionParams (session (sender l))) + Z.of_nat k /\
    (_pendingSends (sender (after r)) = [] \/ canSend (sender (after r)) = false) /\
    (linkSM (sender l) = ATTACHED ->
     enableSessionFlowControl (session (sender l)) = false ->
     0 <= f_linkCredit flowFrame ->
     Z.of_nat k = Z.min (f_linkCredit flowFrame)
                        (Z.of_nat (length (_pendingSends (sender l))))).
Proof.
  intros Hhandle Hconn Hfits r. subst r.
  destruct l as [s ap rp rh tbl q ts nm rl tc av dr dc idc].
  destruct s as [ses hd st cb credit pend unset pc]. simpl in Hconn, Hfits.
  set (s1 := mkSenderLink ses hd st cb (f_linkCredit flowFrame) pend unset pc).
  pose proof (dispatchLoop_completes (length pend) s1 conn Hconn Hfits) as Hdone.
  pose proof (dispatchLoop_accounting (length pend) s1 Hdone) as Hacc.
  pose proof (dispatchLoop_exit (length pend) None s1 (le_n _) Hdone) as Hexit.
  cbv zeta in Hacc.
  cbn [react]. unfold _flowReceived. rewrite Hhandle.
  unfold liftSender, _dispatchPendingSends.
  unfold mbind, mret, Run_bind, Run_ret, modify, emit, get.
  cbn -[dispatchLoop canSend].
  fold s1. unfold completion, after, effects in *.
  destruct (dispatchLoop (length pend) None s1) as [[res s2] eff2].
  cbn -[canSend] in *. subst res. split; [done|]. split; [done|].
  destruct Hacc as (k & _ & Hlen & Hdrop & Hcredit & Hbound & Hnext & Hsm & Hconn2 & Hflow).
  exists k. repeat split; try done.
  intros Hst Hflow0 Hpos. subst st.
  destruct Hexit as [Hempty | Hblocked].
  - rewrite Hempty in Hdrop. symmetry in Hdrop. apply drop_nil_inv in Hdrop. lia.
  - assert (Hnot : ~ (1 <= linkCredit s2)).
    { intros Hge. apply not_true_iff_false in Hblocked. apply Hblocked.
      apply canSend_true. split; [done|]. split; [done|].
      rewrite Hflow, Hflow0. discriminate. }
    lia.
Qed.

End LinkFacts.

(** ** Connection: the table of sessions *)

Section SessionFacts.
Import Connection.
Context {Session : Type}.
Implicit Types (e : Endpoint Session) (s : Session).

Lemma nextChannelLoop_Some (n : nat) (cid : Z) e (k : Z) :
  nextChannelLoop n cid e = Some k ->
  cid <= k < cid + Z.of_nat n /\ sessionAt e k = None /\
  forall j, cid <= j < k -> sessionAt e j <> None.
Proof.
  revert cid. induction n as [|n IH]; intros cid; cbn [nextChannelLoop]; [done|].
  destruct (sessionAt e cid) as [s|] eqn:Hat.
  - intros Hk. apply IH in Hk as (Hrange & Hfree & Hbusy).
    split; [lia|]. split; [done|]. intros j Hj.
    destruct (decide (j = cid)) as [->|]; [by rewrite Hat | apply Hbusy; lia].
  - intros [= <-]. split; [lia|]. split; [done|]. intros j Hj. lia.
Qed.

Lemma nextChannelLoop_None (n : nat) (cid : Z) e :
  nextChannelLoop n cid e = None ->
  forall j, cid <= j < cid + Z.of_nat n -> sessionAt e j <> None.
Proof.
  revert cid. induction n as [|n IH]; intros cid; cbn [nextChannelLoop]; [lia|].
  destruct (sessionAt e cid) as [s|] eqn:Hat; [|done].
  intros Hn j Hj.
  destruct (decide (j = cid)) as [->|]; [by rewrite Hat | apply (IH _ Hn); lia].
Qed.

Lemma nextChannelLoop_ext (n : nat) (cid : Z) e e' :
  (forall j, sessionAt e j = sessionAt e' j) ->
  nextChannelLoop n cid e = nextChannelLoop n cid e'.
Proof.
  intros Hext. revert cid. induction n as [|n IH]; intros cid; cbn [nextChannelLoop]; [done|].
  rewrite Hext. destruct (sessionAt e' cid); [apply IH | done].
Qed.

Lemma sessionAt_insert e (k j : Z) (v : option Session) :
  sessionAt (mkEndpoint (conn e) (<[k := v]> (_sessions e))) j
  = if bool_decide (j = k) then v else sessionAt e j.
Proof.
  unfold sessionAt. simpl. case_bool_decide as Hj.
  - subst. by rewrite lookup_insert_eq.
  - by rewrite lookup_insert_ne.
Qed.

(** The two methods in terms of the loop. *)
Lemma nextChannel_run e :
  _nextChannel e =
    (match nextChannelLoop (Z.to_nat (channelMax (_params (conn e)))) 1 e with
     | Some cid => Normal cid
     | None =>
         Throw (mkJsError OverCapacityError
                  ("Out of available " +:+ pretty (channelMax (_params (conn e)))
                   +:+ " channels"))
     end, e, []).
Proof.
  unfold _nextChannel. run_unfold. by destruct (nextChannelLoop _ 1 e).
Qed.

Lemma associateSession_run s e :
  associateSession s e =
    match nextChannelLoop (Z.to_nat (channelMax (_params (conn e)))) 1 e with
    | Some cid =>
        (Normal cid, mkEndpoint (conn e) (<[cid := Some s]> (_sessions e)), [])
    | None =>
        (Throw (mkJsError OverCapacityError
                  ("Out of available " +:+ pretty (channelMax (_params (conn e)))
                   +:+ " channels")), e, [])
    end.
Proof.
  unfold associateSession, mbind, Run_bind. rewrite nextChannel_run.
  by destruct (nextChannelLoop _ 1 e).
Qed.

Lemma dissociateSession_run (channel : Z) e :
  dissociateSession channel e
  = (Normal tt, mkEndpoint (conn e) (<[channel := None]> (_sessions e)), []).
Proof. reflexivity. Qed.

(** X7: [_nextChannel] answers with the lowest channel from 1 to
    [channelMax] that has no session, and throws an
    [OverCapacityError] exactly when each of them has one. It changes
    nothing. *)
Theorem X7_nextChannel_lowest_free e :
  let channelMax := channelMax (_params (conn e)) in
  after (_nextChannel e) = e /\ effects (_nextChannel e) = [] /\
  match completion (_nextChannel e) with
  | Normal cid =>
      1 <= cid <= channelMax /\ sessionAt e cid = None /\
      forall j, 1 <= j < cid -> sessionAt e j <> None
  | Throw err =>
      errorClass err = OverCapacityError /\
      forall j, 1 <= j <= channelMax -> sessionAt e j <> None
  | _ => False
  end.
Proof.
  intros channelMax. rewrite nextChannel_run. unfold after, effects, completion. simpl.
  split; [done|]. split; [done|].
  destruct (nextChannelLoop _ 1 e) as [cid|] eqn:Hloop.
  - apply nextChannelLoop_Some in Hloop as (Hrange & Hfree & Hbusy).
    split; [lia|]. by split.
  - split; [done|]. intros j Hj.
    apply (nextChannelLoop_None _ _ _ Hloop). lia.
Qed.

(** X8: [associateSession] puts the session under the lowest channel
    from 1 to [channelMax] that had none and answers with that channel;
    the sessions under the other channels stay where they are. When
    every channel has a session it throws an [OverCapacityError] and
    leaves the table as it was. *)
Theorem X8_associateSession_lowest_free s e :
  let channelMax := channelMax (_params (conn e)) in
  let r := associateSession s e in
  effects r = [] /\ conn (after r) = conn e /\
  match completion r with
  | Normal cid =>
      1 <= cid <= channelMax /\ sessionAt e cid = None /\
      (forall j, 1 <= j < cid -> sessionAt e j <> None) /\
      sessionAt (after r) cid = Some s /\
      forall j, j <> cid -> sessionAt (after r) j = sessionAt e j
  | Throw err =>
      errorClass err = OverCapacityError /\ after r = e /\
      forall j, 1 <= j <= channelMax -> sessionAt e j <> None
  | _ => False
  end.
Proof.
  intros channelMax r. subst r. rewrite associateSession_run.
  destruct (nextChannelLoop _ 1 e) as [cid|] eqn:Hloop;
    unfold after, effects, completion; simpl.
  - apply nextChannelLoop_Some in Hloop as (Hrange & Hfree & Hbusy).
    split; [done|]. split; [done|]. split; [lia|]. split; [done|]. split; [done|].
    split.
    + rewrite sessionAt_insert. by rewrite bool_decide_eq_true_2.
    + intros j Hj. rewrite sessionAt_insert. by rewrite bool_decide_eq_false_2.
  - split; [done|]. split; [done|]. split; [done|]. split; [done|].
    intros j Hj. apply (nextChannelLoop_None _ _ _ Hloop). lia.
Qed.

(** X9: A channel that [dissociateSession] has given up is free again:
    the next [associateSession] succeeds with that channel or a lower
    one; and a session that is dissociated right after it was
    associated leaves the table as it was for the next one, which gets
    the same channel. *)
Theorem X9_dissociateSession_frees_channel s e (channel : Z) :
  let e1 := after (dissociateSession channel e) in
  (sessionAt e1 channel = None /\
   forall j, j <> channel -> sessionAt e1 j = sessionAt e j) /\
  (1 <= channel <= channelMax (_params (conn e)) ->
   exists cid, completion (associateSession s e1) = Normal cid /\ cid <= channel) /\
  (forall s0 cid,
     completion (associateSession s0 e) = Normal cid ->
     completion (associateSession s (after (dissociateSession cid
                                              (after (associateSession s0 e)))))
       = Normal cid).
Proof.
  intros e1. subst e1. rewrite dissociateSession_run. unfold after. simpl.
  assert (Hfree : sessionAt (mkEndpoint (conn e) (<[channel := None]> (_sessions e))) channel
                  = None)
    by (rewrite sessionAt_insert; by rewrite bool_decide_eq_true_2).
  split; [split; [exact Hfree|]|split].
  - intros j Hj. rewrite sessionAt_insert. by rewrite bool_decide_eq_false_2.
  - intros Hrange. rewrite associateSession_run. simpl.
    destruct (nextChannelLoop _ 1 _) as [cid|] eqn:Hloop.
    + apply nextChannelLoop_Some in Hloop as (_ & _ & Hbusy).
      exists cid. split; [done|].
      destruct (Z.le_gt_cases cid channel) as [|Hgt]; [done|].
      exfalso. apply (Hbusy channel); [lia | exact Hfree].
    + exfalso. apply (nextChannelLoop_None _ _ _ Hloop channel); [lia | exact Hfree].
  - intros s0 cid. rewrite (associateSession_run s0 e).
    destruct (nextChannelLoop _ 1 e) as [cid'|] eqn:Hloop; [|done].
    unfold completion at 1. simpl. intros [= ->].
    rewrite associateSession_run. simpl.
    pose proof (nextChannelLoop_Some _ _ _ _ Hloop) as (_ & Hwas & _).
    set (e2 := mkEndpoint (conn e) (<[cid := None]> (<[cid := Some s0]> (_sessions e)))).
    assert (Hext : forall j, sessionAt e2 j = sessionAt e j).
    { intros j. unfold e2, sessionAt. simpl. rewrite insert_insert_eq.
      destruct (decide (j = cid)) as [->|Hj].
      - rewrite lookup_insert_eq. simpl. symmetry. exact Hwas.
      - by rewrite lookup_insert_ne. }
    by rewrite (nextChannelLoop_ext _ _ e2 e Hext), Hloop.
Qed.

End SessionFacts.

(** ** Connection: the transport, closing and the handshakes *)

Section WiredFacts.
Import Connection.
Context `{!ConnEnv}.
Implicit Types (c : Connection).

Ltac conn_unfold :=
  unfold open, close, fire, _receiveData, _tryReceiveHeader, _tryReceiveFrame,
         _connect, sendHeader, sendFrame, _sendOpenFrame, _sendCloseFrame,
         _terminate, _processError, _processCloseFrame;
  run_unfold.

Lemma safe_ret {A} (a : A) : safe (mret a).
Proof. intros c Hc. split; [exact Hc | simpl; auto]. Qed.

Lemma safe_get : safe get.
Proof. intros c Hc. split; [exact Hc | simpl; auto]. Qed.

Lemma safe_emit (es : list Effect) : safe (emit es).
Proof. intros c Hc. split; [exact Hc | simpl; auto]. Qed.

Lemma safe_outOfFuel {A} : safe (outOfFuel : Run Connection Effect A).
Proof. intros c Hc. split; [exact Hc | simpl; auto]. Qed.

Lemma safe_modify (f : Connection -> Connection) :
  (forall c, connSM (f c) = connSM c /\ _transport (f c) = _transport c) ->
  safe (modify f).
Proof.
  intros Hf c Hc. split; [|simpl; auto]. unfold after, modify, wired in *. simpl.
  destruct (Hf c) as [-> ->]. exact Hc.
Qed.

Lemma safe_bind {A B} (m : Run Connection Effect A) (k : A -> Run Connection Effect B) :
  safe m -> (forall a, safe (k a)) -> safe (m ≫= k).
Proof.
  intros Hm Hk c Hc. destruct (Hm c Hc) as [Hw Hno].
  unfold mbind, Run_bind, after, completion in *.
  destruct (m c) as [[r c1] e1]. simpl in Hw, Hno.
  destruct r as [a| | |]; simpl; try (split; assumption).
  destruct (Hk a c1 Hw) as [Hw2 Hno2]. unfold after, completion in *.
  destruct (k a c1) as [[r2 c2] e2]. split; assumption.
Qed.

Lemma fire_safe (ev : SMEvent) (args : EventArgs) : safe (fire ev args).
Proof.
  intros c Hc. unfold wired in *.
  destruct c as [st tr cn buf hb ps rh sa ad cs]. simpl in Hc.
  destruct st, ev; try (split; [simpl; auto | simpl; auto]; fail);
    destruct Hc as [Hc|[Hc|Hc]]; try discriminate Hc; subst;
    destruct args as [|a s|[s|]|d];
    try destruct (getTransportFor (protocol a)) eqn:Hget;
    destruct hb; try destruct tr;
    unfold after, completion; repeat progress conn_unfold;
    rewrite ?Hget; simpl; (split; [auto | first [tauto | discriminate]]).
Qed.


Ltac safe_step :=
  match goal with
  | |- safe (mbind _ _) => apply safe_bind; [|intros ?]
  | |- safe (mret _) => apply safe_ret
  | |- safe (emit _) => apply safe_emit
  | |- safe outOfFuel => apply safe_outOfFuel
  | |- safe get => apply safe_get
  | |- safe (fire _ _) => apply fire_safe
  | |- safe (modify _) => apply safe_modify; intros []; split; reflexivity
  | |- safe (if ?b then _ else _) => destruct b
  | |- safe (match ?x with _ => _ end) => destruct x
  end.

Lemma tryReceiveHeader_safe header : safe (_tryReceiveHeader header).
Proof. unfold _tryReceiveHeader. repeat safe_step. Qed.

Lemma tryReceiveFrame_safe : safe _tryReceiveFrame.
Proof. unfold _tryReceiveFrame. repeat safe_step. Qed.

Lemma processCloseFrame_safe error : safe (_processCloseFrame error).
Proof. unfold _processCloseFrame. repeat safe_step. Qed.

Lemma processOpenFrame_safe (receiveAny : Run Connection Effect unit) frame :
  safe receiveAny -> safe (_processOpenFrame receiveAny frame).
Proof.
  intros Hrec. unfold _processOpenFrame, _ensureLocaleCompatibility.
  repeat first [safe_step | exact Hrec].
Qed.

Lemma receiveAny_safe (fuel : nat) : safe (_receiveAny fuel).
Proof.
  induction fuel as [|fuel IH]; cbn [_receiveAny].
  - apply safe_outOfFuel.
  - repeat first
      [ exact IH
      | apply tryReceiveHeader_safe
      | apply tryReceiveFrame_safe
      | apply processCloseFrame_safe
      | apply processOpenFrame_safe
      | safe_step ].
Qed.

Lemma react_safe (fuel : nat) (i : Input) : safe (react fuel i).
Proof.
  destruct i; simpl; unfold open, close, _receiveData, _saslComplete;
    repeat first [apply receiveAny_safe | safe_step].
Qed.

Lemma reachable_wired c : reachable c -> wired c.
Proof.
  induction 1 as [options|c fuel i _ IH].
  - by left.
  - by apply react_safe.
Qed.

(** X10: Whatever calls of [open] and [close], events of the transport
    and answers of the SASL driver a new connection has seen, the next
    one does not fail for a missing transport: [sendHeader] and
    [sendFrame] find [_transport] set whenever they are reached. And a
    connection that is left without its transport is in the state
    DISCONNECTED or DISCONNECTING. *)
Theorem X10_never_writes_without_transport c (fuel : nat) (i : Input) :
  reachable c ->
  ~ throwsTypeError (completion (react fuel i c)) /\
  (_transport (after (react fuel i c)) = false ->
   connSM (after (react fuel i c)) = DISCONNECTED \/
   connSM (after (react fuel i c)) = DISCONNECTING).
Proof.
  intros Hreach. pose proof (reachable_wired c Hreach) as Hw.
  destruct (react_safe fuel i c Hw) as [Hafter Hno]. split; [exact Hno|].
  intros Hnone. destruct Hafter as [?|[?|Htr]]; auto. congruence.
Qed.


(** X11: An error or the end of the transport is ignored by a
    connection in the state DISCONNECTED. In every other state it
    tears the connection down: an error is first handed to the
    listeners of [ErrorReceived]; the transport, if there is one, is
    ended (and destroyed after an error) and given up; the heartbeat
    timer, if set, is cleared; [Disconnected] is emitted once and the
    state is DISCONNECTED. *)
Theorem X11_transport_failure_tears_down c (fuel : nat) (failure : option string) :
  let i := match failure with Some d => OnError d | None => OnEnd end in
  let ev := match failure with Some _ => ev_error | None => ev_terminated end in
  let r := react fuel i c in
  if bool_decide (connSM c = DISCONNECTED) then r = (Normal tt, c, [])
  else
    completion r = Normal tt /\
    effects r =
      match failure with
      | Some d => [Emit (ErrorReceived (WrappedTransportError d))]
      | None => []
      end ++
      (if _transport c
       then TransportEnd :: (if failure is Some _ then [TransportDestroy] else [])
       else []) ++
      (if _heartbeatInterval c then [ClearInterval] else []) ++
      [Emit Disconnected; Transition ev (connSM c) DISCONNECTED] /\
    connSM (after r) = DISCONNECTED /\
    _transport (after r) = false /\
    connected (after r) = false /\
    _heartbeatInterval (after r) = false.
Proof.
  intros i ev r. subst i ev r.
  destruct c as [st tr cn buf hb ps rh sa ad cs].
  destruct failure as [d|], st; simpl bool_decide; cbv iota;
    try reflexivity;
    destruct tr, hb; unfold completion, effects, after, react;
    repeat progress conn_unfold; done.
Qed.


Lemma tryReceiveFrame_frame c (f : Frame) (rest : list byte) :
  FrameReader_read (_buffer c) = (ReadFrame f, rest) ->
  _tryReceiveFrame c = (Normal (Some f), with_buffer rest c, []).
Proof. intros Hread. unfold _tryReceiveFrame. run_unfold. by rewrite Hread. Qed.

Lemma tryReceiveFrame_undefined c (rest : list byte) :
  FrameReader_read (_buffer c) = (ReadUndefined, rest) ->
  _tryReceiveFrame c = (Normal None, with_buffer rest c, []).
Proof. intros Hread. unfold _tryReceiveFrame. run_unfold. by rewrite Hread. Qed.

(** One turn of the loop of [_receiveAny] on a close frame, after the
    header exchange and without SASL. *)
Lemma receiveAny_close c (error : option AMQPError) (rest : list byte) (fuel : nat) :
  sasl c = None ->
  _receivedHeader c = true ->
  FrameReader_read (_buffer c) = (ReadFrame (CloseFrame error), rest) ->
  _receiveAny (S fuel) c = _processCloseFrame error (with_buffer rest c).
Proof.
  intros Hsasl Hhdr Hread. cbn [_receiveAny].
  unfold mbind, mret, Run_bind, Run_ret, get.
  cbn -[_tryReceiveFrame _processCloseFrame _receiveAny].
  rewrite Hsasl, Hhdr. cbn -[_tryReceiveFrame _processCloseFrame _receiveAny].
  rewrite (tryReceiveFrame_frame c _ rest Hread).
  cbn -[_processCloseFrame _receiveAny].
  destruct (_processCloseFrame error (with_buffer rest c)) as [[res c1] eff1].
  destruct res as [[]| | |]; simpl; by rewrite ?app_nil_r.
Qed.

(** X12: The peer closes an opened connection: the close frame is
    answered with a close frame without an error, the transport is
    ended and given up, [Disconnected] is emitted, the state goes
    through CLOSE_RCVD to DISCONNECTED, and the error of the peer's
    frame, if it has one, is handed to the listeners of
    [ErrorReceived] after all that. The loop of [_receiveAny] stops:
    what follows the close frame stays in the buffer. *)
Theorem X12_peer_close c (error : option AMQPError) (rest : list byte) (fuel : nat) :
  connSM c = OPENED ->
  _transport c = true ->
  sasl c = None ->
  _receivedHeader c = true ->
  FrameReader_read (_buffer c) = (ReadFrame (CloseFrame error), rest) ->
  (0 < fuel)%nat ->
  let r := _receiveAny fuel c in
  completion r = Normal tt /\
  effects r =
    [Transition ev_closeReceived OPENED CLOSE_RCVD;
     WriteFrame (CloseFrame None); TransportEnd] ++
    (if _heartbeatInterval c then [ClearInterval] else []) ++
    [Emit Disconnected; Transition ev_sendClose CLOSE_RCVD DISCONNECTED] ++
    match error with
    | Some e => [Emit (ErrorReceived (WrappedAMQPError e))]
    | None => []
    end /\
  connSM (after r) = DISCONNECTED /\
  _transport (after r) = false /\
  connected (after r) = false /\
  _buffer (after r) = rest.
Proof.
  intros Hst Htr Hsasl Hhdr Hread Hfuel r. subst r.
  destruct fuel as [|fuel]; [lia|].
  rewrite (receiveAny_close c error rest fuel Hsasl Hhdr Hread).
  destruct c as [st tr cn buf hb ps rh sa ad cs]. simpl in *. subst.
  unfold completion, effects, after, with_buffer. simpl.
  destruct hb, error; repeat progress conn_unfold; done.
Qed.

(** X13: [close] on an opened connection sends a close frame and
    waits in CLOSE_SENT with the transport kept; the transport is
    ended and the state becomes DISCONNECTED when the close frame of
    the peer comes in. *)
Theorem X13_local_close c (error : option AMQPError) (b rest : list byte) (fuel : nat) :
  connSM c = OPENED ->
  _transport c = true ->
  sasl c = None ->
  _receivedHeader c = true ->
  FrameReader_read (_buffer c ++ b) = (ReadFrame (CloseFrame error), rest) ->
  (0 < fuel)%nat ->
  let r1 := react fuel CallClose c in
  let r2 := react fuel (OnData b) (after r1) in
  (completion r1 = Normal tt /\
   effects r1 = [WriteFrame (CloseFrame None); Transition ev_sendClose OPENED CLOSE_SENT] /\
   connSM (after r1) = CLOSE_SENT /\
   _transport (after r1) = true) /\
  (completion r2 = Normal tt /\
   effects r2 =
     [TransportEnd] ++
     (if _heartbeatInterval c then [ClearInterval] else []) ++
     [Emit Disconnected; Transition ev_closeReceived CLOSE_SENT DISCONNECTED] ++
     match error with
     | Some e => [Emit (ErrorReceived (WrappedAMQPError e))]
     | None => []
     end /\
   connSM (after r2) = DISCONNECTED /\
   _transport (after r2) = false).
Proof.
  intros Hst Htr Hsasl Hhdr Hread Hfuel r1 r2. subst r1 r2.
  destruct fuel as [|fuel]; [lia|].
  destruct c as [st tr cn buf hb ps rh sa ad cs]. simpl in Hst, Htr, Hsasl, Hhdr, Hread.
  subst.
  assert (Hr1 : react (S fuel) CallClose
                  (mkConnection OPENED true cn buf hb ps true None ad cs)
                = (Normal tt, mkConnection CLOSE_SENT true cn buf hb ps true None ad cs,
                   [WriteFrame (CloseFrame None);
                    Transition ev_sendClose OPENED CLOSE_SENT])).
  { unfold react. repeat progress conn_unfold. done. }
  rewrite Hr1. unfold completion at 1, effects at 1, after at 1 2 3. simpl fst. simpl snd.
  split; [done|].
  unfold react, _receiveData, mbind, Run_bind, modify.
  cbn -[_receiveAny].
  rewrite (receiveAny_close _ error rest fuel); [|done|done|exact Hread].
  unfold completion, effects, after, with_buffer. simpl.
  destruct hb, error; repeat progress conn_unfold; done.
Qed.

(** X14: [close] does something in the states OPEN_SENT, OPENED and
    CLOSE_RCVD only. In every other state, while the headers are
    exchanged or SASL is negotiated for instance, it is ignored:
    nothing is sent, no timer is cleared, and the connection stays as
    it is. *)
Theorem X14_close_ignored_elsewhere c :
  connSM c <> OPEN_SENT -> connSM c <> OPENED -> connSM c <> CLOSE_RCVD ->
  close c = (Normal tt, c, []).
Proof.
  intros H1 H2 H3. destruct c as [st tr cn buf hb ps rh sa ad cs]. simpl in *.
  destruct st; try done.
Qed.


#[local] Arguments bufferEquals : simpl never.
#[local] Arguments Buffer_slice : simpl never.
#[local] Arguments toHex : simpl never.
#[local] Arguments String.append : simpl never.

(** One turn of the loop of [_receiveAny] on an open frame and on a
    buffer without a frame, after the header exchange and without
    SASL. *)
Lemma receiveAny_open c (fields : OpenFields) (rest : list byte) (fuel : nat) :
  sasl c = None ->
  _receivedHeader c = true ->
  FrameReader_read (_buffer c) = (ReadFrame (OpenFrame fields), rest) ->
  _receiveAny (S fuel) c
  = (_processOpenFrame (_receiveAny fuel) fields;; _receiveAny fuel) (with_buffer rest c).
Proof.
  intros Hsasl Hhdr Hread. cbn [_receiveAny].
  unfold mbind, mret, Run_bind, Run_ret, get.
  cbn -[_tryReceiveFrame _processOpenFrame _receiveAny].
  rewrite Hsasl, Hhdr. cbn -[_tryReceiveFrame _processOpenFrame _receiveAny].
  rewrite (tryReceiveFrame_frame c _ rest Hread).
  cbn -[_processOpenFrame _receiveAny].
  destruct (_processOpenFrame (_receiveAny fuel) fields (with_buffer rest c))
    as [[res c1] eff1].
  destruct res as [[]| | |]; simpl; try done.
  rewrite app_nil_r. by destruct (_receiveAny fuel c1) as [[res2 c2] eff2].
Qed.

Lemma receiveAny_undefined c (rest : list byte) (fuel : nat) :
  sasl c = None ->
  _receivedHeader c = true ->
  FrameReader_read (_buffer c) = (ReadUndefined, rest) ->
  _receiveAny (S fuel) c = (Normal tt, with_buffer rest c, []).
Proof.
  intros Hsasl Hhdr Hread. cbn [_receiveAny].
  unfold mbind, mret, Run_bind, Run_ret, get.
  cbn -[_tryReceiveFrame _receiveAny].
  rewrite Hsasl, Hhdr. cbn -[_tryReceiveFrame _receiveAny].
  by rewrite (tryReceiveFrame_undefined c rest Hread).
Qed.

(** What [_processOpenFrame] does on a connection that has its
    transport, with nothing left in the buffer. *)
Lemma processOpenFrame_run c (frame : OpenFields) (receiveAny : Run Connection Effect unit) :
  _buffer c = [] ->
  _transport c = true ->
  let negotiated :=
    mkParams
      (Z.max (Z.min (maxFrameSize (_params c))
                    (number_or (of_maxFrameSize frame) defaultMaxFrameSize))
             minMaxFrameSize)
      (Z.min (channelMax (_params c)) (number_or (of_channelMax frame) defaultChannelMax))
      (Z.min (idleTimeout (_params c)) (number_or (of_idleTimeout frame) defaultIdleTimeout)) in
  let next :=
    match connSM c with
    | HDR_EXCH | OPEN_RCVD | OPEN_SENT => OPENED
    | st => st
    end in
  _processOpenFrame receiveAny frame c =
    (Normal tt,
     mkConnection next true true [] true negotiated
       (_receivedHeader c) (sasl c) (address c) (connectSasl c),
     match connSM c with
     | HDR_EXCH =>
         [Transition ev_openReceived HDR_EXCH OPEN_RCVD;
          WriteFrame (OpenFrame (mkOpenFields (Some (maxFrameSize (_params c)))
                                   (Some (channelMax (_params c)))
                                   (Some (idleTimeout (_params c))) false false));
          Transition ev_sendOpen OPEN_RCVD OPENED]
     | OPEN_RCVD =>
         [WriteFrame (OpenFrame (mkOpenFields (Some (maxFrameSize (_params c)))
                                   (Some (channelMax (_params c)))
                                   (Some (idleTimeout (_params c))) false false));
          Transition ev_sendOpen OPEN_RCVD OPENED]
     | OPEN_SENT => [Transition ev_openReceived OPEN_SENT OPENED]
     | _ => []
     end ++
     [SetInterval (idleTimeout negotiated / 8); Emit Connected]).
Proof.
  intros Hbuf Htr negotiated next. subst negotiated next.
  unfold _processOpenFrame, _ensureLocaleCompatibility.
  destruct c as [st tr cn buf hb ps rh sa ad cs]. simpl in Hbuf, Htr. subst.
  destruct st; repeat progress conn_unfold;
    destruct (of_outgoingLocales frame), (of_incomingLocales frame); done.
Qed.


Lemma receiveAny_header c (fuel : nat) :
  sasl c = None ->
  _receivedHeader c = false ->
  _receiveAny (S fuel) c
  = (more ← _tryReceiveHeader None; if more : bool then _receiveAny fuel else mret tt) c.
Proof.
  intros Hsasl Hhdr. cbn [_receiveAny].
  unfold mbind, mret, Run_bind, Run_ret, get.
  cbn -[_tryReceiveHeader _receiveAny].
  rewrite Hsasl, Hhdr. cbn [negb].
  destruct (_tryReceiveHeader None c) as [[res c1] e1].
  destruct res as [[]| | |]; try done.
  by destruct (_receiveAny fuel c1) as [[res2 c2] e2].
Qed.

(** The header of the peer arrives after ours was sent, and it is the
    AMQP header: the open frame goes out. *)
Lemma tryReceiveHeader_valid c (rest : list byte) :
  connSM c = HDR_SENT ->
  _transport c = true ->
  sasl c = None ->
  _buffer c = amqpVersion ++ rest ->
  _tryReceiveHeader None c =
    (Normal true,
     mkConnection OPEN_SENT true (connected c) rest (_heartbeatInterval c) (_params c)
       true None (address c) (connectSasl c),
     [Transition ev_validVersion HDR_SENT HDR_EXCH;
      WriteFrame (OpenFrame (mkOpenFields (Some (maxFrameSize (_params c)))
                               (Some (channelMax (_params c)))
                               (Some (idleTimeout (_params c))) false false));
      Transition ev_sendOpen HDR_EXCH OPEN_SENT]).
Proof.
  intros Hst Htr Hsasl Hbuf.
  destruct c as [st tr cn buf hb ps rh sa ad cs]. simpl in *. subst.
  repeat progress conn_unfold. done.
Qed.

(** X15: The handshake without SASL, from a new connection: [open]
    connects the transport, the event [connect] of the transport sends
    the AMQP header, and the header of the peer followed by its open
    frame makes the connection send its own open frame with its
    parameters, negotiate, start the heartbeat timer and emit
    [Connected]. The states passed are START, HDR_SENT, HDR_EXCH,
    OPEN_SENT and OPENED. *)
Theorem X15_handshake (options : ConnectOptions) (a : Address) (rest : list byte)
    (peer : OpenFields) (fuel : nat) :
  getTransportFor (protocol a) = true ->
  FrameReader_read rest = (ReadFrame (OpenFrame peer), []) ->
  FrameReader_read [] = (ReadUndefined, []) ->
  (3 <= fuel)%nat ->
  let c0 := newConnection options in
  let r := reactAll fuel [CallOpen a None; OnConnect; OnData (amqpVersion ++ rest)] c0 in
  let negotiated :=
    mkParams
      (Z.max (Z.min (maxFrameSize (_params c0))
                    (number_or (of_maxFrameSize peer) defaultMaxFrameSize))
             minMaxFrameSize)
      (Z.min (channelMax (_params c0)) (number_or (of_channelMax peer) defaultChannelMax))
      (Z.min (idleTimeout (_params c0)) (number_or (of_idleTimeout peer) defaultIdleTimeout)) in
  completion r = Normal tt /\
  effects r =
    [TransportConnect a; Transition ev_connect DISCONNECTED START;
     TransportWrite amqpVersion; Transition ev_connected START HDR_SENT;
     Transition ev_validVersion HDR_SENT HDR_EXCH;
     WriteFrame (OpenFrame (mkOpenFields (Some (maxFrameSize (_params c0)))
                              (Some (channelMax (_params c0)))
                              (Some (idleTimeout (_params c0))) false false));
     Transition ev_sendOpen HDR_EXCH OPEN_SENT;
     Transition ev_openReceived OPEN_SENT OPENED;
     SetInterval (idleTimeout negotiated / 8);
     Emit Connected] /\
  connSM (after r) = OPENED /\
  connected (after r) = true /\
  _params (after r) = negotiated /\
  _buffer (after r) = [].
Proof.
  intros Htransport Hopen Hempty Hfuel c0 r negotiated.
  destruct fuel as [|[|[|fuel]]]; try lia.
  set (p0 := _params c0) in *.
  (* open and connect *)
  set (c2 := mkConnection HDR_SENT true false [] false p0 false None (Some a) None).
  assert (H12 : reactAll (S (S (S fuel))) [CallOpen a None; OnConnect] c0
                = (Normal tt, c2,
                   [TransportConnect a; Transition ev_connect DISCONNECTED START;
                    TransportWrite amqpVersion; Transition ev_connected START HDR_SENT])).
  { subst c0 c2 p0. unfold reactAll, react, newConnection.
    do 2 conn_unfold. rewrite Htransport. repeat progress conn_unfold. done. }
  (* the data *)
  set (c3 := mkConnection OPEN_SENT true false rest false p0 true None (Some a) None).
  assert (H3 : react (S (S (S fuel))) (OnData (amqpVersion ++ rest)) c2
               = (Normal tt,
                  mkConnection OPENED true true [] true negotiated true None (Some a) None,
                  [Transition ev_validVersion HDR_SENT HDR_EXCH;
                   WriteFrame (OpenFrame (mkOpenFields (Some (maxFrameSize p0))
                                            (Some (channelMax p0))
                                            (Some (idleTimeout p0)) false false));
                   Transition ev_sendOpen HDR_EXCH OPEN_SENT;
                   Transition ev_openReceived OPEN_SENT OPENED;
                   SetInterval (idleTimeout negotiated / 8);
                   Emit Connected])).
  { unfold react, _receiveData, mbind, Run_bind, modify.
    cbn -[_receiveAny amqpVersion].
    rewrite receiveAny_header by done.
    unfold mbind, Run_bind.
    rewrite (tryReceiveHeader_valid _ rest) by done.
    cbn -[_receiveAny].
    rewrite (receiveAny_open _ peer []) by done.
    unfold mbind, Run_bind.
    rewrite processOpenFrame_run by done.
    cbn -[_receiveAny].
    rewrite (receiveAny_undefined _ []) by done.
    done. }
  assert (Hr : r = (Normal tt,
                    mkConnection OPENED true true [] true negotiated true None (Some a) None,
                    [TransportConnect a; Transition ev_connect DISCONNECTED START;
                     TransportWrite amqpVersion; Transition ev_connected START HDR_SENT;
                     Transition ev_validVersion HDR_SENT HDR_EXCH;
                     WriteFrame (OpenFrame (mkOpenFields (Some (maxFrameSize p0))
                                              (Some (channelMax p0))
                                              (Some (idleTimeout p0)) false false));
                     Transition ev_sendOpen HDR_EXCH OPEN_SENT;
                     Transition ev_openReceived OPEN_SENT OPENED;
                     SetInterval (idleTimeout negotiated / 8);
                     Emit Connected])).
  { subst r. revert H12. cbn [reactAll]. unfold mbind, mret, Run_bind, Run_ret.
    destruct (react (S (S (S fuel))) (CallOpen a None) c0) as [[res1 c1] eff1].
    destruct res1 as [[]| | |]; try done.
    destruct (react (S (S (S fuel))) OnConnect c1) as [[res2 c2'] eff2].
    destruct res2 as [[]| | |]; try done.
    intros [= -> Heff]. rewrite H3. simpl.
    rewrite app_nil_r in Heff. by rewrite app_assoc, Heff. }
  rewrite Hr. done.
Qed.


(** X16: [_processOpenFrame] negotiates [channelMax] and [idleTimeout]
    as the smaller of the own value and the peer's (the default where
    the peer gives none or 0), so neither grows; it marks the
    connection connected, emits [Connected] once and starts the
    heartbeat timer with an eighth of the negotiated idle timeout. *)
Theorem X16_open_frame_negotiation c (frame : OpenFields) (receiveAny : Run Connection Effect unit) :
  _buffer c = [] ->
  _transport c = true ->
  let r := _processOpenFrame receiveAny frame c in
  completion r = Normal tt /\
  channelMax (_params (after r))
    = Z.min (channelMax (_params c)) (number_or (of_channelMax frame) defaultChannelMax) /\
  idleTimeout (_params (after r))
    = Z.min (idleTimeout (_params c)) (number_or (of_idleTimeout frame) defaultIdleTimeout) /\
  channelMax (_params (after r)) <= channelMax (_params c) /\
  idleTimeout (_params (after r)) <= idleTimeout (_params c) /\
  connected (after r) = true /\
  _heartbeatInterval (after r) = true /\
  emitted (effects r) = [Connected] /\
  omap (fun e => match e with SetInterval ms => Some ms | _ => None end) (effects r)
    = [idleTimeout (_params (after r)) / 8].
Proof.
  intros Hbuf Htr r. subst r. rewrite processOpenFrame_run by done.
  unfold completion, after, effects. cbn [fst snd _params channelMax idleTimeout
    connected _heartbeatInterval].
  repeat split; try lia; by destruct (connSM c).
Qed.

(** X17: While SASL is negotiated, what comes in does not reach the
    connection itself: whatever the buffer holds, [_receiveAny] hands
    the header to the SASL driver and the frames to the listeners of
    [FrameReceived], open and close frames included, and leaves the
    state, the parameters, the transport and the [connected] flag as
    they are. (What the driver and the listeners do in answer is not
    part of the run: they reach the connection through
    [_saslComplete].) *)
Theorem X17_sasl_isolation c (fuel : nat) :
  is_Some (sasl c) ->
  let r := _receiveAny fuel c in
  connSM (after r) = connSM c /\
  _params (after r) = _params c /\
  connected (after r) = connected c /\
  _transport (after r) = _transport c /\
  is_Some (sasl (after r)) /\
  Forall saslTraffic (effects r).
Proof.
  revert c. induction fuel as [|fuel IH]; intros c Hsasl; [by repeat split|].
  destruct Hsasl as [s Hsasl].
  assert (Hstep : forall (res : bool) c1 eff1,
            connSM c1 = connSM c -> _params c1 = _params c ->
            connected c1 = connected c -> _transport c1 = _transport c ->
            is_Some (sasl c1) -> Forall saslTraffic eff1 ->
            let r := (let '(r2, c2, eff2) :=
                        (if res then _receiveAny fuel else mret tt) c1 in
                      (r2, c2, eff1 ++ eff2)) in
            connSM (after r) = connSM c /\ _params (after r) = _params c /\
            connected (after r) = connected c /\ _transport (after r) = _transport c /\
            is_Some (sasl (after r)) /\ Forall saslTraffic (effects r)).
  { intros res c1 eff1 H1 H2 H3 H4 H5 H6. destruct res.
    - specialize (IH c1 H5). cbv zeta in IH. unfold after, effects in *.
      destruct (_receiveAny fuel c1) as [[r2 c2] eff2]. simpl in *.
      destruct IH as (-> & -> & -> & -> & ? & ?).
      repeat split; try done. by apply Forall_app.
    - unfold after, effects. simpl. rewrite app_nil_r. done. }
  assert (Hbuf : forall b, is_Some (sasl (with_buffer b c)))
    by (intros b; simpl; rewrite Hsasl; by eexists).
  cbn [_receiveAny]. unfold mbind, Run_bind, get.
  cbn -[_tryReceiveHeader _tryReceiveFrame _receiveAny].
  rewrite Hsasl. destruct (receivedHeader s) eqn:Hrh; cbn [negb].
  - (* frames *)
    unfold _tryReceiveFrame. unfold mbind, mret, Run_bind, Run_ret, get, modify, emit.
    cbn -[_receiveAny with_buffer].
    destruct (FrameReader_read (_buffer c)) as [[f| |e] rest]; cbn -[_receiveAny with_buffer].
    + specialize (Hstep true (with_buffer rest c) [Emit (FrameReceived f)]).
      cbv zeta in Hstep. unfold after, effects in *.
      destruct (_receiveAny fuel (with_buffer rest c)) as [[r2 c2] eff2].
      cbn -[with_buffer] in *. apply Hstep; try done. by repeat constructor.
    + unfold after, effects. cbn -[with_buffer]. repeat split; done.
    + unfold after, effects. cbn -[with_buffer]. repeat split; try done.
      by repeat constructor.
  - (* the SASL header *)
    unfold _tryReceiveHeader. unfold mbind, mret, Run_bind, Run_ret, get, modify, emit.
    cbn -[_receiveAny Buffer_slice saslVersion with_buffer with_sasl].
    destruct (length saslVersion <=? length (_buffer c))%nat;
      cbn -[_receiveAny Buffer_slice with_buffer with_sasl].
    + rewrite Hsasl. cbn -[_receiveAny Buffer_slice with_buffer with_sasl].
      set (c1 := with_sasl _ _).
      specialize (Hstep true c1 [SaslHeaderReceived (Buffer_slice (_buffer c) 0 8)]).
      cbv zeta in Hstep. unfold after, effects in *.
      destruct (_receiveAny fuel c1) as [[r2 c2] eff2].
      cbn -[with_buffer with_sasl] in *. apply Hstep; try done.
      by repeat constructor.
    + unfold after, effects. cbn. repeat split; try done.
Qed.


(** X18: With a SASL driver, [open] and the event [connect] of the
    transport start the negotiation and send no header: the state is
    IN_SASL. The AMQP header goes out when the driver reports success,
    and the connection then waits for the header of the peer without
    the driver. When the driver reports an error, the error is handed
    to the listeners of [ErrorReceived] and the connection is torn
    down, the transport ended and destroyed. *)
Theorem X18_sasl_handshake (options : ConnectOptions) (a : Address) (s : Sasl) (fuel : nat) :
  getTransportFor (protocol a) = true ->
  let r1 := reactAll fuel [CallOpen a (Some s); OnConnect] (newConnection options) in
  let r2 := react fuel (OnSaslComplete None) (after r1) in
  (completion r1 = Normal tt /\
   effects r1 = [TransportConnect a; Transition ev_connect DISCONNECTED START;
                 SaslNegotiate; Transition ev_connected START IN_SASL] /\
   connSM (after r1) = IN_SASL /\
   sasl (after r1) = Some s) /\
  (completion r2 = Normal tt /\
   effects r2 = [TransportWrite amqpVersion; Transition ev_success IN_SASL HDR_SENT] /\
   connSM (after r2) = HDR_SENT /\
   sasl (after r2) = None /\
   _receivedHeader (after r2) = false) /\
  (forall description,
     let r3 := react fuel (OnSaslComplete (Some description)) (after r1) in
     completion r3 = Normal tt /\
     effects r3 = [Emit (ErrorReceived (WrappedTransportError description));
                   TransportEnd; TransportDestroy; Emit Disconnected;
                   Transition ev_error IN_SASL DISCONNECTED] /\
     connSM (after r3) = DISCONNECTED /\
     sasl (after r3) = None).
Proof.
  intros Htransport r1 r2.
  assert (Hr1 : r1 = (Normal tt,
                      mkConnection IN_SASL true false [] false
                        (_params (newConnection options)) false (Some s) (Some a) (Some s),
                      [TransportConnect a; Transition ev_connect DISCONNECTED START;
                       SaslNegotiate; Transition ev_connected START IN_SASL])).
  { subst r1. unfold reactAll, react, newConnection.
    do 2 conn_unfold. rewrite Htransport. repeat progress conn_unfold. done. }
  subst r2. rewrite Hr1. clear Hr1 r1.
  split; [done|]. split.
  - unfold react, _saslComplete, completion, effects, after.
    repeat progress conn_unfold. done.
  - intros description. cbv zeta.
    unfold react, _saslComplete, completion, effects, after.
    repeat progress conn_unfold. done.
Qed.

End WiredFacts.

(** ** Codec: reading and decoding *)

Section ReaderFacts.
Import Codec.
Context {errors : ErrorsEnv}.

Implicit Types (buf b pre suf : list byte) (off n : Z).

Lemma number_or_Some_0 n : number_or (Some n) 0 = n.
Proof. unfold number_or. destruct (Z.eqb_spec n 0); congruence. Qed.

Lemma Buffer_slice_length buf s e :
  0 <= s -> s <= e -> e <= Z.of_nat (length buf) ->
  Z.of_nat (length (Buffer_slice buf s e)) = e - s.
Proof.
  intros. unfold Buffer_slice. rewrite length_take, length_drop. lia.
Qed.

Lemma Buffer_slice_app buf s m e :
  0 <= s -> s <= m -> m <= e ->
  Buffer_slice buf s m ++ Buffer_slice buf m e = Buffer_slice buf s e.
Proof.
  intros. unfold Buffer_slice.
  replace (Z.to_nat m) with (Z.to_nat s + Z.to_nat (m - s))%nat by lia.
  rewrite <- drop_drop, take_take_drop. f_equal. lia.
Qed.

Lemma Buffer_slice_embed pre b suf s e :
  0 <= s -> s <= e -> e <= Z.of_nat (length b) ->
  Buffer_slice (pre ++ b ++ suf) (Z.of_nat (length pre) + s) (Z.of_nat (length pre) + e)
  = Buffer_slice b s e.
Proof.
  intros. unfold Buffer_slice.
  replace (Z.to_nat (Z.of_nat (length pre) + s)) with (length pre + Z.to_nat s)%nat by lia.
  rewrite drop_app_add, drop_app_le by lia.
  replace (Z.of_nat (length pre) + e - (Z.of_nat (length pre) + s)) with (e - s) by lia.
  rewrite take_app_le; [done|]. rewrite length_drop. lia.
Qed.

Lemma Buffer_at_slice buf s e i :
  0 <= s -> 0 <= i -> s + i < e ->
  Buffer_at (Buffer_slice buf s e) i = Buffer_at buf (s + i).
Proof.
  intros. unfold Buffer_at, Buffer_slice.
  destruct (Z.ltb_spec i 0); [lia|]. destruct (Z.ltb_spec (s + i) 0); [lia|].
  rewrite lookup_take_lt by lia. rewrite lookup_drop. do 2 f_equal. lia.
Qed.

Lemma Buffer_at_Some buf i :
  0 <= i < Z.of_nat (length buf) -> is_Some (Buffer_at buf i).
Proof.
  intros. unfold Buffer_at. destruct (Z.ltb_spec i 0); [lia|].
  destruct (lookup_lt_is_Some_2 buf (Z.to_nat i)) as [x Hx]; [lia|].
  rewrite Hx. by eexists.
Qed.

#[local] Arguments _readOrPeekFixed : simpl never.

Lemma code_at buf off :
  0 <= off -> off < Z.of_nat (length buf) ->
  Buffer_at (_peek buf off 1) 0 = Buffer_at buf off.
Proof.
  intros. unfold _peek. rewrite Buffer_at_slice by lia. f_equal. lia.
Qed.

(** One call of [_readFullValue] without a forced code, at an offset
    inside the buffer. *)
Lemma readFullValue_unfold fuel buf off dnc :
  0 <= off ->
  _readFullValue (S fuel) buf (Some off) dnc None =
    let remaining := Z.of_nat (length buf) - off in
    if remaining <? 1 then Normal FullUndefined
    else
      let code := Buffer_at buf off in
      if bool_decide (code = Some 0) then
        val1 ← _readFullValue fuel buf (Some (off + 1)) true None;
        match val1 with
        | FullUndefined => Normal FullUndefined
        | _ =>
            val2 ← _readFullValue fuel buf
                     ((fun n => off + 1 + n) <$> numBytesOf val1) true None;
            match val2 with
            | FullUndefined => Normal FullUndefined
            | _ =>
                Normal (Full (DescribedBytes (bytesOf val1) (bytesOf val2))
                          (n1 ← numBytesOf val1; n2 ← numBytesOf val2; Some (n1 + n2 + 1)))
            end
        end
      else
        match classify (match code with Some c => Z.land c 240 | None => 0 end) with
        | FixedWidth numBytes =>
            Normal (_readOrPeekFixed buf off remaining dnc (Some numBytes))
        | Variable1 =>
            if remaining <? 2 then Normal FullUndefined
            else Normal (_readOrPeekFixed buf off remaining dnc
                           ((fun size => size + 1 + 1) <$> Buffer_at buf (off + 1)))
        | Variable4 =>
            if remaining <? 5 then Normal FullFalse
            else
              match Buffer_readUInt32BE buf (off + 1) with
              | Some size =>
                  Normal (_readOrPeekFixed buf off remaining dnc (Some (size + 4 + 1)))
              | None => Throw (mkJsError JsErrorClass "RangeError: Index out of range")
              end
        | UnknownPrefix =>
            Throw (newError MalformedPayloadError
                     ("Unknown code prefix: 0x" +:+
                      Number_toString16 (match code with Some c => Z.land c 240 | None => 0 end)))
        end.
Proof.
  intros Hoff. cbn [_readFullValue]. rewrite number_or_Some_0. cbv zeta.
  destruct (Z.ltb_spec (Z.of_nat (length buf) - off) 1) as [|Hrem]; [done|].
  rewrite code_at by lia.
  destruct (bool_decide (Buffer_at buf off = Some 0)); [done|].
  destruct (classify _); try done.
  - destruct (Z.ltb_spec (Z.of_nat (length buf) - off) 2); [done|].
    unfold _peek. rewrite Buffer_at_slice by lia. done.
  - destruct (Z.ltb_spec (Z.of_nat (length buf) - off) 5); [done|].
    unfold Buffer_readUInt32BE, _peek.
    rewrite !Buffer_at_slice by lia.
    replace (off + 1 + 1) with (off + (1 + 1)) by lia.
    replace (off + 1 + 2) with (off + (1 + 2)) by lia.
    replace (off + 1 + 3) with (off + (1 + 3)) by lia.
    done.
Qed.

Lemma readOrPeekFixed_Full buf off remaining dnc numBytes bytes (count : option Z) :
  _readOrPeekFixed buf off remaining dnc numBytes = Full bytes count ->
  exists k, numBytes = Some k /\ count = Some k /\ k <= remaining /\
            bytes = Bytes (Buffer_slice buf off (off + k)).
Proof.
  unfold _readOrPeekFixed. destruct numBytes as [k|]; [|done].
  destruct (Z.leb_spec k remaining); [|done].
  intros [= <- <-]. exists k. by destruct dnc.
Qed.

Lemma classify_FixedWidth p k : classify p = FixedWidth k -> 1 <= k.
Proof.
  unfold classify. repeat case_match; intros [= <-]; lia.
Qed.

Lemma Buffer_at_nonneg buf i x : Buffer_at buf i = Some x -> 0 <= x.
Proof.
  unfold Buffer_at. destruct (i <? 0); [done|].
  destruct (buf !! Z.to_nat i); [|done]. intros [= <-]. lia.
Qed.

Lemma Buffer_at_byte buf i x : Buffer_at buf i = Some x -> 0 <= x < 256.
Proof.
  unfold Buffer_at. destruct (i <? 0); [done|].
  destruct (buf !! Z.to_nat i) as [c|]; [|done]. intros [= <-].
  pose proof (Byte.to_N_bounded c). lia.
Qed.

Lemma Buffer_readUInt32BE_nonneg buf i x : Buffer_readUInt32BE buf i = Some x -> 0 <= x.
Proof.
  unfold Buffer_readUInt32BE. intros H.
  destruct (Buffer_at buf i) as [a|] eqn:Ha; [|done].
  destruct (Buffer_at buf (i + 1)) as [a1|] eqn:Ha1; [|done].
  destruct (Buffer_at buf (i + 2)) as [a2|] eqn:Ha2; [|done].
  destruct (Buffer_at buf (i + 3)) as [a3|] eqn:Ha3; [|done].
  simpl in H. injection H as <-.
  apply Buffer_at_nonneg in Ha, Ha1, Ha2, Ha3. lia.
Qed.

Lemma Buffer_slice_head buf off :
  Buffer_at buf off = Some 0 -> 0 <= off ->
  Buffer_slice buf off (off + 1) = [x00%byte].
Proof.
  unfold Buffer_at, Buffer_slice. intros H Hoff.
  destruct (Z.ltb_spec off 0); [lia|].
  destruct (buf !! Z.to_nat off) as [c|] eqn:Hc; [|done].
  simpl in H. injection H as H.
  assert (c = x00%byte) as ->.
  { destruct c; first [reflexivity | discriminate H]. }
  replace (off + 1 - off) with 1 by lia.
  by rewrite (drop_S _ _ _ Hc).
Qed.

Lemma readFullValue_wire fuel buf off dnc bytes n :
  0 <= off ->
  _readFullValue fuel buf (Some off) dnc None = Normal (Full bytes (Some n)) ->
  1 <= n /\ off + n <= Z.of_nat (length buf) /\
  wire bytes = Buffer_slice buf off (off + n).
Proof.
  revert off dnc bytes n. induction fuel as [|fuel IH]; intros off dnc bytes n Hoff; [done|].
  rewrite readFullValue_unfold by done. cbv zeta.
  destruct (Z.ltb_spec (Z.of_nat (length buf) - off) 1) as [|Hrem]; [done|].
  case_bool_decide as Hcode.
  - destruct (_readFullValue fuel buf (Some (off + 1)) true None) as [val1| | |] eqn:H1;
      try done.
    cbn [mbind Completion_bind].
    destruct val1 as [| |b1 [n1|]]; try done.
    + cbn [numBytesOf fmap option_fmap option_map].
      destruct (_readFullValue fuel buf None true None) as [[| |]| | |]; done.
    + apply IH in H1 as (Hn1 & Hend1 & Hw1); [|lia].
      cbn [numBytesOf fmap option_fmap option_map].
      destruct (_readFullValue fuel buf (Some (off + 1 + n1)) true None)
        as [val2| | |] eqn:H2; try done.
      cbn [mbind Completion_bind].
      destruct val2 as [| |b2 [n2|]]; try done.
      apply IH in H2 as (Hn2 & Hend2 & Hw2); [|lia].
      cbn. intros [= <- <-]. split; [lia|]. split; [lia|].
      cbn [wire]. rewrite Hw1, Hw2.
      rewrite <- (Buffer_slice_app buf off (off + 1) (off + (n1 + n2 + 1))) by lia.
      rewrite (Buffer_slice_head buf off Hcode Hoff). cbn [app]. f_equal.
      replace (off + 1 + n1 + n2) with (off + (n1 + n2 + 1)) by lia.
      apply Buffer_slice_app; lia.
    + cbn [numBytesOf fmap option_fmap option_map].
      destruct (_readFullValue fuel buf None true None) as [[| |]| | |]; done.
  - destruct (classify _) as [k| | |] eqn:Hclass.
    + intros [= Hfix]. apply readOrPeekFixed_Full in Hfix as (k' & [= <-] & [= <-] & Hk & ->).
      apply classify_FixedWidth in Hclass. cbn [wire]. split; [done|]. split; [lia | done].
    + destruct (Z.ltb_spec (Z.of_nat (length buf) - off) 2); [done|].
      intros [= Hfix]. apply readOrPeekFixed_Full in Hfix as (k' & Hsize & [= <-] & Hk & ->).
      destruct (Buffer_at buf (off + 1)) as [size|] eqn:Hsz; [|done].
      apply Buffer_at_nonneg in Hsz. injection Hsize as <-.
      cbn [wire]. split; [lia|]. split; [lia | done].
    + destruct (Z.ltb_spec (Z.of_nat (length buf) - off) 5); [done|].
      destruct (Buffer_readUInt32BE buf (off + 1)) as [size|] eqn:Hsz; [|done].
      apply Buffer_readUInt32BE_nonneg in Hsz.
      intros [= Hfix]. apply readOrPeekFixed_Full in Hfix as (k' & [= <-] & [= ->] & Hk & ->).
      cbn [wire]. split; [lia|]. split; [lia | done].
    + done.
Qed.

Lemma Buffer_at_embed pre b suf i :
  0 <= i < Z.of_nat (length b) ->
  Buffer_at (pre ++ b ++ suf) (Z.of_nat (length pre) + i) = Buffer_at b i.
Proof.
  intros. unfold Buffer_at.
  destruct (Z.ltb_spec (Z.of_nat (length pre) + i) 0); [lia|].
  destruct (Z.ltb_spec i 0); [lia|]. f_equal.
  rewrite lookup_app_r by lia. rewrite lookup_app_l by lia. f_equal. lia.
Qed.

Lemma Buffer_readUInt32BE_embed pre b suf i :
  0 <= i -> i + 3 < Z.of_nat (length b) ->
  Buffer_readUInt32BE (pre ++ b ++ suf) (Z.of_nat (length pre) + i)
  = Buffer_readUInt32BE b i.
Proof.
  intros. unfold Buffer_readUInt32BE.
  rewrite <- !Z.add_assoc. rewrite !Buffer_at_embed by lia. done.
Qed.

Lemma readOrPeekFixed_embed pre b suf off dnc numBytes bytes (count : option Z) :
  0 <= off ->
  (forall k, numBytes = Some k -> 0 <= k) ->
  _readOrPeekFixed b off (Z.of_nat (length b) - off) dnc numBytes = Full bytes count ->
  _readOrPeekFixed (pre ++ b ++ suf) (Z.of_nat (length pre) + off)
    (Z.of_nat (length (pre ++ b ++ suf)) - (Z.of_nat (length pre) + off)) dnc numBytes
  = Full bytes count.
Proof.
  intros Hoff Hpos Hfix.
  apply readOrPeekFixed_Full in Hfix as (k & -> & -> & Hk & ->).
  specialize (Hpos k eq_refl).
  unfold _readOrPeekFixed. rewrite !length_app.
  destruct (Z.leb_spec k (Z.of_nat (length pre + (length b + length suf))
                          - (Z.of_nat (length pre) + off))); [|lia].
  destruct dnc; unfold _peek, _read; rewrite <- Z.add_assoc;
    by rewrite Buffer_slice_embed by lia.
Qed.

(** A value that [_readFullValue] reads with a number of bytes from a
    buffer is read in the same way wherever these bytes stand in a
    longer buffer: what comes before the offset and what follows the
    value do not matter. *)
Lemma readFullValue_embedded fuel b off dnc bytes n pre suf :
  0 <= off ->
  _readFullValue fuel b (Some off) dnc None = Normal (Full bytes (Some n)) ->
  _readFullValue fuel (pre ++ b ++ suf) (Some (Z.of_nat (length pre) + off)) dnc None
    = Normal (Full bytes (Some n)).
Proof.
  revert off dnc bytes n. induction fuel as [|fuel IH]; intros off dnc bytes n Hoff; [done|].
  rewrite !readFullValue_unfold by lia. cbv zeta.
  destruct (Z.ltb_spec (Z.of_nat (length b) - off) 1) as [|Hrem]; [done|].
  assert (Hlen : Z.of_nat (length (pre ++ b ++ suf))
                 = Z.of_nat (length pre) + Z.of_nat (length b) + Z.of_nat (length suf))
    by (rewrite !length_app; lia).
  destruct (Z.ltb_spec (Z.of_nat (length (pre ++ b ++ suf)) - (Z.of_nat (length pre) + off)) 1);
    [lia|].
  rewrite Buffer_at_embed by lia.
  case_bool_decide as Hcode.
  - destruct (_readFullValue fuel b (Some (off + 1)) true None) as [val1| | |] eqn:H1;
      try done.
    cbn [mbind Completion_bind].
    destruct val1 as [| |b1 [n1|]]; try done.
    + cbn [numBytesOf fmap option_fmap option_map].
      destruct (_readFullValue fuel b None true None) as [[| |]| | |]; done.
    + destruct (readFullValue_wire fuel b (off + 1) true b1 n1) as (Hn1 & Hend1 & _);
        [lia | exact H1 |].
      apply IH in H1; [|lia].
      rewrite <- Z.add_assoc, H1. cbn [mbind Completion_bind].
      cbn [numBytesOf fmap option_fmap option_map].
      destruct (_readFullValue fuel b (Some (off + 1 + n1)) true None)
        as [val2| | |] eqn:H2; try done.
      cbn [mbind Completion_bind].
      destruct val2 as [| |b2 [n2|]]; try done.
      apply IH in H2; [|lia].
      replace (Z.of_nat (length pre) + (off + 1) + n1)
        with (Z.of_nat (length pre) + (off + 1 + n1)) by lia.
      rewrite H2. done.
    + cbn [numBytesOf fmap option_fmap option_map].
      destruct (_readFullValue fuel b None true None) as [[| |]| | |]; done.
  - destruct (classify _) as [k| | |] eqn:Hclass.
    + intros [= Hfix]. f_equal. apply readOrPeekFixed_embed; [done| |done].
      intros k' [= <-]. apply classify_FixedWidth in Hclass. lia.
    + destruct (Z.ltb_spec (Z.of_nat (length b) - off) 2); [done|].
      destruct (Z.ltb_spec (Z.of_nat (length (pre ++ b ++ suf))
                            - (Z.of_nat (length pre) + off)) 2); [lia|].
      rewrite <- Z.add_assoc, Buffer_at_embed by lia.
      intros [= Hfix]. f_equal. apply readOrPeekFixed_embed; [done| |done].
      intros k'. destruct (Buffer_at b (off + 1)) as [size|] eqn:Hsz; [|done].
      apply Buffer_at_nonneg in Hsz. intros [= <-]. lia.
    + destruct (Z.ltb_spec (Z.of_nat (length b) - off) 5); [done|].
      destruct (Z.ltb_spec (Z.of_nat (length (pre ++ b ++ suf))
                            - (Z.of_nat (length pre) + off)) 5); [lia|].
      rewrite <- Z.add_assoc, Buffer_readUInt32BE_embed by lia.
      destruct (Buffer_readUInt32BE b (off + 1)) as [size|] eqn:Hsz; [|done].
      apply Buffer_readUInt32BE_nonneg in Hsz.
      intros [= Hfix]. f_equal. apply readOrPeekFixed_embed; [done| |done].
      intros k' [= <-]. lia.
    + done.
Qed.

Lemma Buffer_at_take buf (m : nat) i :
  i < Z.of_nat m -> Buffer_at (take m buf) i = Buffer_at buf i.
Proof.
  intros. unfold Buffer_at. destruct (Z.ltb_spec i 0); [done|].
  by rewrite lookup_take_lt by lia.
Qed.

Lemma Buffer_readUInt32BE_take buf (m : nat) i :
  i + 3 < Z.of_nat m -> Buffer_readUInt32BE (take m buf) i = Buffer_readUInt32BE buf i.
Proof.
  intros. unfold Buffer_readUInt32BE. by rewrite !Buffer_at_take by lia.
Qed.

Lemma Buffer_readUInt32BE_Some buf i :
  0 <= i -> i + 3 < Z.of_nat (length buf) -> is_Some (Buffer_readUInt32BE buf i).
Proof.
  intros. unfold Buffer_readUInt32BE.
  destruct (Buffer_at_Some buf i) as [? ->]; [lia|].
  destruct (Buffer_at_Some buf (i + 1)) as [? ->]; [lia|].
  destruct (Buffer_at_Some buf (i + 2)) as [? ->]; [lia|].
  destruct (Buffer_at_Some buf (i + 3)) as [? ->]; [lia|].
  by eexists.
Qed.

Lemma readFullValue_truncated fuel buf off dnc bytes n (m : nat) :
  0 <= off ->
  _readFullValue fuel buf (Some off) dnc None = Normal (Full bytes (Some n)) ->
  Buffer_at buf off <> Some 0 ->
  Z.of_nat m < off + n ->
  _readFullValue fuel (take m buf) (Some off) dnc None = Normal FullUndefined \/
  _readFullValue fuel (take m buf) (Some off) dnc None = Normal FullFalse.
Proof.
  intros Hoff Hread Hcode Hm.
  destruct (readFullValue_wire fuel buf off dnc bytes n Hoff Hread) as (Hn & Hend & _).
  destruct fuel as [|fuel]; [done|].
  rewrite readFullValue_unfold in Hread |- * by done. cbv zeta in Hread |- *.
  assert (Hlen : Z.of_nat (length (take m buf)) = Z.of_nat m)
    by (rewrite length_take; lia).
  rewrite Hlen.
  destruct (Z.ltb_spec (Z.of_nat (length buf) - off) 1) as [|Hrem]; [done|].
  destruct (Z.ltb_spec (Z.of_nat m - off) 1) as [|Hrem']; [by left|].
  rewrite Buffer_at_take by lia.
  rewrite (bool_decide_eq_false_2 _ Hcode) in Hread |- *.
  destruct (classify _) as [k| | |] eqn:Hclass.
  - injection Hread as Hfix.
    apply readOrPeekFixed_Full in Hfix as (k' & [= <-] & [= <-] & Hk & ->).
    left. unfold _readOrPeekFixed. by destruct (Z.leb_spec n (Z.of_nat m - off)); [lia|].
  - destruct (Z.ltb_spec (Z.of_nat (length buf) - off) 2); [done|].
    destruct (Z.ltb_spec (Z.of_nat m - off) 2); [by left|].
    rewrite Buffer_at_take by lia.
    injection Hread as Hfix.
    apply readOrPeekFixed_Full in Hfix as (k' & Hsize & [= <-] & Hk & ->).
    rewrite Hsize.
    left. unfold _readOrPeekFixed. by destruct (Z.leb_spec n (Z.of_nat m - off)); [lia|].
  - destruct (Z.ltb_spec (Z.of_nat (length buf) - off) 5); [done|].
    destruct (Z.ltb_spec (Z.of_nat m - off) 5); [by right|].
    rewrite Buffer_readUInt32BE_take by lia.
    destruct (Buffer_readUInt32BE buf (off + 1)) as [size|] eqn:Hsz; [|done].
    injection Hread as Hfix.
    apply readOrPeekFixed_Full in Hfix as (k' & [= <-] & [= ->] & Hk & ->).
    left. unfold _readOrPeekFixed.
    by destruct (Z.leb_spec (size + 4 + 1) (Z.of_nat m - off)); [lia|].
  - done.
Qed.

Lemma classify_zero : classify (Z.land 0 240) = UnknownPrefix.
Proof. reflexivity. Qed.

Lemma readFullValue_truncated_descriptor fuel buf offset dnc c :
  number_or offset 0 = 0 ->
  Buffer_at buf 0 = Some 0 ->
  Buffer_at buf 1 = Some c ->
  classify (Z.land c 240) = Variable4 ->
  (length buf < 6)%nat ->
  _readFullValue fuel buf offset dnc None = OutOfFuel.
Proof.
  intros Hzero Hfirst Hsecond Hclass Hlen.
  assert (Hbuf : 2 <= Z.of_nat (length buf)).
  { unfold Buffer_at in Hsecond. simpl in Hsecond.
    destruct (buf !! Z.to_nat 1) eqn:Hl; [|done]. apply lookup_lt_Some in Hl. lia. }
  assert (Hc : c <> 0) by (intros ->; by rewrite classify_zero in Hclass).
  assert (Hsame : forall f d, _readFullValue f buf offset d None
                              = _readFullValue f buf (Some 0) d None).
  { intros [|f] d; [done|]. cbn [_readFullValue]. by rewrite Hzero, number_or_Some_0. }
  rewrite Hsame. clear Hsame Hzero offset.
  revert dnc. induction fuel as [|fuel IH]; intros dnc; [done|].
  rewrite readFullValue_unfold by done. cbv zeta.
  destruct (Z.ltb_spec (Z.of_nat (length buf) - 0) 1); [lia|].
  rewrite Hfirst, bool_decide_eq_true_2 by done.
  destruct fuel as [|fuel]; [done|].
  change (0 + 1) with 1.
  rewrite (readFullValue_unfold fuel buf 1 true) by lia. cbv zeta.
  destruct (Z.ltb_spec (Z.of_nat (length buf) - 1) 1); [lia|].
  rewrite Hsecond, bool_decide_eq_false_2 by congruence.
  rewrite Hclass.
  destruct (Z.ltb_spec (Z.of_nat (length buf) - 1) 5); [|lia].
  cbn [mbind Completion_bind numBytesOf fmap option_fmap option_map].
  replace (_readFullValue (S fuel) buf None true None)
    with (_readFullValue (S fuel) buf (Some 0) true None) by done.
  by rewrite IH.
Qed.

Lemma classify_byte (x : byte) :
  classify (Z.land (Z.of_N (Byte.to_N x)) 240) = UnknownPrefix <->
  Z.of_N (Byte.to_N x) < 64.
Proof.
  destruct x; vm_compute; split; intros H; first [reflexivity | discriminate H].
Qed.

Lemma Buffer_at_is_byte buf i c :
  Buffer_at buf i = Some c -> exists x : byte, c = Z.of_N (Byte.to_N x).
Proof.
  unfold Buffer_at. destruct (i <? 0); [done|].
  destruct (buf !! Z.to_nat i) as [x|]; [|done]. intros [= <-]. by exists x.
Qed.

(** X5: The first code of a value that is not a described one decides
    whether [_readFullValue] throws: the codes 0x01 to 0x3f have no
    width, and the error thrown for them is
    [new errors.MalformedPayloadError('Unknown code prefix: 0x' + p)]
    with [p] the prefix of the code in hexadecimal (what the class
    makes of that text for the message is the business of
    [lib/errors.js]); every code from 0x40 on is answered, with the
    value, with [undefined] or with [false]. One call is enough for
    that. *)
Theorem X5_unknown_code_prefix fuel buf off dnc c :
  0 <= off ->
  Buffer_at buf off = Some c ->
  c <> 0 ->
  match _readFullValue (S fuel) buf (Some off) dnc None with
  | Normal _ => 64 <= c
  | Throw e =>
      c < 64 /\
      e = newError MalformedPayloadError
            ("Unknown code prefix: 0x" +:+ Number_toString16 (Z.land c 240))
  | _ => False
  end.
Proof.
  intros Hoff Hcode Hc.
  assert (Hin : off < Z.of_nat (length buf)).
  { unfold Buffer_at in Hcode. destruct (Z.ltb_spec off 0); [done|].
    destruct (buf !! Z.to_nat off) eqn:Hl; [|done]. apply lookup_lt_Some in Hl. lia. }
  destruct (Buffer_at_is_byte _ _ _ Hcode) as (x & ->).
  pose proof (classify_byte x) as Hx.
  rewrite readFullValue_unfold by done. cbv zeta.
  destruct (Z.ltb_spec (Z.of_nat (length buf) - off) 1); [lia|].
  rewrite Hcode, bool_decide_eq_false_2 by congruence.
  destruct (classify _) as [k| | |].
  - destruct (Z.ltb_spec (Z.of_N (Byte.to_N x)) 64) as [Hlt|?]; [|done].
    by apply Hx in Hlt.
  - destruct (Z.ltb_spec (Z.of_N (Byte.to_N x)) 64) as [Hlt|?];
      [by apply Hx in Hlt|]. by destruct (_ <? 2).
  - destruct (Z.ltb_spec (Z.of_N (Byte.to_N x)) 64) as [Hlt|?];
      [by apply Hx in Hlt|].
    destruct (Z.ltb_spec (Z.of_nat (length buf) - off) 5); [done|].
    destruct (Buffer_readUInt32BE_Some buf (off + 1)) as [size ->]; [lia | lia | done].
  - split; [by apply Hx | done].
Qed.

Lemma readFullValue_primitive fuel buf off dnc bytes n :
  0 <= off ->
  _readFullValue fuel buf (Some off) dnc None = Normal (Full bytes (Some n)) ->
  Buffer_at buf off <> Some 0 ->
  bytes = Bytes (Buffer_slice buf off (off + n)).
Proof.
  intros Hoff Hread Hcode. destruct fuel as [|fuel]; [done|].
  rewrite readFullValue_unfold in Hread by done. cbv zeta in Hread.
  destruct (_ <? 1); [done|].
  rewrite (bool_decide_eq_false_2 _ Hcode) in Hread.
  destruct (classify _).
  - injection Hread as Hfix.
    by apply readOrPeekFixed_Full in Hfix as (k' & _ & [= <-] & _ & ->).
  - destruct (_ <? 2); [done|]. injection Hread as Hfix.
    by apply readOrPeekFixed_Full in Hfix as (k' & _ & [= <-] & _ & ->).
  - destruct (_ <? 5); [done|]. destruct (Buffer_readUInt32BE _ _); [|done].
    injection Hread as Hfix.
    by apply readOrPeekFixed_Full in Hfix as (k' & _ & [= <-] & _ & ->).
  - done.
Qed.

Lemma Buffer_slice_slice buf s e :
  0 <= s -> s < e -> e <= Z.of_nat (length buf) ->
  Buffer_slice (Buffer_slice buf s e) 1 (Z.of_nat (length (Buffer_slice buf s e)))
  = Buffer_slice buf (s + 1) e.
Proof.
  intros. rewrite Buffer_slice_length by lia. unfold Buffer_slice.
  rewrite take_ge by (rewrite length_drop, length_take, length_drop; lia).
  replace (Z.to_nat (e - s)) with (Z.to_nat 1 + Z.to_nat (e - (s + 1)))%nat by lia.
  rewrite <- take_drop_commute, drop_drop. do 2 f_equal. lia.
Qed.

Lemma readFullValue_described fuel buf off dnc bytes (count : option Z) :
  0 <= off ->
  _readFullValue fuel buf (Some off) dnc None = Normal (Full bytes count) ->
  Buffer_at buf off = Some 0 ->
  exists descriptor value, bytes = DescribedBytes descriptor value.
Proof.
  intros Hoff Hread Hcode. destruct fuel as [|fuel]; [done|].
  rewrite readFullValue_unfold in Hread by done. cbv zeta in Hread.
  destruct (_ <? 1); [done|].
  rewrite (bool_decide_eq_true_2 _ Hcode) in Hread.
  destruct (_readFullValue fuel buf (Some (off + 1)) true None) as [val1| | |]; try done.
  cbn [mbind Completion_bind] in Hread.
  destruct val1 as [| |b1 c1]; [done| |];
    (destruct (_readFullValue fuel buf _ true None) as [val2| | |]; try done;
     cbn [mbind Completion_bind] in Hread;
     destruct val2; try done; injection Hread as <- _; by eexists _, _).
Qed.

(** X1: What [_readFullValue] answers with a number of bytes is what
    stands in the buffer at the offset: a value of at least one byte
    that ends inside the buffer. For a first byte other than 0x00 the
    answer is that slice of the buffer; for the constructor byte 0x00
    it is a pair, whose components are the bytes of the descriptor and
    of the value that stand one after the other behind the
    constructor. *)
Theorem X1_readFullValue_is_the_wire_bytes fuel buf off dnc bytes n :
  0 <= off ->
  _readFullValue fuel buf (Some off) dnc None = Normal (Full bytes (Some n)) ->
  1 <= n /\ off + n <= Z.of_nat (length buf) /\
  wire bytes = Buffer_slice buf off (off + n) /\
  (Buffer_at buf off <> Some 0 -> bytes = Bytes (Buffer_slice buf off (off + n))) /\
  (Buffer_at buf off = Some 0 ->
   exists descriptor value, bytes = DescribedBytes descriptor value).
Proof.
  intros Hoff Hread.
  destruct (readFullValue_wire _ _ _ _ _ _ Hoff Hread) as (Hn & Hend & Hwire).
  split; [exact Hn|]. split; [exact Hend|]. split; [exact Hwire|]. split.
  - intros Hcode. exact (readFullValue_primitive _ _ _ _ _ _ Hoff Hread Hcode).
  - intros Hcode. exact (readFullValue_described _ _ _ _ _ _ Hoff Hread Hcode).
Qed.

End ReaderFacts.

Section DecodeFacts.
Import Codec.
Context {errors : ErrorsEnv} `{!DecodeEnv}.

Implicit Types (buf b pre suf : list byte) (off n : Z).

Lemma decode_Some fuel buf off (v : Decoded) (count : option Z) :
  decode fuel buf (Some off) None = Normal (Some (v, count)) ->
  exists bytes,
    _readFullValue fuel buf (Some off) false None = Normal (Full bytes count) /\
    _asMostSpecific bytes None = Normal v.
Proof.
  unfold decode. rewrite number_or_Some_0. cbn [forced].
  destruct (_readFullValue fuel buf (Some off) false None) as [[| |bytes c]| | |];
    try done.
  cbn [mbind Completion_bind].
  destruct (_asMostSpecific bytes None) as [v'| | |] eqn:Hspec; try done.
  cbn [mbind Completion_bind]. intros [= <- <-]. by exists bytes.
Qed.

(** X2: What [decode] reports as read is there: the value has at least
    one byte and ends inside the buffer; and a value that is not a
    described one is what the decoder under its code makes of the
    bytes between the code and that end. *)
Theorem X2_decode_reads_what_is_there fuel buf off (v : Decoded) n :
  0 <= off ->
  decode fuel buf (Some off) None = Normal (Some (v, Some n)) ->
  1 <= n /\ off + n <= Z.of_nat (length buf) /\
  (Buffer_at buf off <> Some 0 ->
   exists c decoder,
     Buffer_at buf off = Some c /\
     types_decode c = Some decoder /\
     decoder (Some (Buffer_slice buf (off + 1) (off + n))) = Normal v).
Proof.
  intros Hoff Hdec. apply decode_Some in Hdec as (bytes & Hread & Hspec).
  destruct (readFullValue_wire _ _ _ _ _ _ Hoff Hread) as (Hn & Hend & _).
  split; [done|]. split; [done|]. intros Hcode.
  rewrite (readFullValue_primitive _ _ _ _ _ _ Hoff Hread Hcode) in Hspec.
  cbn [_asMostSpecific forced mbind Completion_bind] in Hspec.
  rewrite Buffer_at_slice in Hspec by lia. rewrite Z.add_0_r in Hspec.
  destruct (Buffer_at buf off) as [c|]; [|done].
  destruct (types_decode c) as [decoder|] eqn:Hdecoder; [|done].
  rewrite Buffer_slice_slice in Hspec by lia.
  by exists c, decoder.
Qed.

(** X3: [decode] gives for a value the same answer wherever its bytes
    stand: what comes before the offset and what follows the value in
    the buffer do not matter. *)
Theorem X3_decode_position_independent fuel b (v : Decoded) n pre suf :
  decode fuel b (Some 0) None = Normal (Some (v, Some n)) ->
  decode fuel (pre ++ b ++ suf) (Some (Z.of_nat (length pre))) None
    = Normal (Some (v, Some n)).
Proof.
  intros Hdec. apply decode_Some in Hdec as (bytes & Hread & Hspec).
  apply (readFullValue_embedded _ _ _ _ _ _ pre suf) in Hread; [|done].
  rewrite Z.add_0_r in Hread.
  unfold decode. rewrite number_or_Some_0. cbn [forced].
  rewrite Hread. cbn [mbind Completion_bind]. by rewrite Hspec.
Qed.

(** X4: Of a value that is not a described one [decode] makes nothing
    before all its bytes are in the buffer: on a buffer that ends
    inside the value the answer is [undefined]. *)
Theorem X4_decode_truncated_value fuel buf off (v : Decoded) n (m : nat) :
  0 <= off ->
  decode fuel buf (Some off) None = Normal (Some (v, Some n)) ->
  Buffer_at buf off <> Some 0 ->
  Z.of_nat m < off + n ->
  decode fuel (take m buf) (Some off) None = Normal None.
Proof.
  intros Hoff Hdec Hcode Hm. apply decode_Some in Hdec as (bytes & Hread & _).
  unfold decode. rewrite number_or_Some_0. cbn [forced].
  by destruct (readFullValue_truncated _ _ _ _ _ _ m Hoff Hread Hcode Hm) as [-> | ->].
Qed.

(** X6: A described value whose descriptor is cut inside the four bytes
    of a long length (code prefix 0xB0, 0xD0 or 0xF0), at the start of
    a buffer: the answer [false] for the descriptor is not
    [undefined], its [false[1]] makes the offset of the second read
    [NaN], and [offset || 0] starts that read at 0 again, on the same
    described value. The recursion of [_readFullValue] has no end:
    whatever bound is put on its depth is exceeded, and so [decode]
    does not return either. *)
Theorem X6_truncated_descriptor_recursion fuel buf offset c :
  number_or offset 0 = 0 ->
  Buffer_at buf 0 = Some 0 ->
  Buffer_at buf 1 = Some c ->
  classify (Z.land c 0xF0) = Variable4 ->
  (length buf < 6)%nat ->
  (forall doNotConsume, _readFullValue fuel buf offset doNotConsume None = OutOfFuel) /\
  decode fuel buf offset None = OutOfFuel.
Proof.
  intros Hzero Hfirst Hsecond Hclass Hlen. split.
  - intros dnc. by apply (readFullValue_truncated_descriptor fuel buf offset dnc c).
  - unfold decode. cbn [forced]. rewrite Hzero.
    by rewrite (readFullValue_truncated_descriptor fuel buf (Some 0) false c).
Qed.

End DecodeFacts.

(** ** The properties at the fixtures *)

Module Examples.
Import Fixtures.

#[local] Existing Instance testEnv.
#[local] Existing Instance stubEnv.
#[local] Existing Instance Codec.specTypes.
#[local] Existing Instance libErrors.

(** *** Sender link *)



(** Under session flow control the same call is refused, and the
    session counters keep the decrement made before the check. *)
Lemma strict_window_error_state :
  completion (SenderLink._sendMessage shortMessage tag1 (exhaustedLink true))
  = Throw (mkJsError OverCapacityError
             "Cannot send message - over Session window capacity (-1 window)") /\
  effects (SenderLink._sendMessage shortMessage tag1 (exhaustedLink true)) = [] /\
  SenderLink._sessionParams
    (SenderLink.session (after (SenderLink._sendMessage shortMessage tag1 (exhaustedLink true))))
  = SenderLink.mkSessionParams 2 (-1) 2147483646 None.
Proof. repeat split. Qed.

Lemma C2_witness :
  SenderLink.connection (SenderLink.session testLink) = Some (SenderLink.mkConnectionRef 512) /\
  0 < SenderLink.linkCredit testLink /\
  0 < 512 - (SenderLink.FRAME_OVERHEAD + Z.of_nat (length tag1)) /\
  exists frames,
    effects (SenderLink._sendMessage longMessage tag1 testLink)
      = SenderLink.SendFrame <$> frames /\
    concat (SenderLink.tf_message <$> frames) = longMessage /\
    length frames = 5%nat.
Proof.
  assert (Hconn : SenderLink.connection (SenderLink.session testLink)
                  = Some (SenderLink.mkConnectionRef 512)) by reflexivity.
  assert (Hc : 0 < SenderLink.linkCredit testLink) by reflexivity.
  assert (Hi : 0 < 512 - (SenderLink.FRAME_OVERHEAD + Z.of_nat (length tag1)))
    by reflexivity.
  assert (Hw : SenderLink.enableSessionFlowControl (SenderLink.session testLink) = true ->
               1 <= SenderLink.remoteIncomingWindow
                      (SenderLink._sessionParams (SenderLink.session testLink)))
    by (intros _; vm_compute; discriminate).
  destruct (@C2_fragmentation testEnv longMessage tag1 testLink
              (SenderLink.mkConnectionRef 512) Hconn Hc Hw Hi)
    as (frames & _ & Heff & _ & Hcat & Hshape).
  split; [exact Hconn | split; [exact Hc | split; [exact Hi|]]].
  exists frames. split; [exact Heff | split; [exact Hcat|]].
  match type of Hshape with
  | if ?b then _ else _ => change b with true in Hshape
  end.
  destruct Hshape as (Hcount & _).
  change (Math_ceil_div _ _) with (Count 5) in Hcount.
  injection Hcount as Hcount.
  apply Nat2Z.inj. rewrite <- Hcount. reflexivity.
Defined.

Lemma C9_witness :
  SenderLink.canSend testLink = true /\
  ~ throwsOverCapacity (completion (SenderLink._sendMessage longMessage tag1 testLink)).
Proof.
  split; [reflexivity|].
  refine (proj2 (proj2 (proj1 (@C9_canSend_excludes_over_capacity testEnv)
                          longMessage tag1 testLink eq_refl))).
Defined.


(** A settled disposition for the deliveries 2 to 3 calls the
    resolvers of 2 and 3, in that order, and leaves those of 1 and 4
    stored. *)
Lemma disposition_range_bounds :
  effects (SenderLink._dispositionReceived rangeDisposition fourUnsettledLink)
    = [SenderLink.ResolverCalled 2 (SenderLink.mkResolver 1%nat) None
         (Some SenderLink.Accepted);
       SenderLink.ResolverCalled 3 (SenderLink.mkResolver 2%nat) None
         (Some SenderLink.Accepted)] /\
  SenderLink._unsettledSends
    (after (SenderLink._dispositionReceived rangeDisposition fourUnsettledLink))
    = {[ 1 := SenderLink.mkResolver 0%nat; 4 := SenderLink.mkResolver 3%nat ]}.
Proof. split; [reflexivity | by vm_compute]. Qed.

(** Two credits let two of three queued sends out: their resolvers are
    stored under the delivery ids 5 and 6, the third send stays
    queued, and no promise is settled. *)
Lemma queued_sends_register :
  SenderLink._unsettledSends
    (after (SenderLink._dispatchPendingSends None backlogLink))
    = {[ 5 := SenderLink.mkResolver 0%nat; 6 := SenderLink.mkResolver 1%nat ]} /\
  SenderLink._pendingSends (after (SenderLink._dispatchPendingSends None backlogLink))
    = [@SenderLink.mkPendingSend testEnv shortMessage 7 2%nat] /\
  SenderLink.settlements (effects (SenderLink._dispatchPendingSends None backlogLink)) = [].
Proof. split; [by vm_compute | split; reflexivity]. Qed.




Lemma C10_witness :
  SenderLink.last (SenderLink.mkDisposition 1 (Some 0) true (Some SenderLink.Accepted))
    = Some 0 /\
  SenderLink._dispositionReceived
    (SenderLink.mkDisposition 1 (Some 0) true (Some SenderLink.Accepted)) unsettledLink
  = (Normal tt,
     SenderLink.with_unsettledSends
       (delete 1 (SenderLink._unsettledSends unsettledLink)) unsettledLink,
     [SenderLink.ResolverCalled 1 (SenderLink.mkResolver 0%nat) None (Some SenderLink.Accepted)]) /\
  exists f,
    SenderLink.newDispositionFrame
      (SenderLink.mkDispositionOptions None (Some SenderLink.RoleReceiver) (Some 7)
         None (Some true) None None) = Normal f /\
    SenderLink.df_first f = 7 /\ SenderLink.df_last f = 0.
Proof.
  destruct (@C10_absent_last testEnv) as (Hdisp & Hframe).
  split; [reflexivity | split].
  - refine (proj2 (proj2 (Hdisp
              (SenderLink.mkDisposition 1 (Some 0) true (Some SenderLink.Accepted))
              unsettledLink (or_intror eq_refl))) eq_refl).
  - exact (Hframe
             (SenderLink.mkDispositionOptions None (Some SenderLink.RoleReceiver) (Some 7)
                None (Some true) None None)
             SenderLink.RoleReceiver 7 eq_refl eq_refl eq_refl).
Defined.

(** *** Connection *)

Lemma C4_witness :
  Connection.FrameReader_read (Connection._buffer openedConnection)
    = (Connection.ReadThrows (mkJsError MalformedPayloadError "Unknown code prefix: 0x10"),
       Connection._buffer openedConnection) /\
  Connection.headerDone openedConnection = true /\
  Connection._receiveAny 1 openedConnection
    = (Normal tt, openedConnection, [Connection.ConsoleWarn "Unknown code prefix: 0x10"]).
Proof.
  split; [reflexivity | split; [reflexivity|]].
  refine (proj1 (proj2 (@C4_frame_error_is_logged stubEnv openedConnection
            (mkJsError MalformedPayloadError "Unknown code prefix: 0x10")
            (Connection._buffer openedConnection) 1 eq_refl eq_refl _))).
  apply Nat.lt_0_1.
Defined.

(** A frame whose body starts with an unknown constructor makes the
    reader raise; the connection stays open and tells nobody. *)
Lemma C4_counterexample :
  (Connection.FrameReader_read (Connection._buffer openedConnection)).1
    = Connection.ReadThrows (mkJsError MalformedPayloadError "Unknown code prefix: 0x10") /\
  Connection.errorsReceived (effects (Connection._receiveAny 1 openedConnection)) = [] /\
  effects (Connection._receiveAny 1 openedConnection)
    = [Connection.ConsoleWarn "Unknown code prefix: 0x10"] /\
  Connection.connSM (after (Connection._receiveAny 1 openedConnection)) = Connection.OPENED /\
  Connection.connected (after (Connection._receiveAny 1 openedConnection)) = true.
Proof. repeat split. Qed.

Lemma C5_witness :
  Connection._buffer openSentConnection = [] /\
  Connection._transport openSentConnection = true /\
  Connection.maxFrameSize
    (Connection._params
       (after (Connection._processOpenFrame (Connection._receiveAny 1) kiloOpen
                 openSentConnection)))
  = 1024.
Proof.
  split; [reflexivity | split; [reflexivity|]].
  refine (proj1 (proj2 (@C5_negotiated_maxFrameSize stubEnv openSentConnection kiloOpen
                          (Connection._receiveAny 1) eq_refl eq_refl))).
Defined.

(** A peer that advertises 256: the negotiated value is 512, not the
    minimum of the two advertised values. *)
Lemma C5_counterexample :
  Connection.maxFrameSize (Connection._params openSentConnection) = 4294967295 /\
  Connection.of_maxFrameSize smallOpen = Some 256 /\
  Connection.maxFrameSize
    (Connection._params
       (after (Connection._processOpenFrame (Connection._receiveAny 1) smallOpen
                 openSentConnection)))
  = 512 /\
  512 <> Z.min 4294967295 256.
Proof. repeat split. discriminate. Qed.



(** *** Codec *)

Lemma C7_witness :
  Codec.VString "amqp:accepted:list" <> Codec.VNull /\
  Codec.encode (Codec.VString "amqp:accepted:list") (Some "symbol")
    = (Normal tt, [Codec.TypesEncode "symbol" (Codec.VString "amqp:accepted:list")]) /\
  Codec.encode (Codec.VNumber (Codec.Finite (inject_Z 5))) None
    = (Normal tt, [Codec.TypesEncode "int" (Codec.VNumber (Codec.Finite (inject_Z 5)))]).
Proof.
  destruct (@C7_encoder_choice Codec.specTypes) as (_ & Hforced & _ & Hint & _).
  split; [discriminate | split].
  - refine (Hforced (Codec.VString "amqp:accepted:list") "symbol" _ _); discriminate.
  - refine (Hint (inject_Z 5) None (or_introl eq_refl) eq_refl _ eq_refl). reflexivity.
Defined.

(** A forced type does not decide the encoder of [null]. *)
Lemma C7_counterexample :
  Codec.types_hasOwnProperty "uint" = true /\
  Codec.encode Codec.VNull (Some "uint")
    = (Normal tt, [Codec.TypesEncode "null" Codec.VNull]) /\
  Codec.encode Codec.VNull (Some "uint")
    <> (Normal tt, [Codec.TypesEncode "uint" Codec.VNull]).
Proof. repeat split. discriminate. Qed.

(** The whole numbers next to the bound of the int encoder go to the
    long encoder although they fit 32 bits. *)
Lemma encode_int32_bounds :
  Codec.encode (Codec.VNumber (Codec.Finite (inject_Z 2147483646))) None
    = (Normal tt, [Codec.TypesEncode "int" (Codec.VNumber (Codec.Finite (inject_Z 2147483646)))]) /\
  Codec.encode (Codec.VNumber (Codec.Finite (inject_Z 2147483647))) None
    = (Normal tt, [Codec.TypesEncode "long" (Codec.VNumber (Codec.Finite (inject_Z 2147483647)))]) /\
  Codec.encode (Codec.VNumber (Codec.Finite (inject_Z (-2147483648)))) None
    = (Normal tt, [Codec.TypesEncode "long" (Codec.VNumber (Codec.Finite (inject_Z (-2147483648))))]).
Proof. repeat split. Qed.

(** *** Codec: reading and decoding *)

Lemma X1_witness :
  0 <= 0 /\
  Codec._readFullValue 2 describedTrue (Some 0) false None
    = Normal (Codec.Full (Codec.DescribedBytes (Codec.Bytes [x53; x11]%byte)
                                                (Codec.Bytes [x41]%byte)) (Some 4)) /\
  (1 <= 4 /\ 0 + 4 <= Z.of_nat (length describedTrue) /\
   Codec.wire (Codec.DescribedBytes (Codec.Bytes [x53; x11]%byte) (Codec.Bytes [x41]%byte))
     = Buffer_slice describedTrue 0 (0 + 4) /\
   (Buffer_at describedTrue 0 <> Some 0 ->
    Codec.DescribedBytes (Codec.Bytes [x53; x11]%byte) (Codec.Bytes [x41]%byte)
      = Codec.Bytes (Buffer_slice describedTrue 0 (0 + 4))) /\
   (Buffer_at describedTrue 0 = Some 0 ->
    exists descriptor value,
      Codec.DescribedBytes (Codec.Bytes [x53; x11]%byte) (Codec.Bytes [x41]%byte)
        = Codec.DescribedBytes descriptor value)).
Proof.
  split; [lia|]. split; [reflexivity|].
  apply (@X1_readFullValue_is_the_wire_bytes libErrors 2 describedTrue 0 false _ 4);
    [lia | reflexivity].
Defined.

Lemma X2_witness :
  0 <= 0 /\
  @Codec.decode libErrors testDecoders 1 ubyte42 (Some 0) None
    = Normal (Some (Codec.VNumber (Codec.Finite (inject_Z 42)), Some 2)) /\
  (1 <= 2 /\ 0 + 2 <= Z.of_nat (length ubyte42) /\
   (Buffer_at ubyte42 0 <> Some 0 ->
    exists c decoder,
      Buffer_at ubyte42 0 = Some c /\
      @Codec.types_decode testDecoders c = Some decoder /\
      decoder (Some (Buffer_slice ubyte42 (0 + 1) (0 + 2)))
        = Normal (Codec.VNumber (Codec.Finite (inject_Z 42))))).
Proof.
  split; [lia|]. split; [reflexivity|].
  apply (@X2_decode_reads_what_is_there libErrors testDecoders 1 ubyte42 0 _ 2);
    [lia | reflexivity].
Defined.

(** The ubyte 42 between a null and a true. *)
Lemma X3_witness :
  @Codec.decode libErrors testDecoders 1 ubyte42 (Some 0) None
    = Normal (Some (Codec.VNumber (Codec.Finite (inject_Z 42)), Some 2)) /\
  @Codec.decode libErrors testDecoders 1 ([x40]%byte ++ ubyte42 ++ [x41]%byte) (Some 1) None
    = Normal (Some (Codec.VNumber (Codec.Finite (inject_Z 42)), Some 2)).
Proof.
  split; [reflexivity|].
  apply (@X3_decode_position_independent libErrors testDecoders 1 ubyte42 _ 2 [x40]%byte [x41]%byte).
  reflexivity.
Defined.

(** A binary cut inside its length. *)
Lemma X4_witness :
  0 <= 0 /\
  @Codec.decode libErrors testDecoders 1 longBinary (Some 0) None
    = Normal (Some (Codec.VObject (Codec.OBuffer [x00; x00; x00; x01; x2a]%byte), Some 6)) /\
  Buffer_at longBinary 0 <> Some 0 /\
  Z.of_nat 3 < 0 + 6 /\
  @Codec.decode libErrors testDecoders 1 (take 3 longBinary) (Some 0) None = Normal None.
Proof.
  split; [lia|]. split; [reflexivity|]. split; [discriminate|]. split; [lia|].
  apply (@X4_decode_truncated_value libErrors testDecoders 1 longBinary 0
           (Codec.VObject (Codec.OBuffer [x00; x00; x00; x01; x2a]%byte)) 6 3%nat);
    [lia | reflexivity | discriminate | lia].
Defined.

Lemma X5_witness :
  0 <= 0 /\ Buffer_at [x1f]%byte 0 = Some 31 /\ 31 <> 0 /\
  match Codec._readFullValue 1 [x1f]%byte (Some 0) false None with
  | Normal _ => 64 <= 31
  | Throw e =>
      31 < 64 /\
      e = newError MalformedPayloadError
            ("Unknown code prefix: 0x" +:+ Number_toString16 (Z.land 31 240))
  | _ => False
  end.
Proof.
  split; [lia|]. split; [reflexivity|]. split; [lia|].
  apply (@X5_unknown_code_prefix libErrors 0 [x1f]%byte 0 false 31); [lia | reflexivity | lia].
Defined.

Lemma X6_witness :
  number_or (Some 0) 0 = 0 /\
  Buffer_at cutDescriptor 0 = Some 0 /\
  Buffer_at cutDescriptor 1 = Some 176 /\
  Codec.classify (Z.land 176 240) = Codec.Variable4 /\
  (length cutDescriptor < 6)%nat /\
  (forall doNotConsume,
     Codec._readFullValue 1000 cutDescriptor (Some 0) doNotConsume None = OutOfFuel) /\
  @Codec.decode libErrors testDecoders 1000 cutDescriptor (Some 0) None = OutOfFuel.
Proof.
  split; [reflexivity|]. split; [reflexivity|]. split; [reflexivity|].
  split; [reflexivity|]. split; [simpl; lia|].
  apply (@X6_truncated_descriptor_recursion libErrors testDecoders 1000 cutDescriptor (Some 0) 176);
    [reflexivity | reflexivity | reflexivity | reflexivity | simpl; lia].
Defined.

(** The error for the code 0x1f, with the messages of the examples. *)
Lemma unknown_code_prefix_message :
  Codec._readFullValue 1 [x1f]%byte (Some 0) false None
  = Throw (mkJsError MalformedPayloadError "malformed payload: Unknown code prefix: 0x10").
Proof. reflexivity. Qed.

(** *** Connection *)

Lemma X10_witness :
  @Connection.reachable stubEnv
    (after (Connection.react 1 (Connection.CallOpen localhost None)
              (Connection.newConnection defaultOptions))) /\
  ~ throwsTypeError
      (completion
         (Connection.react 1 Connection.OnConnect
            (after (Connection.react 1 (Connection.CallOpen localhost None)
                      (Connection.newConnection defaultOptions))))).
Proof.
  assert (Hreach : @Connection.reachable stubEnv
            (after (Connection.react 1 (Connection.CallOpen localhost None)
                      (Connection.newConnection defaultOptions))))
    by (apply Connection.reachable_react, Connection.reachable_new).
  split; [exact Hreach|].
  exact (proj1 (@X10_never_writes_without_transport stubEnv _ 1 Connection.OnConnect Hreach)).
Defined.

Lemma X12_witness :
  Connection.connSM closingConnection = Connection.OPENED /\
  @Connection.FrameReader_read byteEnv (Connection._buffer closingConnection)
    = (Connection.ReadFrame (Connection.CloseFrame None), [x00]%byte) /\
  Connection.stateTrace (effects (@Connection._receiveAny byteEnv 5 closingConnection))
    = [Connection.CLOSE_RCVD; Connection.DISCONNECTED] /\
  Connection._buffer (after (@Connection._receiveAny byteEnv 5 closingConnection))
    = [x00]%byte.
Proof.
  split; [reflexivity|]. split; [reflexivity|].
  pose proof (@X12_peer_close byteEnv closingConnection None [x00]%byte 5
                eq_refl eq_refl eq_refl eq_refl eq_refl ltac:(lia)) as H.
  cbv zeta in H. destruct H as (_ & Heff & _ & _ & _ & Hbuf).
  split; [by rewrite Heff | exact Hbuf].
Defined.

Lemma X13_witness :
  Connection.connSM idleConnection = Connection.OPENED /\
  @Connection.FrameReader_read byteEnv (Connection._buffer idleConnection ++ [x18]%byte)
    = (Connection.ReadFrame (Connection.CloseFrame None), []) /\
  Connection.connSM (after (@Connection.react byteEnv 5 Connection.CallClose idleConnection))
    = Connection.CLOSE_SENT /\
  Connection.connSM
    (after (@Connection.react byteEnv 5 (Connection.OnData [x18]%byte)
              (after (@Connection.react byteEnv 5 Connection.CallClose idleConnection))))
    = Connection.DISCONNECTED.
Proof.
  split; [reflexivity|]. split; [reflexivity|].
  pose proof (@X13_local_close byteEnv idleConnection None [x18]%byte [] 5
                eq_refl eq_refl eq_refl eq_refl eq_refl ltac:(lia)) as H.
  cbv zeta in H. destruct H as ((_ & _ & Hsent & _) & (_ & _ & Hdown & _)).
  split; [exact Hsent | exact Hdown].
Defined.

(** [close] while the headers are exchanged. *)
Lemma X14_witness :
  Connection.connSM headerSentConnection <> Connection.OPEN_SENT /\
  Connection.connSM headerSentConnection <> Connection.OPENED /\
  Connection.connSM headerSentConnection <> Connection.CLOSE_RCVD /\
  @Connection.close byteEnv headerSentConnection = (Normal tt, headerSentConnection, []).
Proof.
  split; [discriminate|]. split; [discriminate|]. split; [discriminate|].
  apply (@X14_close_ignored_elsewhere byteEnv headerSentConnection); discriminate.
Defined.

Lemma X15_witness :
  @Connection.getTransportFor byteEnv (Connection.protocol localhost) = true /\
  @Connection.FrameReader_read byteEnv [x10]%byte
    = (Connection.ReadFrame
         (Connection.OpenFrame (Connection.mkOpenFields None None None false false)), []) /\
  @Connection.FrameReader_read byteEnv [] = (Connection.ReadUndefined, []) /\
  Connection.stateTrace
    (effects (@Connection.reactAll byteEnv 3
                [Connection.CallOpen localhost None; Connection.OnConnect;
                 Connection.OnData (Connection.amqpVersion ++ [x10]%byte)]
                (@Connection.newConnection byteEnv defaultOptions)))
    = [Connection.START; Connection.HDR_SENT; Connection.HDR_EXCH; Connection.OPEN_SENT;
       Connection.OPENED] /\
  Connection.connected
    (after (@Connection.reactAll byteEnv 3
              [Connection.CallOpen localhost None; Connection.OnConnect;
               Connection.OnData (Connection.amqpVersion ++ [x10]%byte)]
              (@Connection.newConnection byteEnv defaultOptions)))
    = true.
Proof.
  split; [reflexivity|]. split; [reflexivity|]. split; [reflexivity|].
  pose proof (@X15_handshake byteEnv defaultOptions localhost [x10]%byte
                (Connection.mkOpenFields None None None false false) 3
                eq_refl eq_refl eq_refl ltac:(lia)) as H.
  cbv zeta in H. destruct H as (_ & Heff & _ & Hconn & _).
  split; [by rewrite Heff | exact Hconn].
Defined.

Lemma X16_witness :
  Connection._buffer openSentConnection = [] /\
  Connection._transport openSentConnection = true /\
  Connection.channelMax
    (Connection._params
       (after (@Connection._processOpenFrame byteEnv (@Connection._receiveAny byteEnv 1)
                 modestOpen openSentConnection))) = 100 /\
  omap (fun e => match e with Connection.SetInterval ms => Some ms | _ => None end)
    (effects (@Connection._processOpenFrame byteEnv (@Connection._receiveAny byteEnv 1)
                modestOpen openSentConnection)) = [1000].
Proof.
  split; [reflexivity|]. split; [reflexivity|].
  pose proof (@X16_open_frame_negotiation byteEnv openSentConnection modestOpen
                (@Connection._receiveAny byteEnv 1) eq_refl eq_refl) as H.
  cbv zeta in H. destruct H as (_ & Hch & Hidle & _ & _ & _ & _ & _ & Htimer).
  split; [exact Hch|]. rewrite Htimer, Hidle. reflexivity.
Defined.

(** An open frame and a close frame that come in while SASL is
    negotiated are handed to the listeners and nothing else happens. *)
Lemma X17_witness :
  is_Some (Connection.sasl saslConnection) /\
  effects (@Connection._receiveAny byteEnv 5 saslConnection)
    = [Connection.Emit (Connection.FrameReceived
         (Connection.OpenFrame (Connection.mkOpenFields None None None false false)));
       Connection.Emit (Connection.FrameReceived (Connection.CloseFrame None))] /\
  Connection.connSM (after (@Connection._receiveAny byteEnv 5 saslConnection))
    = Connection.connSM saslConnection.
Proof.
  assert (Hsasl : is_Some (Connection.sasl saslConnection)) by (eexists; reflexivity).
  split; [exact Hsasl|]. split; [reflexivity|].
  exact (proj1 (@X17_sasl_isolation byteEnv saslConnection 5 Hsasl)).
Defined.

Lemma X18_witness :
  @Connection.getTransportFor byteEnv (Connection.protocol localhost) = true /\
  Connection.connSM
    (after (@Connection.reactAll byteEnv 1
              [Connection.CallOpen localhost (Some (Connection.mkSasl false));
               Connection.OnConnect]
              (@Connection.newConnection byteEnv defaultOptions)))
    = Connection.IN_SASL.
Proof.
  split; [reflexivity|].
  pose proof (@X18_sasl_handshake byteEnv defaultOptions localhost
                (Connection.mkSasl false) 1 eq_refl) as H.
  cbv zeta in H. destruct H as ((_ & _ & Hstate & _) & _).
  exact Hstate.
Defined.

(** No channel is left on a connection with two channels once both
    have a session. *)
Lemma channels_run_out :
  completion (Connection.associateSession "second" busyEndpoint) = Normal 2 /\
  throwsOverCapacity
    (completion
       (Connection.associateSession "third"
          (after (Connection.associateSession "second" busyEndpoint)))).
Proof. split; reflexivity. Qed.

(** *** Link *)

Lemma X19_witness :
  (SenderLink.linkSM (Link.sender queuedLink) = SenderLink.ATTACHED ->
   is_Some (SenderLink.connection (SenderLink.session (Link.sender queuedLink)))) /\
  (Link._timeouts queuedLink = Some [] -> is_Some (Link.reattachPolicy queuedLink)) /\
  SenderLink.linkSM (Link.sender (after (Link.react (Link.OnDetach forcedDetach) queuedLink)))
    = SenderLink.DETACHED /\
  Link.detachFrames (effects (Link.react (Link.OnDetach forcedDetach) queuedLink))
    = [(0, 1, true)].
Proof.
  assert (H1 : SenderLink.linkSM (Link.sender queuedLink) = SenderLink.ATTACHED ->
               is_Some (SenderLink.connection (SenderLink.session (Link.sender queuedLink))))
    by (intros _; eexists; reflexivity).
  assert (H2 : Link._timeouts queuedLink = Some [] -> is_Some (Link.reattachPolicy queuedLink))
    by (intros _; eexists; reflexivity).
  split; [exact H1|]. split; [exact H2|].
  pose proof (@X19_detach_received testEnv testLinkEnv forcedDetach queuedLink H1 H2) as H.
  cbv zeta in H. destruct H as (_ & Hstate & Hframes & _).
  split; [exact Hstate | exact Hframes].
Defined.

Lemma X20_witness :
  (SenderLink.linkSM (Link.sender queuedLink) = SenderLink.ATTACHED ->
   is_Some (SenderLink.connection (SenderLink.session (Link.sender queuedLink)))) /\
  (Link._timeouts queuedLink = Some [] -> is_Some (Link.reattachPolicy queuedLink)) /\
  Link.senderEffects (effects (Link.react (Link.OnDetach forcedDetach) queuedLink)) = [] /\
  length (SenderLink._pendingSends
            (Link.sender (after (Link.react (Link.OnDetach forcedDetach) queuedLink))))
    = 2%nat.
Proof.
  assert (H1 : SenderLink.linkSM (Link.sender queuedLink) = SenderLink.ATTACHED ->
               is_Some (SenderLink.connection (SenderLink.session (Link.sender queuedLink))))
    by (intros _; eexists; reflexivity).
  assert (H2 : Link._timeouts queuedLink = Some [] -> is_Some (Link.reattachPolicy queuedLink))
    by (intros _; eexists; reflexivity).
  split; [exact H1|]. split; [exact H2|].
  pose proof (@X20_detach_keeps_queued_sends testEnv testLinkEnv forcedDetach queuedLink H1 H2)
    as H.
  cbv zeta in H. destruct H as (Hnone & Hqueue & _).
  split; [exact Hnone | by rewrite Hqueue].
Defined.

Lemma X21_witness :
  (SenderLink.linkSM (Link.sender queuedLink) = SenderLink.ATTACHED ->
   is_Some (SenderLink.connection (SenderLink.session (Link.sender queuedLink)))) /\
  (Link._timeouts queuedLink = Some [] -> is_Some (Link.reattachPolicy queuedLink)) /\
  Link.timers (effects (Link.react (Link.OnDetach forcedDetach) queuedLink)) = [Some 1000] /\
  Link._timeouts (after (Link.react (Link.OnDetach forcedDetach) queuedLink)) = Some [2000].
Proof.
  assert (H1 : SenderLink.linkSM (Link.sender queuedLink) = SenderLink.ATTACHED ->
               is_Some (SenderLink.connection (SenderLink.session (Link.sender queuedLink))))
    by (intros _; eexists; reflexivity).
  assert (H2 : Link._timeouts queuedLink = Some [] -> is_Some (Link.reattachPolicy queuedLink))
    by (intros _; eexists; reflexivity).
  split; [exact H1|]. split; [exact H2|].
  exact (@X21_reattach_timer testEnv testLinkEnv forcedDetach queuedLink H1 H2).
Defined.

Lemma X23_witness :
  SenderLink.connection (SenderLink.session (Link.sender newLink))
    = Some (SenderLink.mkConnectionRef 512) /\
  @Link.newAttachFrame testLinkEnv (Link.attachPolicy newLink) = Normal "sender" /\
  SenderLink.linkSM
    (Link.sender (after (Link.reactAll [Link.CallAttach; Link.OnAttach 7] newLink)))
    = SenderLink.ATTACHED /\
  SenderLink.linkCredit
    (Link.sender (after (Link.reactAll [Link.CallAttach; Link.OnAttach 7] newLink))) = 0 /\
  length (SenderLink._pendingSends
            (Link.sender (after (Link.reactAll [Link.CallAttach; Link.OnAttach 7] newLink))))
    = 2%nat.
Proof.
  split; [reflexivity|]. split; [reflexivity|].
  pose proof (@X23_attach_releases_nothing testEnv testLinkEnv newLink "sender" 7
                (SenderLink.mkConnectionRef 512) eq_refl eq_refl) as H.
  cbv zeta in H. destruct H as (_ & _ & Hstate & Hcredit & _ & Hqueue & _).
  split; [exact Hstate|]. split; [exact Hcredit | by rewrite Hqueue].
Defined.

Lemma X24_witness :
  Link.f_handle oneCredit = Some 0 /\
  SenderLink.connection (SenderLink.session (Link.sender queuedLink))
    = Some (SenderLink.mkConnectionRef 512) /\
  Forall (Link.fits (SenderLink.mkConnectionRef 512))
    (SenderLink._pendingSends (Link.sender queuedLink)) /\
  completion (Link.react (Link.OnFlow oneCredit) queuedLink) = Normal tt /\
  Link.totalCredits (after (Link.react (Link.OnFlow oneCredit) queuedLink))
    = Link.totalCredits queuedLink + Link.f_linkCredit oneCredit.
Proof.
  assert (Hfits : Forall (Link.fits (SenderLink.mkConnectionRef 512))
                    (SenderLink._pendingSends (Link.sender queuedLink))).
  { repeat constructor. }
  split; [reflexivity|]. split; [reflexivity|]. split; [exact Hfits|].
  pose proof (@X24_flow_releases_queue testEnv testLinkEnv queuedLink oneCredit 0
                (SenderLink.mkConnectionRef 512) eq_refl eq_refl Hfits) as H.
  cbv zeta in H. destruct H as (Hdone & Htotal & _).
  split; [exact Hdone | exact Htotal].
Defined.

(** One credit lets the first of the two queued sends out. *)
Lemma one_credit_one_send :
  length (SenderLink._pendingSends
            (Link.sender (after (Link.react (Link.OnFlow oneCredit) queuedLink)))) = 1%nat /\
  length (Link.senderEffects (effects (Link.react (Link.OnFlow oneCredit) queuedLink)))
    = 2%nat.
Proof. split; reflexivity. Qed.

End Examples.
